(** * syncdbapp: the sync task engine of [syncdbapp.py]

    A shallow embedding of the worker-side logic of [SyncDBFrame]:
    [on_checkbox], [should_ignore], [walktree], [file_to_sync],
    [scan_source_for_sync], [sync_to_target_and_evict] and
    [run_task_logic], followed by the properties proved about them.

    Conventions of the embedding.
    - A file-system path is the list of its components; a POSIX time stamp
      (a Python float) is an integer number of clock ticks: the program
      only compares time stamps.
    - [self.stop_requested] is written by the GUI thread while a worker
      runs.  A worker therefore sees an arbitrary boolean at each read;
      the k-th read of a run returns [stop_at env k].
    - The operating system (directory listings, [lstat] and [stat],
      [makedirs], [copy2], the [cloudfile] subprocess, the wall clock) is
      an oracle record [Env]; what the program changes or emits (the
      target tree, the log, the queue of GUI calls, the evictor
      invocations) is the record [World].  During a run only the run
      itself writes the target tree, and [os.path.exists] and
      [os.path.getmtime] on it do not raise.  The target tree is
      represented by its regular files: directories are not part of it,
      so an [os.makedirs] that succeeds leaves it as it is, and a
      [shutil.copy2] that raises is taken to raise before it writes to
      the target.
    - A Python exception that leaves a function is a [Raise] result;
      an exception caught inside a function is the branch of its handler.
    - [time.sleep] and the random start delays are not modelled. *)

From Stdlib Require Import ZArith Ascii String List Bool Lia.
From stdpp Require Import base option list gmap strings.

Local Open Scope Z_scope.
Local Open Scope string_scope.
Local Open Scope list_scope.

(** ** Data model *)

Abbreviation path := (list string).

(** A candidate: [(filepath, stats.st_mtime)]. *)
Definition cand := (path * Z)%type.

(** One element of a task's [ignore] list.  A missing [startswith] or
    [endswith] key reads as the empty list ([ignore_rule.get(key, [])]). *)
Record ignore_rule := mk_rule {
  startswith : list string;
  endswith : list string
}.

(** One element of [self.taskConfigs].  [synced] and [ignore] may be
    missing from the YAML document. *)
Record TaskConfig := mk_task {
  label : string;
  source : path;
  target : path;
  name : string;
  synced : option string;
  ignore : option (list ignore_rule)
}.

Definition set_synced (v : string) (t : TaskConfig) : TaskConfig :=
  {| label := label t; source := source t; target := target t;
     name := name t; synced := Some v; ignore := ignore t |}.

(** The fields of [SyncDBFrame] the engine reads and writes.  The three
    [cb*] fields are the checked state of the check-box widgets. *)
Record Frame := mk_frame {
  taskConfigs : list TaskConfig;
  taskFiles : list (list cand);
  run_scan : bool;
  run_copy : bool;
  run_evict : bool;
  cbScan : bool;
  cbCopy : bool;
  cbEvict : bool
}.

Definition with_taskConfigs (v : list TaskConfig) (f : Frame) : Frame :=
  {| taskConfigs := v; taskFiles := taskFiles f;
     run_scan := run_scan f; run_copy := run_copy f; run_evict := run_evict f;
     cbScan := cbScan f; cbCopy := cbCopy f; cbEvict := cbEvict f |}.

Definition with_taskFiles (v : list (list cand)) (f : Frame) : Frame :=
  {| taskConfigs := taskConfigs f; taskFiles := v;
     run_scan := run_scan f; run_copy := run_copy f; run_evict := run_evict f;
     cbScan := cbScan f; cbCopy := cbCopy f; cbEvict := cbEvict f |}.

Definition with_scan (v : bool) (f : Frame) : Frame :=
  {| taskConfigs := taskConfigs f; taskFiles := taskFiles f;
     run_scan := v; run_copy := run_copy f; run_evict := run_evict f;
     cbScan := cbScan f; cbCopy := cbCopy f; cbEvict := cbEvict f |}.

Definition with_copy (v : bool) (f : Frame) : Frame :=
  {| taskConfigs := taskConfigs f; taskFiles := taskFiles f;
     run_scan := run_scan f; run_copy := v; run_evict := run_evict f;
     cbScan := cbScan f; cbCopy := cbCopy f; cbEvict := cbEvict f |}.

Definition with_evict (v : bool) (f : Frame) : Frame :=
  {| taskConfigs := taskConfigs f; taskFiles := taskFiles f;
     run_scan := run_scan f; run_copy := run_copy f; run_evict := v;
     cbScan := cbScan f; cbCopy := cbCopy f; cbEvict := cbEvict f |}.

Definition with_cbScan (v : bool) (f : Frame) : Frame :=
  {| taskConfigs := taskConfigs f; taskFiles := taskFiles f;
     run_scan := run_scan f; run_copy := run_copy f; run_evict := run_evict f;
     cbScan := v; cbCopy := cbCopy f; cbEvict := cbEvict f |}.

Definition with_cbCopy (v : bool) (f : Frame) : Frame :=
  {| taskConfigs := taskConfigs f; taskFiles := taskFiles f;
     run_scan := run_scan f; run_copy := run_copy f; run_evict := run_evict f;
     cbScan := cbScan f; cbCopy := v; cbEvict := cbEvict f |}.

Definition with_cbEvict (v : bool) (f : Frame) : Frame :=
  {| taskConfigs := taskConfigs f; taskFiles := taskFiles f;
     run_scan := run_scan f; run_copy := run_copy f; run_evict := run_evict f;
     cbScan := cbScan f; cbCopy := cbCopy f; cbEvict := v |}.

(** ** Stage flags: [on_checkbox] *)

(** The widget an [EVT_CHECKBOX] event comes from. *)
Inductive widget := WScan | WCopy | WEvict.

Definition IsChecked (cb : widget) (f : Frame) : bool :=
  match cb with
  | WScan => cbScan f
  | WCopy => cbCopy f
  | WEvict => cbEvict f
  end.

(** [on_checkbox(self, event)] with [cb = event.GetEventObject()].
    [SetValue] on a widget does not emit an event of its own. *)
Definition on_checkbox (cb : widget) (f : Frame) : Frame :=
  match cb with
  | WScan =>
      let f := with_scan (IsChecked WScan f) f in
      if negb (run_scan f)
      then with_cbEvict false (with_evict false
             (with_cbCopy false (with_copy false f)))
      else f
  | WCopy =>
      let f := with_copy (IsChecked WCopy f) f in
      if run_copy f
      then with_cbScan true (with_scan true f)
      else with_cbEvict false (with_evict false f)
  | WEvict =>
      let f := with_evict (IsChecked WEvict f) f in
      if run_evict f
      then with_cbCopy true (with_copy true f)
      else f
  end.

(** The user clicks a check box: the widget flips, then the handler runs. *)
Definition toggle (cb : widget) (f : Frame) : Frame :=
  match cb with
  | WScan => with_cbScan (negb (cbScan f)) f
  | WCopy => with_cbCopy (negb (cbCopy f)) f
  | WEvict => with_cbEvict (negb (cbEvict f)) f
  end.

Definition click (cb : widget) (f : Frame) : Frame := on_checkbox cb (toggle cb f).

(** The frame as [__init__] leaves it, for a given task list. *)
Definition init_frame (tasks : list TaskConfig) : Frame :=
  {| taskConfigs := tasks; taskFiles := map (fun _ => []) tasks;
     run_scan := true; run_copy := true; run_evict := false;
     cbScan := true; cbCopy := true; cbEvict := false |}.

(** evict-enabled implies copy-enabled implies scan-enabled. *)
Definition stage_invariant (f : Frame) : Prop :=
  (run_evict f = true → run_copy f = true) ∧
  (run_copy f = true → run_scan f = true).

(** The widgets show the flags. *)
Definition widgets_in_sync (f : Frame) : Prop :=
  cbScan f = run_scan f ∧ cbCopy f = run_copy f ∧ cbEvict f = run_evict f.

(** ** Time stamps: [time.strptime(s, "%Y-%m-%d %H:%M:%S")]

    CPython's [_strptime] turns the format into the regular expression
    [(\d\d\d\d)-(1[0-2]|0[1-9]|[1-9])-(3[0-1]|[1-2]\d|0[1-9]|[1-9]| [1-9])\s+(2[0-3]|[0-1]\d|\d):([0-5]\d|\d):(6[0-1]|[0-5]\d|\d)],
    matches it at the start of the string with the usual backtracking,
    raises [ValueError] when there is no match or when input is left
    over, and then builds a [datetime.date] from year, month and day,
    which raises [ValueError] for a date that does not exist.  The
    embedding covers ASCII input. *)

Record struct_time := mk_tm {
  tm_year : nat; tm_mon : nat; tm_mday : nat;
  tm_hour : nat; tm_min : nat; tm_sec : nat
}.

Definition cls := ascii → bool.

Definition between (lo hi : nat) : cls :=
  fun c => (lo <=? nat_of_ascii c)%nat && (nat_of_ascii c <=? hi)%nat.

Definition digit : cls := between 48 57.
Definition one_of (c0 : ascii) : cls := fun c => Ascii.eqb c0 c.
Definition space_cls : cls :=
  fun c => between 9 13 c || (nat_of_ascii c =? 32)%nat.

(** A regular-expression item: a literal, a group of alternatives (each
    a fixed sequence of character classes), or [\s+]. *)
Inductive tok :=
| Lit (c : ascii)
| Grp (alts : list (list cls))
| Ws.

Fixpoint match_cls (cs : list cls) (s : list ascii)
  : option (list ascii * list ascii) :=
  match cs with
  | [] => Some ([], s)
  | p :: cs' =>
      match s with
      | c :: s' =>
          if p c then
            match match_cls cs' s' with
            | Some (m, r) => Some (c :: m, r)
            | None => None
            end
          else None
      | [] => None
      end
  end.

(** First match in backtracking order: the captured groups and the rest
    of the input. *)
Fixpoint match_re (re : list tok) (s : list ascii) {struct re}
  : option (list (list ascii) * list ascii) :=
  match re with
  | [] => Some ([], s)
  | Lit c :: re' =>
      match s with
      | c' :: s' => if Ascii.eqb c c' then match_re re' s' else None
      | [] => None
      end
  | Grp alts :: re' =>
      (fix try (alts : list (list cls)) :=
         match alts with
         | [] => None
         | a :: alts' =>
             match match_cls a s with
             | Some (m, r) =>
                 match match_re re' r with
                 | Some (gs, rest) => Some (m :: gs, rest)
                 | None => try alts'
                 end
             | None => try alts'
             end
         end) alts
  | Ws :: re' =>
      (fix ws (s : list ascii) :=
         match s with
         | c :: s' =>
             if space_cls c then
               match ws s' with
               | Some r => Some r
               | None => match_re re' s'
               end
             else None
         | [] => None
         end) s
  end.

Definition re_Y : tok := Grp [[digit; digit; digit; digit]].
Definition re_m : tok :=
  Grp [[one_of "1"; between 48 50]; [one_of "0"; between 49 57]; [between 49 57]].
Definition re_d : tok :=
  Grp [[one_of "3"; between 48 49]; [between 49 50; digit];
       [one_of "0"; between 49 57]; [between 49 57]; [one_of " "; between 49 57]].
Definition re_H : tok :=
  Grp [[one_of "2"; between 48 51]; [between 48 49; digit]; [digit]].
Definition re_M : tok := Grp [[between 48 53; digit]; [digit]].
Definition re_S : tok :=
  Grp [[one_of "6"; between 48 49]; [between 48 53; digit]; [digit]].

Definition synced_format : list tok :=
  [re_Y; Lit "-"; re_m; Lit "-"; re_d; Ws; re_H; Lit ":"; re_M; Lit ":"; re_S].

(** [int(found_dict[...])]: leading blanks are skipped. *)
Definition int_of (ds : list ascii) : nat :=
  fold_left (fun acc c => if digit c then (10 * acc + (nat_of_ascii c - 48))%nat else acc)
            ds 0%nat.

Definition is_leap (y : nat) : bool :=
  ((y mod 4 =? 0) && negb (y mod 100 =? 0) || (y mod 400 =? 0))%nat.

Definition days_in_month (y m : nat) : nat :=
  match m with
  | 2 => if is_leap y then 29 else 28
  | 4 | 6 | 9 | 11 => 30
  | _ => 31
  end%nat.

(** [None] stands for [ValueError]. *)
Definition strptime (s : string) : option struct_time :=
  match match_re synced_format (list_ascii_of_string s) with
  | Some ([gY; gm; gd; gH; gM; gS], []) =>
      let year := int_of gY in
      let month := int_of gm in
      let day := int_of gd in
      if ((1 <=? year) && (day <=? days_in_month year month))%nat
      then Some (mk_tm year month day (int_of gH) (int_of gM) (int_of gS))
      else None
  | _ => None
  end.

(** ** Ignore matcher: [should_ignore] *)

Definition lower_ascii (c : ascii) : ascii :=
  if between 65 90 c then ascii_of_nat (nat_of_ascii c + 32) else c.

(** [str.lower()] on ASCII text, as a list of characters. *)
Definition lower (s : string) : list ascii :=
  map lower_ascii (list_ascii_of_string s).

Fixpoint starts_with (p s : list ascii) : bool :=
  match p, s with
  | [], _ => true
  | a :: p', b :: s' => Ascii.eqb a b && starts_with p' s'
  | _ :: _, [] => false
  end.

Definition ends_with (p s : list ascii) : bool := starts_with (rev p) (rev s).

(** One iteration of [for ignore_rule in ignore_config]. *)
Definition rule_matches (_fl : list ascii) (r : ignore_rule) : bool :=
  existsb (fun pattern => starts_with (lower pattern) _fl) (startswith r)
  || existsb (fun pattern => ends_with (lower pattern) _fl) (endswith r).

Definition should_ignore (ignore_config : list ignore_rule) (filename : string) : bool :=
  existsb (rule_matches (lower filename)) ignore_config.


(** ** The environment and the observable world *)

(** A directory as the program sees it: [os.listdir(topdir)] raises
    ([Unreadable]) or yields entries.  Of an entry the program learns
    [os.lstat(pathname).st_mode] (links are not followed), and then for a
    regular file the [(st_mtime, st_ctime)] of [os.stat] ([None] when
    [os.stat] raises), for a directory its own listing.  [Broken] is an
    entry on which [os.lstat] raises. *)
#[local] Unset Elimination Schemes.
Inductive listing :=
| Unreadable
| Entries (es : list entry)
with entry :=
| Reg (f : string) (stats : option (Z * Z))
| Dir (f : string) (ls : listing)
| Other (f : string)
| Broken (f : string).
#[local] Set Elimination Schemes.

(** How [subprocess.run(['./cloudfile', 'evict', p], timeout=5, check=True)]
    ends: normally, with one of the two exceptions the program retries on,
    or with any other exception. *)
Inductive evict_outcome :=
| Evict_ok
| TimeoutExpired
| CalledProcessError
| Evict_other_error.

Record Env := mk_env {
  (** value of [self.stop_requested] at the k-th read *)
  stop_at : nat → bool;
  (** [time.mktime] in the local time zone *)
  mktime : struct_time → Z;
  (** [os.listdir] of a task's source directory *)
  source_tree : path → listing;
  (** does [os.makedirs(dirname, exist_ok=True)] raise for candidate [index]? *)
  makedirs_raises : nat → path → bool;
  (** does [shutil.copy2(src, dst)] raise for candidate [index]? *)
  copy2_raises : nat → path → path → bool;
  (** modification time of a source file when [copy2] reads it *)
  source_mtime : path → Z;
  (** outcome of the k-th invocation of the evictor *)
  cloudfile_evict : nat → path → evict_outcome;
  (** [time.strftime("%Y-%m-%d %H:%M:%S", time.localtime())] when the run completes *)
  strftime_now : string
}.

Inductive attempt := First | Second.

Record evict_call := mk_call {
  call_attempt : attempt;
  call_path : path;
  call_outcome : evict_outcome
}.

(** The records written through [logging]. *)
Inductive log_record :=
| Warn_skipping (pathname : path)
| Err_accessing (topdir : path)
| Dbg_file_to_sync (filepath : path)
| Info_found (total_files : nat) (source_dir : path) (since : string)
| Info_scan_cancelled
| Info_sync_cancelled (copied evicted : nat)
| Info_sim_mkdir (dir : path)
| Info_copied (source_path target_path : path)
| Info_sim_copy (source_path target_path : path)
| Info_evicted (target_path : path)
| Info_sim_evict (target_path : path)
| Err_evict_first (target_path : path)
| Err_processing (source_path : path)
| Info_evicted_retry (target_path : path)
| Info_sim_evict_retry (target_path : path)
| Err_evict_retry (target_path : path)
| Err_processing_retry (target_path : path)
| Info_sync_completed (copied evicted : nat).

(** Status lines of [run_task_logic]. *)
Inductive status :=
| Scanning
| Scan_cancelled
| No_files_to_sync
| Copying (files_to_sync : nat)
| Copying_and_evicting (files_to_sync : nat)
| Sync_cancelled
| No_files_copied
| Scan_and_sync_completed (files_synced files_to_sync files_evicted : nat)
| Scan_completed (files_to_sync : nat).

(** Calls handed to the GUI thread ([wx.CallAfter]) or made on widgets. *)
Inductive ui_call :=
| Gauge_Pulse (task_id : nat)
| Gauge_SetValue (task_id index : nat)
| Gauge_SetRange (task_id range : nat)
| Status_SetLabel (task_id : nat) (s : status)
| StaticBox_SetLabel (task_id : nat) (name last_synced : string)
| On_task_stopped (task_id : nat)
| On_task_complete (task_id : nat).

Record World := mk_world {
  (** number of reads of [self.stop_requested] so far *)
  polls : nat;
  (** the regular files of the target tree with their modification time *)
  target_fs : gmap path Z;
  (** the evictor invocations so far, oldest first *)
  evict_log : list evict_call;
  (** the log file, oldest record first *)
  log : list log_record;
  (** the GUI calls, oldest first *)
  ui : list ui_call
}.

Definition logging (r : log_record) (w : World) : World :=
  {| polls := polls w; target_fs := target_fs w; evict_log := evict_log w;
     log := log w ++ [r]; ui := ui w |}.

Definition CallAfter (c : ui_call) (w : World) : World :=
  {| polls := polls w; target_fs := target_fs w; evict_log := evict_log w;
     log := log w; ui := ui w ++ [c] |}.

(** One read of [self.stop_requested]. *)
Definition poll (env : Env) (w : World) : bool * World :=
  (stop_at env (polls w),
   {| polls := S (polls w); target_fs := target_fs w; evict_log := evict_log w;
      log := log w; ui := ui w |}).

(** [shutil.copy2(source_path, target_path)] that does not raise: the target
    file exists afterwards and carries the source's modification time. *)
Definition copy2 (env : Env) (source_path target_path : path) (w : World) : World :=
  {| polls := polls w;
     target_fs := <[target_path := source_mtime env source_path]> (target_fs w);
     evict_log := evict_log w; log := log w; ui := ui w |}.

(** One invocation of the evictor; the call and its outcome are recorded. *)
Definition run_cloudfile (env : Env) (a : attempt) (target_path : path) (w : World)
  : evict_outcome * World :=
  let r := cloudfile_evict env (length (evict_log w)) target_path in
  (r, {| polls := polls w; target_fs := target_fs w;
         evict_log := evict_log w ++ [mk_call a target_path r];
         log := log w; ui := ui w |}).

(** ** Tree scanner: [walktree] with the callback [file_to_sync] *)

(** State of a scan: the list object in [self.taskFiles[task_id-1]] and the world. *)
Definition scan_state := (list cand * World)%type.

(** [file_to_sync(filepath)] when [os.stat(filepath)] gave [(st_mtime, st_ctime)]. *)
Definition file_to_sync (last_run : Z) (filepath : path) (stats : Z * Z)
    (st : scan_state) : scan_state :=
  let '(st_mtime, st_ctime) := stats in
  if ((last_run <? st_mtime) || (last_run <? st_ctime))%Z
  then (st.1 ++ [(filepath, st_mtime)], logging (Dbg_file_to_sync filepath) st.2)
  else st.

(** The [except Exception] clause of [walktree], followed by [return True]. *)
Definition walktree_except (topdir : path) (st : scan_state) : bool * scan_state :=
  (true, (st.1, logging (Err_accessing topdir) st.2)).

(** [walktree(topdir, file_to_sync)], with [ls] what [os.listdir(topdir)]
    gives.  The [try] statement encloses the whole [for] loop, so an
    exception raised while an entry is handled ends the loop. *)
Fixpoint walktree (env : Env) (task_id : nat) (ignore_config : list ignore_rule)
    (last_run : Z) (topdir : path) (ls : listing) (st : scan_state)
    {struct ls} : bool * scan_state :=
  match ls with
  | Unreadable => walktree_except topdir st
  | Entries es =>
      (fix loop (es : list entry) (st : scan_state) {struct es} : bool * scan_state :=
         match es with
         | [] => (true, st)
         | e :: es' =>
             let '(stop_requested, w) := poll env st.2 in
             if stop_requested then (false, (st.1, w))
             else
               let st := (st.1, CallAfter (Gauge_Pulse task_id) w) in
               match e with
               | Broken f => walktree_except topdir st
               | Dir f ls' =>
                   if should_ignore ignore_config f then loop es' st
                   else
                     let '(ok, st) :=
                       walktree env task_id ignore_config last_run (topdir ++ [f]) ls' st in
                     if ok then loop es' st else (false, st)
               | Reg f stats =>
                   if should_ignore ignore_config f then loop es' st
                   else
                     match stats with
                     | Some mc => loop es' (file_to_sync last_run (topdir ++ [f]) mc st)
                     | None => walktree_except topdir st
                     end
               | Other f => loop es' (st.1, logging (Warn_skipping (topdir ++ [f])) st.2)
               end
         end) es st
  end.

(** ** Exceptions and per-task slots *)

Inductive exn := IndexError | KeyError | ValueError.

Inductive result (A : Type) :=
| Return (a : A)
| Raise (e : exn).
Arguments Return {A} a.
Arguments Raise {A} e.

(** The position [xs[task_id-1]] denotes: Python reads index [-1] as the
    last element. *)
Definition slot {A : Type} (xs : list A) (task_id : nat) : nat :=
  match task_id with
  | O => length xs - 1
  | S k => k
  end.

(** ** [scan_source_for_sync] *)

Definition scan_source_for_sync (env : Env) (task_id : nat) (fr : Frame) (w : World)
  : result nat * Frame * World :=
  let i := slot (taskFiles fr) task_id in
  match taskFiles fr !! i with
  | None => (Raise IndexError, fr, w)
  | Some _ =>
      let fr := with_taskFiles (<[i := []]> (taskFiles fr)) fr in
      match taskConfigs fr !! slot (taskConfigs fr) task_id with
      | None => (Raise IndexError, fr, w)
      | Some cfg =>
          let source_dir := source cfg in
          match synced cfg with
          | None => (Raise KeyError, fr, w)
          | Some since =>
              match strptime since with
              | None => (Raise ValueError, fr, w)
              | Some time_tuple =>
                  let last_run := mktime env time_tuple in
                  let ignore_config := default [] (ignore cfg) in
                  let '(completed, (files, w)) :=
                    walktree env task_id ignore_config last_run source_dir
                             (source_tree env source_dir) ([], w) in
                  if completed then
                    let total_files := length files in
                    (Return total_files,
                     with_taskFiles (<[i := files]> (taskFiles fr)) fr,
                     logging (Info_found total_files source_dir since) w)
                  else
                    (Return 0%nat,
                     with_taskFiles (<[i := []]> (taskFiles fr)) fr,
                     logging Info_scan_cancelled w)
              end
          end
      end
  end.

(** ** Copy/evict pipeline: [sync_to_target_and_evict] *)

(** [os.path.relpath(path, start)] on absolute, normalised paths: drop the
    common prefix and climb out of what is left of [start]. *)
Fixpoint relpath_from (p start : path) : path :=
  match p, start with
  | a :: p', b :: start' =>
      if String.eqb a b then relpath_from p' start'
      else repeat ".." (length start) ++ p
  | _, _ => repeat ".." (length start) ++ p
  end.

Definition relpath (p start : path) : path :=
  match relpath_from p start with
  | [] => ["."]
  | rel => rel
  end.

(** [os.path.join(target_dir, rel_path)] for a relative [rel_path]. *)
Definition join (dir rel : path) : path := dir ++ rel.

Definition dirname (p : path) : path := removelast p.

(** The local variables of the function that change in its loops. *)
Record sync_state := mk_sync {
  copied_count : nat;
  evicted_count : nat;
  evict_retry : list path;
  world : World
}.

Definition in_world (g : World → World) (s : sync_state) : sync_state :=
  {| copied_count := copied_count s; evicted_count := evicted_count s;
     evict_retry := evict_retry s; world := g (world s) |}.

Definition count_copy (s : sync_state) : sync_state :=
  {| copied_count := S (copied_count s); evicted_count := evicted_count s;
     evict_retry := evict_retry s; world := world s |}.

Definition count_evict (s : sync_state) : sync_state :=
  {| copied_count := copied_count s; evicted_count := S (evicted_count s);
     evict_retry := evict_retry s; world := world s |}.

Definition retry_later (target_path : path) (s : sync_state) : sync_state :=
  {| copied_count := copied_count s; evicted_count := evicted_count s;
     evict_retry := evict_retry s ++ [target_path]; world := world s |}.

(** [not os.path.exists(target_path) or source_mtime > os.path.getmtime(target_path)] *)
Definition needs_copy (w : World) (target_path : path) (source_mtime : Z) : bool :=
  match target_fs w !! target_path with
  | None => true
  | Some target_mtime => (target_mtime <? source_mtime)%Z
  end.

(** The [if self.run_evict:] block, entered after [copied_count += 1]. *)
Definition evict_first (env : Env) (simsync : bool) (source_path target_path : path)
    (s : sync_state) : sync_state :=
  if simsync then count_evict (in_world (logging (Info_sim_evict target_path)) s)
  else
    let '(r, w) := run_cloudfile env First target_path (world s) in
    let s := in_world (fun _ => w) s in
    match r with
    | Evict_ok => count_evict (in_world (logging (Info_evicted target_path)) s)
    | TimeoutExpired | CalledProcessError =>
        retry_later target_path (in_world (logging (Err_evict_first target_path)) s)
    | Evict_other_error => in_world (logging (Err_processing source_path)) s
    end.

(** The body of the main [for] loop after the stop check. *)
Definition process_candidate (env : Env) (task_id : nat) (simsync evict : bool)
    (source_dir target_dir : path) (index : nat) (c : cand) (s : sync_state)
  : sync_state :=
  let '(source_path, source_mtime) := c in
  let s := in_world (CallAfter (Gauge_SetValue task_id index)) s in
  let rel_path := relpath source_path source_dir in
  let target_path := join target_dir rel_path in
  if negb simsync && makedirs_raises env index (dirname target_path)
  then in_world (logging (Err_processing source_path)) s
  else
    let s := if simsync
             then in_world (logging (Info_sim_mkdir (dirname target_path))) s
             else s in
    if needs_copy (world s) target_path source_mtime then
      if negb simsync && copy2_raises env index source_path target_path
      then in_world (logging (Err_processing source_path)) s
      else
        let s :=
          if simsync
          then in_world (logging (Info_sim_copy source_path target_path)) s
          else in_world (logging (Info_copied source_path target_path))
                 (in_world (copy2 env source_path target_path) s) in
        let s := count_copy s in
        if evict then evict_first env simsync source_path target_path s else s
    else s.

(** The main loop over [enumerate(self.taskFiles[task_id-1], start=1)]; the
    boolean tells whether the function returned from inside the loop. *)
Fixpoint sync_loop (env : Env) (task_id : nat) (simsync evict : bool)
    (source_dir target_dir : path) (index : nat) (cands : list cand) (s : sync_state)
  : bool * sync_state :=
  match cands with
  | [] => (false, s)
  | c :: cands' =>
      let '(stop_requested, w) := poll env (world s) in
      let s := in_world (fun _ => w) s in
      if stop_requested
      then (true, in_world (logging (Info_sync_cancelled (copied_count s) (evicted_count s))) s)
      else sync_loop env task_id simsync evict source_dir target_dir (S index) cands'
             (process_candidate env task_id simsync evict source_dir target_dir index c s)
  end.

(** The body of the retry loop. *)
Definition retry_candidate (env : Env) (task_id : nat) (simsync : bool)
    (target_path : path) (s : sync_state) : sync_state :=
  let s := in_world (CallAfter (Gauge_Pulse task_id)) s in
  if simsync then count_evict (in_world (logging (Info_sim_evict_retry target_path)) s)
  else
    let '(r, w) := run_cloudfile env Second target_path (world s) in
    let s := in_world (fun _ => w) s in
    match r with
    | Evict_ok => count_evict (in_world (logging (Info_evicted_retry target_path)) s)
    | TimeoutExpired | CalledProcessError =>
        in_world (logging (Err_evict_retry target_path)) s
    | Evict_other_error => in_world (logging (Err_processing_retry target_path)) s
    end.

(** [for target_path in evict_retry: ...] *)
Fixpoint retry_loop (env : Env) (task_id : nat) (simsync : bool)
    (paths : list path) (s : sync_state) : sync_state :=
  match paths with
  | [] => s
  | target_path :: paths' =>
      retry_loop env task_id simsync paths' (retry_candidate env task_id simsync target_path s)
  end.

(** The function from the first loop on, for given directories and list. *)
Definition sync_body (env : Env) (task_id : nat) (simsync evict : bool)
    (source_dir target_dir : path) (cands : list cand) (w : World) : sync_state :=
  let '(returned, s) :=
    sync_loop env task_id simsync evict source_dir target_dir 1 cands
              (mk_sync 0 0 [] w) in
  if returned then s
  else
    let s := retry_loop env task_id simsync (evict_retry s) s in
    in_world (logging (Info_sync_completed (copied_count s) (evicted_count s))) s.

Definition sync_to_target_and_evict (env : Env) (task_id : nat) (simsync : bool)
    (fr : Frame) (w : World) : result (nat * nat) * World :=
  if negb (run_copy fr) then (Return (0, 0)%nat, w)
  else
    match taskConfigs fr !! slot (taskConfigs fr) task_id with
    | None => (Raise IndexError, w)
    | Some cfg =>
        match taskFiles fr !! slot (taskFiles fr) task_id with
        | None => (Raise IndexError, w)
        | Some cands =>
            let s := sync_body env task_id simsync (run_evict fr)
                               (source cfg) (target cfg) cands w in
            (Return (copied_count s, evicted_count s), world s)
        end
    end.

(** ** Task orchestrator: [run_task_logic]

    The stage flags are read as the frame holds them when the worker
    starts; a check box clicked while a worker runs is not modelled.  The
    per-task widget lists ([taskLabels], [taskStatus], [taskGauges], ...)
    are built together with [taskFiles], one element per task, and are
    represented by the latter. *)

Definition store_synced (task_id : nat) (stamp : string) (fr : Frame) : Frame :=
  let i := slot (taskConfigs fr) task_id in
  match taskConfigs fr !! i with
  | Some cfg => with_taskConfigs (<[i := set_synced stamp cfg]> (taskConfigs fr)) fr
  | None => fr
  end.

Definition task_name (task_id : nat) (fr : Frame) : string :=
  match taskConfigs fr !! slot (taskConfigs fr) task_id with
  | Some cfg => name cfg
  | None => ""
  end.

(** The two GUI calls that precede the call of the pipeline: the range of
    the gauge and the status line. *)
Definition pipeline_start (task_id files_to_sync : nat) (fr : Frame) (w : World) : World :=
  CallAfter (Status_SetLabel task_id
               (if negb (run_evict fr) then Copying files_to_sync
                else Copying_and_evicting files_to_sync))
            (CallAfter (Gauge_SetRange task_id files_to_sync) w).

(** The part of [run_task_logic] after a scan that found [files_to_sync]
    files, [files_to_sync] not being zero. *)
Definition copy_stage (env : Env) (task_id files_to_sync : nat) (fr : Frame) (w : World)
  : result unit * Frame * World :=
  if run_copy fr then
    let w := pipeline_start task_id files_to_sync fr w in
    match sync_to_target_and_evict env task_id false fr w with
    | (Raise e, w) => (Raise e, fr, w)
    | (Return (files_synced, files_evicted), w) =>
        (* [files_synced == 0 or self.stop_requested]: the flag is read only
           when something was copied *)
        let '(stopped, w) :=
          if (files_synced =? 0)%nat then (true, w) else poll env w in
        if stopped then
          let w := CallAfter (On_task_stopped task_id) w in
          let '(stop_requested, w) := poll env w in
          (Return tt, fr,
           CallAfter (Status_SetLabel task_id
                        (if stop_requested then Sync_cancelled else No_files_copied)) w)
        else
          let fr := store_synced task_id (strftime_now env) fr in
          let w := CallAfter (StaticBox_SetLabel task_id (task_name task_id fr)
                                (strftime_now env)) w in
          let w := CallAfter (On_task_complete task_id) w in
          (Return tt, fr,
           CallAfter (Status_SetLabel task_id
                        (Scan_and_sync_completed files_synced files_to_sync files_evicted)) w)
    end
  else
    let w := CallAfter (On_task_complete task_id) w in
    (Return tt, fr, CallAfter (Status_SetLabel task_id (Scan_completed files_to_sync)) w).

Definition run_task_logic (env : Env) (task_id : nat) (fr : Frame) (w : World)
  : result unit * Frame * World :=
  match taskFiles fr !! slot (taskFiles fr) task_id with
  | None => (Raise IndexError, fr, w)
  | Some _ =>
      if run_scan fr then
        let w := CallAfter (Status_SetLabel task_id Scanning) w in
        match scan_source_for_sync env task_id fr w with
        | (Raise e, fr, w) => (Raise e, fr, w)
        | (Return files_to_sync, fr, w) =>
            if (files_to_sync =? 0)%nat then
              let w := CallAfter (On_task_stopped task_id) w in
              let '(stop_requested, w) := poll env w in
              (Return tt, fr,
               CallAfter (Status_SetLabel task_id
                            (if stop_requested then Scan_cancelled else No_files_to_sync)) w)
            else copy_stage env task_id files_to_sync fr w
        end
      else (Return tt, fr, w)
  end.

(** The watermark of a task as the frame holds it. *)
Definition watermark (task_id : nat) (fr : Frame) : option string :=
  match taskConfigs fr !! slot (taskConfigs fr) task_id with
  | Some cfg => synced cfg
  | None => None
  end.


(** ** Notions used in the statements *)

(** *** The record of evictor invocations *)

Definition is_first (c : evict_call) : bool :=
  match call_attempt c with First => true | Second => false end.

Definition is_second (c : evict_call) : bool :=
  match call_attempt c with First => false | Second => true end.

Definition succeeded (c : evict_call) : bool :=
  match call_outcome c with Evict_ok => true | _ => false end.

(** Non-zero exit or timeout: what the program retries on. *)
Definition retryable (c : evict_call) : bool :=
  match call_outcome c with
  | TimeoutExpired | CalledProcessError => true
  | _ => false
  end.

(** The invocations made between two worlds of one run. *)
Definition new_calls (w0 w1 : World) : list evict_call :=
  drop (length (evict_log w0)) (evict_log w1).

(** Every eviction success and every pending retry belongs to a counted copy. *)
Definition balanced (s : sync_state) : Prop :=
  (evicted_count s + length (evict_retry s) ≤ copied_count s)%nat.

(** What one pass through the body of the main loop adds. *)
Definition step_adds (simsync evict : bool) (s s' : sync_state)
    (calls : list evict_call) : Prop :=
  evict_log (world s') = evict_log (world s) ++ calls ∧
  Forall (λ c, is_first c = true) calls ∧
  (copied_count s + length calls ≤ copied_count s')%nat ∧
  evict_retry s' = evict_retry s ++ map call_path (List.filter retryable calls) ∧
  (simsync = false →
     evicted_count s' = (evicted_count s + length (List.filter succeeded calls))%nat) ∧
  (simsync = false → evict = true →
     copied_count s' = (copied_count s + length calls)%nat) ∧
  (simsync = true → calls = []).

(** The record a retry leaves in the log. *)
Definition retry_record (c : evict_call) : log_record :=
  match call_outcome c with
  | Evict_ok => Info_evicted_retry (call_path c)
  | TimeoutExpired | CalledProcessError => Err_evict_retry (call_path c)
  | Evict_other_error => Err_processing_retry (call_path c)
  end.

(** *** The target tree *)

(** The target of a candidate exists and is not older than the candidate. *)
Definition up_to_date (fs : gmap path Z) (source_dir target_dir : path) (c : cand) : Prop :=
  ∃ t, fs !! join target_dir (relpath c.1 source_dir) = Some t ∧ (c.2 ≤ t)%Z.

(** *** The walk *)

(** The [for] loop of [walktree] over the entries of [topdir]. *)
Definition walk_entries (env : Env) (task_id : nat) (ignore_config : list ignore_rule)
    (last_run : Z) (topdir : path) (es : list entry) (st : scan_state)
  : bool * scan_state :=
  walktree env task_id ignore_config last_run topdir (Entries es) st.

(** The state in which the body of the loop handles an entry: the flag
    has been read and the gauge pulsed. *)
Definition entered (env : Env) (task_id : nat) (st : scan_state) : scan_state :=
  (st.1, CallAfter (Gauge_Pulse task_id) (poll env st.2).2).

(** What the reads of the stop flag made by a walk tell: the walk that
    started after [p0] reads and ended as [r] found the flag clear at
    every read but, when it returns [False], the last one. *)
Definition reads_ok (env : Env) (p0 : nat) (r : bool * scan_state) : Prop :=
  (p0 ≤ polls r.2.2)%nat ∧
  (∀ k, (p0 ≤ k < polls r.2.2 - (if r.1 then 0 else 1))%nat → stop_at env k = false) ∧
  (r.1 = false → (p0 < polls r.2.2)%nat ∧ stop_at env (polls r.2.2 - 1) = true).

(** The regular files a walk from [topdir] is meant to find: those that
    are not ignored and lie below directories that are not ignored, with
    the [(st_mtime, st_ctime)] that [os.stat] reports for them. *)
Inductive in_tree (ignore_config : list ignore_rule)
  : path → listing → path → Z * Z → Prop :=
| in_tree_here topdir es f stats :
    In (Reg f (Some stats)) es →
    should_ignore ignore_config f = false →
    in_tree ignore_config topdir (Entries es) (topdir ++ [f]) stats
| in_tree_below topdir es f ls p stats :
    In (Dir f ls) es →
    should_ignore ignore_config f = false →
    in_tree ignore_config (topdir ++ [f]) ls p stats →
    in_tree ignore_config topdir (Entries es) p stats.

(** No [os.lstat] and no [os.stat] raises anywhere in the tree (a
    directory may still be impossible to list). *)
Fixpoint readable (ls : listing) : bool :=
  match ls with
  | Unreadable => true
  | Entries es =>
      (fix all (es : list entry) : bool :=
         match es with
         | [] => true
         | e :: es' =>
             match e with
             | Reg _ (Some _) => true
             | Reg _ None => false
             | Dir _ ls' => readable ls'
             | Other _ => true
             | Broken _ => false
             end && all es'
         end) es
  end.

(** Changed since the watermark, as [file_to_sync] decides it. *)
Definition changed_since (last_run : Z) (stats : Z * Z) : Prop :=
  (last_run < stats.1 ∨ last_run < stats.2)%Z.

(** What a walk may add to the candidate list. *)
Definition found_in (ignore_config : list ignore_rule) (last_run : Z)
    (topdir : path) (ls : listing) (c : cand) : Prop :=
  ∃ ct, in_tree ignore_config topdir ls c.1 (c.2, ct) ∧ changed_since last_run (c.2, ct).

(** *** The frame *)

(** The candidate list the frame holds for a task. *)
Definition task_files (task_id : nat) (fr : Frame) : option (list cand) :=
  taskFiles fr !! slot (taskFiles fr) task_id.

(** The time a watermark denotes, as [scan_source_for_sync] computes
    [last_run] from it. *)
Definition stamp_time (env : Env) (stamp : option string) : option Z :=
  match stamp with
  | Some s =>
      match strptime s with
      | Some time_tuple => Some (mktime env time_tuple)
      | None => None
      end
  | None => None
  end.

(** In this run of the task the pipeline was called, it returned
    copied_count >= 1, and the read of the stop flag that follows found
    the flag clear. *)
Definition sync_completed (env : Env) (task_id : nat) (fr : Frame) (w : World) : Prop :=
  run_scan fr = true ∧
  ∃ files_to_sync fr1 w1 files_synced files_evicted w2,
    scan_source_for_sync env task_id fr (CallAfter (Status_SetLabel task_id Scanning) w)
    = (Return files_to_sync, fr1, w1) ∧
    files_to_sync ≠ 0%nat ∧
    run_copy fr1 = true ∧
    sync_to_target_and_evict env task_id false fr1
                             (pipeline_start task_id files_to_sync fr1 w1)
    = (Return (files_synced, files_evicted), w2) ∧
    (1 ≤ files_synced)%nat ∧
    stop_at env (polls w2) = false.

(** ** A small concrete installation, used to run the definitions *)

(** A stand-in for [time.mktime]: seconds in a calendar of 12 months of
    31 days, which orders time tuples as the real one does. *)
Definition mktime_demo (t : struct_time) : Z :=
  (((((Z.of_nat (tm_year t) * 12 + Z.of_nat (tm_mon t)) * 31 + Z.of_nat (tm_mday t)) * 24
      + Z.of_nat (tm_hour t)) * 60 + Z.of_nat (tm_min t)) * 60 + Z.of_nat (tm_sec t))%Z.

Definition demo_source : path := ["home"; "docs"].
Definition demo_target : path := ["cloud"; "docs"].

Definition demo_task : TaskConfig :=
  mk_task "Docs" demo_source demo_target "Documents"
          (Some "2026-01-05 09:03:59") (Some [mk_rule ["."] [".tmp"]]).

Definition demo_last_run : Z := mktime_demo (mk_tm 2026 1 5 9 3 59).

(** [a.txt] changed after the watermark, [old.txt] did not, [x.tmp] and
    [.git] are ignored, [link] is a symbolic link. *)
Definition demo_tree : listing :=
  Entries [Reg "a.txt" (Some (demo_last_run + 10, demo_last_run + 10));
           Reg "old.txt" (Some (demo_last_run - 10, demo_last_run - 10));
           Reg "x.tmp" (Some (demo_last_run + 10, demo_last_run + 10));
           Dir ".git" (Entries [Reg "HEAD" (Some (demo_last_run + 10, demo_last_run + 10))]);
           Other "link";
           Dir "sub" (Entries [Reg "b.txt" (Some (demo_last_run - 5, demo_last_run + 7))])].

(** An environment in which nothing fails, the stop button is not pressed
    and the evictor fails on its first invocation only. *)
Definition demo_env : Env :=
  {| stop_at := λ _, false;
     mktime := mktime_demo;
     source_tree := λ _, demo_tree;
     makedirs_raises := λ _ _, false;
     copy2_raises := λ _ _ _, false;
     source_mtime := λ _, demo_last_run + 10;
     cloudfile_evict := λ k _, if (k =? 0)%nat then TimeoutExpired else Evict_ok;
     strftime_now := "2026-11-04 12:00:00" |}.

Definition demo_cands : list cand :=
  [(demo_source ++ ["a.txt"], demo_last_run + 10);
   (demo_source ++ ["sub"; "b.txt"], demo_last_run - 5)].

Definition demo_frame (evict : bool) (files : list cand) : Frame :=
  {| taskConfigs := [demo_task]; taskFiles := [files];
     run_scan := true; run_copy := true; run_evict := evict;
     cbScan := true; cbCopy := true; cbEvict := evict |}.

Definition empty_world : World := mk_world 0 ∅ [] [] [].

(** The stop button is pressed right after the first read of the flag;
    the evictor fails on its first invocation only. *)
Definition late_stop_env : Env :=
  {| stop_at := λ k, (1 <=? k)%nat;
     mktime := mktime_demo;
     source_tree := λ _, demo_tree;
     makedirs_raises := λ _ _, false;
     copy2_raises := λ _ _ _, false;
     source_mtime := λ _, demo_last_run + 10;
     cloudfile_evict := λ k _, if (k =? 0)%nat then TimeoutExpired else Evict_ok;
     strftime_now := "2026-11-04 12:00:00" |}.

(** An environment in which the stop button is pressed before the third
    read of the flag. *)
Definition stop_env : Env :=
  {| stop_at := λ k, (2 <=? k)%nat;
     mktime := mktime_demo;
     source_tree := λ _, demo_tree;
     makedirs_raises := λ _ _, false;
     copy2_raises := λ _ _ _, false;
     source_mtime := λ _, demo_last_run + 10;
     cloudfile_evict := λ _ _, Evict_ok;
     strftime_now := "2026-11-04 12:00:00" |}.

(** A source directory whose first entry cannot be examined ([os.lstat]
    raises) and whose second entry is a regular file changed after the
    watermark; and the same directory without the first entry. *)
Definition broken_tree : listing :=
  Entries [Broken "a"; Reg "b.txt" (Some (demo_last_run + 10, demo_last_run + 10))].

Definition mended_tree : listing :=
  Entries [Reg "b.txt" (Some (demo_last_run + 10, demo_last_run + 10))].

Definition env_with_tree (t : listing) : Env :=
  {| stop_at := λ _, false;
     mktime := mktime_demo;
     source_tree := λ _, t;
     makedirs_raises := λ _ _, false;
     copy2_raises := λ _ _ _, false;
     source_mtime := λ _, demo_last_run + 10;
     cloudfile_evict := λ _ _, Evict_ok;
     strftime_now := "2026-11-04 12:00:00" |}.


(** ** The rounds of a walk *)

(** What a round of the loop of [walktree] has before it: a regular file
    that is not ignored and that [os.stat] reports on; an entry that is
    neither a regular file nor a directory; or another entry (a
    directory, an ignored name, an entry on which [os.lstat] or
    [os.stat] raises). *)
Inductive visit :=
| Visit_file (pathname : path) (stats : Z * Z)
| Visit_other (pathname : path)
| Visit_skip (pathname : path).

(** The rounds that a walk from [topdir] makes when no read of the stop
    flag ends it, in order.  A directory that is not ignored is followed
    by the rounds of its own walk; after an entry on which [os.lstat] or
    [os.stat] raises the listing has no further round; a directory that
    cannot be listed has none. *)
Fixpoint visits (ignore_config : list ignore_rule) (topdir : path) (ls : listing)
    {struct ls} : list visit :=
  match ls with
  | Unreadable => []
  | Entries es =>
      (fix rounds (es : list entry) {struct es} : list visit :=
         match es with
         | [] => []
         | e :: es' =>
             match e with
             | Broken f => [Visit_skip (topdir ++ [f])]
             | Dir f ls' =>
                 if should_ignore ignore_config f
                 then Visit_skip (topdir ++ [f]) :: rounds es'
                 else Visit_skip (topdir ++ [f])
                      :: visits ignore_config (topdir ++ [f]) ls' ++ rounds es'
             | Reg f stats =>
                 if should_ignore ignore_config f
                 then Visit_skip (topdir ++ [f]) :: rounds es'
                 else
                   match stats with
                   | Some mc => Visit_file (topdir ++ [f]) mc :: rounds es'
                   | None => [Visit_skip (topdir ++ [f])]
                   end
             | Other f => Visit_other (topdir ++ [f]) :: rounds es'
             end
         end) es
  end.

(** The candidate a round adds: the file with its modification time,
    when the modification time or the metadata-change time is strictly
    greater than the watermark. *)
Definition candidate_of (last_run : Z) (v : visit) : list cand :=
  match v with
  | Visit_file pathname (st_mtime, st_ctime) =>
      if ((last_run <? st_mtime) || (last_run <? st_ctime))%Z
      then [(pathname, st_mtime)] else []
  | _ => []
  end.

(** The path a round warns about. *)
Definition warning_of (v : visit) : list path :=
  match v with
  | Visit_other pathname => [pathname]
  | _ => []
  end.

(** The paths of the "Skipping ...: not a file or directory" warnings of
    a log, oldest first. *)
Definition warned (records : list log_record) : list path :=
  flat_map (λ r, match r with Warn_skipping pathname => [pathname] | _ => [] end) records.

(** ** Further environments *)

(** The local wall clock is behind the watermark of [demo_task] when the
    run completes (set back by hand, or by the end of daylight saving
    time); otherwise as [demo_env]. *)
Definition clock_back_env : Env :=
  {| stop_at := λ _, false;
     mktime := mktime_demo;
     source_tree := λ _, demo_tree;
     makedirs_raises := λ _ _, false;
     copy2_raises := λ _ _ _, false;
     source_mtime := λ _, demo_last_run + 10;
     cloudfile_evict := λ k _, if (k =? 0)%nat then TimeoutExpired else Evict_ok;
     strftime_now := "2026-01-05 08:30:00" |}.

(** The source files are older when they are copied than the scan saw
    them (replaced by an older version in between); otherwise as
    [demo_env]. *)
Definition older_source_env : Env :=
  {| stop_at := λ _, false;
     mktime := mktime_demo;
     source_tree := λ _, demo_tree;
     makedirs_raises := λ _ _, false;
     copy2_raises := λ _ _ _, false;
     source_mtime := λ _, demo_last_run + 5;
     cloudfile_evict := λ _ _, Evict_ok;
     strftime_now := "2026-11-04 12:00:00" |}.

(** A walk that started in [st] with the rounds [vs] before it and ended
    as [r] made the first [k] of them: it read the stop flag once per
    round, and once more when it returns [False]; it appended the
    candidates of these rounds to the list and wrote their warnings. *)
Definition made_rounds (last_run : Z) (st : scan_state) (vs : list visit)
    (r : bool * scan_state) (k : nat) : Prop :=
  (k ≤ length vs)%nat ∧
  (if r.1 then k = length vs else (k < length vs)%nat) ∧
  polls r.2.2 = (polls st.2 + k + (if r.1 then 0 else 1))%nat ∧
  r.2.1 = st.1 ++ flat_map (candidate_of last_run) (take k vs) ∧
  warned (log r.2.2) = warned (log st.2) ++ flat_map warning_of (take k vs).
(** An environment whose target volume is not there: [os.makedirs]
    raises for every candidate. *)
Definition unmounted_env : Env :=
  {| stop_at := λ _, false;
     mktime := mktime_demo;
     source_tree := λ _, demo_tree;
     makedirs_raises := λ _ _, true;
     copy2_raises := λ _ _ _, false;
     source_mtime := λ _, demo_last_run + 10;
     cloudfile_evict := λ _ _, Evict_ok;
     strftime_now := "2026-11-04 12:00:00" |}.

(** An environment in which the [cloudfile] executable is missing:
    [subprocess.run] raises [FileNotFoundError] at every invocation. *)
Definition no_cloudfile_env : Env :=
  {| stop_at := λ _, false;
     mktime := mktime_demo;
     source_tree := λ _, demo_tree;
     makedirs_raises := λ _ _, false;
     copy2_raises := λ _ _ _, false;
     source_mtime := λ _, demo_last_run + 10;
     cloudfile_evict := λ _ _, Evict_other_error;
     strftime_now := "2026-11-04 12:00:00" |}.

(** ** Reading the queue of GUI calls *)

(** The GUI calls made between two worlds of one run. *)
Definition new_ui (w0 w1 : World) : list ui_call :=
  drop (length (ui w0)) (ui w1).

(** The positions the gauge is set to, in order. *)
Definition gauge_values (calls : list ui_call) : list nat :=
  flat_map (λ c, match c with Gauge_SetValue _ index => [index] | _ => [] end) calls.

(** The calls that give a task back to the GUI: [on_task_stopped] and
    [on_task_complete] re-enable its button. *)
Definition hand_backs (calls : list ui_call) : list nat :=
  flat_map (λ c, match c with
                 | On_task_stopped task_id | On_task_complete task_id => [task_id]
                 | _ => []
                 end) calls.


(** ** Writing the watermark: [time.strftime("%Y-%m-%d %H:%M:%S", t)]

    Each directive writes its field in decimal, zero-padded to its width:
    four digits for [%Y] (years 1000 to 9999), two for the others. *)

Definition digit_char (d : nat) : ascii := ascii_of_nat (48 + d).

Definition two_digits (n : nat) : list ascii :=
  [digit_char (n / 10); digit_char (n mod 10)].

Definition four_digits (n : nat) : list ascii :=
  [digit_char (n / 1000); digit_char (n / 100 mod 10);
   digit_char (n / 10 mod 10); digit_char (n mod 10)].

Definition strftime (t : struct_time) : string :=
  string_of_list_ascii
    (four_digits (tm_year t) ++ "-"%char :: two_digits (tm_mon t) ++ "-"%char ::
     two_digits (tm_mday t) ++ " "%char :: two_digits (tm_hour t) ++ ":"%char ::
     two_digits (tm_min t) ++ ":"%char :: two_digits (tm_sec t)).

(** The values [time.localtime()] can return, for a year of four digits. *)
Definition valid_time (t : struct_time) : Prop :=
  (1000 ≤ Z.of_nat (tm_year t) ≤ 9999)%Z ∧
  (1 ≤ tm_mon t ≤ 12 ∧
   1 ≤ tm_mday t ≤ days_in_month (tm_year t) (tm_mon t) ∧
   tm_hour t ≤ 23 ∧ tm_min t ≤ 59 ∧ tm_sec t ≤ 61)%nat.

(** The first alternative of a group that matches at the start of [s]. *)
Fixpoint first_fit (alts : list (list cls)) (s : list ascii)
  : option (list ascii * list ascii) :=
  match alts with
  | [] => None
  | a :: alts' =>
      match match_cls a s with
      | Some mr => Some mr
      | None => first_fit alts' s
      end
  end.

(** ** The window: widgets and event handlers

    The widget lists of [SyncDBFrame] next to the fields of [Frame].  A
    button is its identifier, label and enabled state; a gauge its range,
    value and whether it is in indeterminate mode; a static box its title,
    made of the task name and the time of the last sync. *)

Record Button := mk_button {
  btn_id : nat;
  btn_label : string;
  btn_enabled : bool
}.

Record Gauge := mk_gauge {
  gauge_range : nat;
  gauge_value : nat;
  gauge_pulsing : bool
}.

(** The text of a status line. *)
Inductive row_status :=
| Status_ready
| Status_starting_task (task_id : nat)
| Status_starting (label : string)
| Status_line (s : status).

Record Window := mk_window {
  frame : Frame;
  taskSizers : list (string * option string);
  taskLabels : list string;
  taskBtns : list Button;
  taskGauges : list Gauge;
  taskStatus : list row_status;
  stop_requested : bool;
  btnRunAll : bool;
  btnStop : bool;
  (** the task ids of the worker threads started so far, oldest first *)
  workers : list nat
}.

Definition with_frame (v : Frame) (g : Window) : Window :=
  {| frame := v; taskSizers := taskSizers g; taskLabels := taskLabels g;
     taskBtns := taskBtns g; taskGauges := taskGauges g; taskStatus := taskStatus g;
     stop_requested := stop_requested g; btnRunAll := btnRunAll g;
     btnStop := btnStop g; workers := workers g |}.

Definition with_taskSizers (v : list (string * option string)) (g : Window) : Window :=
  {| frame := frame g; taskSizers := v; taskLabels := taskLabels g;
     taskBtns := taskBtns g; taskGauges := taskGauges g; taskStatus := taskStatus g;
     stop_requested := stop_requested g; btnRunAll := btnRunAll g;
     btnStop := btnStop g; workers := workers g |}.

Definition with_taskBtns (v : list Button) (g : Window) : Window :=
  {| frame := frame g; taskSizers := taskSizers g; taskLabels := taskLabels g;
     taskBtns := v; taskGauges := taskGauges g; taskStatus := taskStatus g;
     stop_requested := stop_requested g; btnRunAll := btnRunAll g;
     btnStop := btnStop g; workers := workers g |}.

Definition with_taskGauges (v : list Gauge) (g : Window) : Window :=
  {| frame := frame g; taskSizers := taskSizers g; taskLabels := taskLabels g;
     taskBtns := taskBtns g; taskGauges := v; taskStatus := taskStatus g;
     stop_requested := stop_requested g; btnRunAll := btnRunAll g;
     btnStop := btnStop g; workers := workers g |}.

Definition with_taskStatus (v : list row_status) (g : Window) : Window :=
  {| frame := frame g; taskSizers := taskSizers g; taskLabels := taskLabels g;
     taskBtns := taskBtns g; taskGauges := taskGauges g; taskStatus := v;
     stop_requested := stop_requested g; btnRunAll := btnRunAll g;
     btnStop := btnStop g; workers := workers g |}.

Definition with_stop_requested (v : bool) (g : Window) : Window :=
  {| frame := frame g; taskSizers := taskSizers g; taskLabels := taskLabels g;
     taskBtns := taskBtns g; taskGauges := taskGauges g; taskStatus := taskStatus g;
     stop_requested := v; btnRunAll := btnRunAll g;
     btnStop := btnStop g; workers := workers g |}.

Definition with_btnRunAll (v : bool) (g : Window) : Window :=
  {| frame := frame g; taskSizers := taskSizers g; taskLabels := taskLabels g;
     taskBtns := taskBtns g; taskGauges := taskGauges g; taskStatus := taskStatus g;
     stop_requested := stop_requested g; btnRunAll := v;
     btnStop := btnStop g; workers := workers g |}.

Definition with_btnStop (v : bool) (g : Window) : Window :=
  {| frame := frame g; taskSizers := taskSizers g; taskLabels := taskLabels g;
     taskBtns := taskBtns g; taskGauges := taskGauges g; taskStatus := taskStatus g;
     stop_requested := stop_requested g; btnRunAll := btnRunAll g;
     btnStop := v; workers := workers g |}.

(** [threading.Thread(target=self.run_task_logic, args=(task_id,)).start()] *)
Definition start_worker (task_id : nat) (g : Window) : Window :=
  {| frame := frame g; taskSizers := taskSizers g; taskLabels := taskLabels g;
     taskBtns := taskBtns g; taskGauges := taskGauges g; taskStatus := taskStatus g;
     stop_requested := stop_requested g; btnRunAll := btnRunAll g;
     btnStop := btnStop g; workers := workers g ++ [task_id] |}.

(** [btn.Enable()] and [btn.Disable()] *)
Definition set_enabled (v : bool) (b : Button) : Button :=
  {| btn_id := btn_id b; btn_label := btn_label b; btn_enabled := v |}.

(** [gauge.SetValue(v)] leaves the indeterminate mode; [gauge.Pulse()]
    enters it; [gauge.SetRange(r)]. *)
Definition SetValue (v : nat) (x : Gauge) : Gauge :=
  {| gauge_range := gauge_range x; gauge_value := v; gauge_pulsing := false |}.

Definition Pulse (x : Gauge) : Gauge :=
  {| gauge_range := gauge_range x; gauge_value := gauge_value x; gauge_pulsing := true |}.

Definition SetRange (r : nat) (x : Gauge) : Gauge :=
  {| gauge_range := r; gauge_value := gauge_value x; gauge_pulsing := gauge_pulsing x |}.

(** [xs[task_id-1].method(...)]: the element is changed in place; [None]
    stands for [IndexError]. *)
Definition at_row {A : Type} (f : A → A) (task_id : nat) (xs : list A) : option (list A) :=
  let i := slot xs task_id in
  match xs !! i with
  | Some x => Some (<[i := f x]> xs)
  | None => None
  end.

(** [create_run_task_row(task)]: the new button takes the next
    identifier; the title of the box shows the last sync when the
    configuration has a non-empty one. *)
Definition create_run_task_row (task : TaskConfig) (g : Window) : Window :=
  let last_synced := match synced task with
                     | Some "" | None => None
                     | Some s => Some s
                     end in
  let btn_id := (length (taskBtns g) + 1)%nat in
  {| frame := with_taskFiles (taskFiles (frame g) ++ [[]]) (frame g);
     taskSizers := taskSizers g ++ [(name task, last_synced)];
     taskLabels := taskLabels g ++ [label task];
     taskBtns := taskBtns g ++ [mk_button btn_id ("Run " ++ label task) true];
     taskGauges := taskGauges g ++ [mk_gauge 100 0 false];
     taskStatus := taskStatus g ++ [Status_ready];
     stop_requested := stop_requested g; btnRunAll := btnRunAll g;
     btnStop := btnStop g; workers := workers g |}.

(** [__init__], for the task list that [load_tasks_from_config] has
    read: the empty lists and initial flags, one row per task, then the
    Run All button enabled and the Stop button disabled. *)
Definition init_window (tasks : list TaskConfig) : Window :=
  let g0 :=
    {| frame := {| taskConfigs := tasks; taskFiles := [];
                   run_scan := true; run_copy := true; run_evict := false;
                   cbScan := true; cbCopy := true; cbEvict := false |};
       taskSizers := []; taskLabels := []; taskBtns := [];
       taskGauges := []; taskStatus := [];
       stop_requested := false; btnRunAll := false; btnStop := false;
       workers := [] |} in
  let g := fold_left (λ g task, create_run_task_row task g) tasks g0 in
  with_btnStop false (with_btnRunAll true g).

(** One round of the loop of [on_launch_all_tasks]. *)
Definition launch_row (task_id : nat) (g : Window) : result unit * Window :=
  let g := start_worker task_id g in
  match at_row (set_enabled false) task_id (taskBtns g) with
  | None => (Raise IndexError, g)
  | Some btns =>
      let g := with_taskBtns btns g in
      match taskLabels g !! slot (taskLabels g) task_id with
      | None => (Raise IndexError, g)
      | Some l =>
          match at_row (λ _, Status_starting l) task_id (taskStatus g) with
          | None => (Raise IndexError, g)
          | Some sts => (Return tt, with_taskStatus sts g)
          end
      end
  end.

Fixpoint launch_rows (ids : list nat) (g : Window) : result unit * Window :=
  match ids with
  | [] => (Return tt, g)
  | task_id :: ids' =>
      match launch_row task_id g with
      | (Return _, g) => launch_rows ids' g
      | (Raise e, g) => (Raise e, g)
      end
  end.

(** [on_launch_all_tasks(event)] *)
Definition on_launch_all_tasks (g : Window) : result unit * Window :=
  let g := with_stop_requested false g in
  match launch_rows (seq 1 (length (taskBtns g))) g with
  | (Return _, g) => (Return tt, with_btnStop true (with_btnRunAll false g))
  | (Raise e, g) => (Raise e, g)
  end.

(** [on_launch_task(event)], for the event of the button at position
    [pos] of [taskBtns]: [event.GetEventObject()] is that button and
    [event.GetId()] its identifier. *)
Definition on_launch_task (pos : nat) (g : Window) : result unit * Window :=
  match taskBtns g !! pos with
  | None => (Return tt, g)
  | Some btn =>
      let task_id := btn_id btn in
      if ((1 <=? task_id) && (task_id <=? length (taskBtns g)))%nat then
        let g := with_stop_requested false g in
        let g := start_worker task_id g in
        let g := with_taskBtns (<[pos := set_enabled false btn]> (taskBtns g)) g in
        let g := with_btnStop true (with_btnRunAll false g) in
        match at_row (λ _, Status_starting_task task_id) task_id (taskStatus g) with
        | None => (Raise IndexError, g)
        | Some sts => (Return tt, with_taskStatus sts g)
        end
      else (Return tt, g)
  end.

(** [on_task_complete(task_id)] *)
Definition on_task_complete (task_id : nat) (g : Window) : result unit * Window :=
  match at_row (set_enabled true) task_id (taskBtns g) with
  | None => (Raise IndexError, g)
  | Some btns =>
      let g := with_btnStop false (with_btnRunAll true (with_taskBtns btns g)) in
      match at_row (SetValue 0) task_id (taskGauges g) with
      | None => (Raise IndexError, g)
      | Some gauges => (Return tt, with_taskGauges gauges g)
      end
  end.

(** [on_task_stopped(task_id)] *)
Definition on_task_stopped (task_id : nat) (g : Window) : result unit * Window :=
  on_task_complete task_id g.

(** [on_stop_button_click(event)] *)
Definition on_stop_button_click (g : Window) : Window := with_stop_requested true g.

(** The GUI thread runs a call a worker has queued.  The widget of a
    call was looked up by the worker when it queued the call. *)
Definition run_call (c : ui_call) (g : Window) : result unit * Window :=
  match c with
  | Gauge_Pulse task_id =>
      (Return tt,
       with_taskGauges (default (taskGauges g) (at_row Pulse task_id (taskGauges g))) g)
  | Gauge_SetValue task_id index =>
      (Return tt,
       with_taskGauges
         (default (taskGauges g) (at_row (SetValue index) task_id (taskGauges g))) g)
  | Gauge_SetRange task_id range =>
      (Return tt,
       with_taskGauges
         (default (taskGauges g) (at_row (SetRange range) task_id (taskGauges g))) g)
  | Status_SetLabel task_id s =>
      (Return tt,
       with_taskStatus
         (default (taskStatus g) (at_row (λ _, Status_line s) task_id (taskStatus g))) g)
  | StaticBox_SetLabel task_id name last_synced =>
      (Return tt,
       with_taskSizers
         (default (taskSizers g)
            (at_row (λ _, (name, Some last_synced)) task_id (taskSizers g))) g)
  | On_task_stopped task_id => on_task_stopped task_id g
  | On_task_complete task_id => on_task_complete task_id g
  end.

(** The GUI thread runs the queued calls in order; a call that raises
    does not stop the event loop. *)
Definition run_calls (calls : list ui_call) (g : Window) : Window :=
  fold_left (λ g c, (run_call c g).2) calls g.

(** What the user and the workers make the GUI thread do.  A disabled
    button emits no event. *)
Inductive event :=
| Click_run (pos : nat)
| Click_run_all
| Click_stop
| Click_checkbox (cb : widget)
| Queued (c : ui_call).

Definition handle (e : event) (g : Window) : Window :=
  match e with
  | Click_run pos =>
      match taskBtns g !! pos with
      | Some btn => if btn_enabled btn then (on_launch_task pos g).2 else g
      | None => g
      end
  | Click_run_all => if btnRunAll g then (on_launch_all_tasks g).2 else g
  | Click_stop => if btnStop g then on_stop_button_click g else g
  | Click_checkbox cb => with_frame (click cb (frame g)) g
  | Queued c => (run_call c g).2
  end.

Definition handle_all (events : list event) (g : Window) : Window :=
  fold_left (λ g e, handle e g) events g.

(** The rows of the window belong to the tasks: every list has one
    element per task and the buttons carry the identifiers 1, 2, ... *)
Definition aligned (tasks : list TaskConfig) (g : Window) : Prop :=
  taskConfigs (frame g) = tasks ∧
  length (taskFiles (frame g)) = length tasks ∧
  length (taskSizers g) = length tasks ∧
  taskLabels g = map label tasks ∧
  map btn_id (taskBtns g) = seq 1 (length tasks) ∧
  length (taskGauges g) = length tasks ∧
  length (taskStatus g) = length tasks.

(** A window in which nothing runs. *)
Definition row_idle (g : Window) (pos : nat) : Prop :=
  (∃ btn, taskBtns g !! pos = Some btn ∧ btn_enabled btn = true) ∧
  (∃ x, taskGauges g !! pos = Some x ∧ gauge_value x = 0%nat ∧ gauge_pulsing x = false).

(** Two windows with the same rows: the same tasks, labels and button
    identifiers, and lists of the same lengths. *)
Definition same_rows (g g' : Window) : Prop :=
  taskConfigs (frame g') = taskConfigs (frame g) ∧
  length (taskFiles (frame g')) = length (taskFiles (frame g)) ∧
  length (taskSizers g') = length (taskSizers g) ∧
  taskLabels g' = taskLabels g ∧
  map btn_id (taskBtns g') = map btn_id (taskBtns g) ∧
  length (taskGauges g') = length (taskGauges g) ∧
  length (taskStatus g') = length (taskStatus g).
(** * Properties *)

(** ** Time stamps and ignore rules on examples *)

Example strptime_full : strptime "2026-01-05 09:03:59" = Some (mk_tm 2026 1 5 9 3 59).
Proof. vm_compute. reflexivity. Qed.

Example strptime_short_fields : strptime "2026-1-5  9:3:7" = Some (mk_tm 2026 1 5 9 3 7).
Proof. vm_compute. reflexivity. Qed.

Example strptime_no_such_day : strptime "2026-02-30 09:03:59" = None.
Proof. vm_compute. reflexivity. Qed.

Example strptime_trailing_input : strptime "2026-02-20 09:03:65" = None.
Proof. vm_compute. reflexivity. Qed.

Example strptime_empty : strptime "" = None.
Proof. reflexivity. Qed.

Example should_ignore_prefix :
  should_ignore [mk_rule ["TEMP_"] []] "TEMP_report.log.bak" = true.
Proof. vm_compute. reflexivity. Qed.

Example should_ignore_suffix : should_ignore [mk_rule [] [".tmp"]] "notes.tmp" = true.
Proof. vm_compute. reflexivity. Qed.

Example should_ignore_case : should_ignore [mk_rule [] [".TMP"]] "Notes.tmp" = true.
Proof. vm_compute. reflexivity. Qed.

Example should_ignore_no_match : should_ignore [mk_rule ["."] [".tmp"]] "notes.txt" = false.
Proof. vm_compute. reflexivity. Qed.

(** ** Stage flags *)

Lemma click_keeps_widgets_in_sync cb f :
  widgets_in_sync f → widgets_in_sync (click cb f).
Proof.
  destruct f as [cfgs files s c e ws wc we]; intros (H1 & H2 & H3); simpl in *; subst.
  destruct cb, s, c, e; repeat split.
Qed.

(** Unchecking Scan switches copy and evict off. *)
Lemma disabling_scan_forces_copy_and_evict_off f :
  cbScan f = false →
  let f' := on_checkbox WScan f in
  run_scan f' = false ∧ run_copy f' = false ∧ run_evict f' = false.
Proof. intros H. unfold on_checkbox; simpl. rewrite H. simpl. auto. Qed.

(** Unchecking Copy switches evict off. *)
Lemma disabling_copy_forces_evict_off f :
  cbCopy f = false →
  let f' := on_checkbox WCopy f in
  run_copy f' = false ∧ run_evict f' = false.
Proof. intros H. unfold on_checkbox; simpl. rewrite H. simpl. auto. Qed.

(** Checking Copy switches scan on. *)
Lemma enabling_copy_forces_scan_on f :
  cbCopy f = true →
  let f' := on_checkbox WCopy f in
  run_copy f' = true ∧ run_scan f' = true.
Proof. intros H. unfold on_checkbox; simpl. rewrite H. simpl. auto. Qed.

(** Checking Evict switches copy on and leaves scan as it was. *)
Lemma enabling_evict_forces_copy_on f :
  cbEvict f = true →
  let f' := on_checkbox WEvict f in
  run_evict f' = true ∧ run_copy f' = true ∧ run_scan f' = run_scan f.
Proof. intros H. unfold on_checkbox; simpl. rewrite H. simpl. auto. Qed.

(** Events of the Scan and Copy boxes keep the invariant, and so does an
    event of the Evict box while scanning is enabled. *)
Lemma on_checkbox_keeps_invariant cb f :
  stage_invariant f →
  cb ≠ WEvict ∨ run_scan f = true →
  stage_invariant (on_checkbox cb f).
Proof.
  destruct f as [cfgs files s c e ws wc we]; unfold stage_invariant; simpl.
  intros [H1 H2] Hcb.
  destruct cb; simpl.
  - destruct ws; simpl; intuition congruence.
  - destruct wc; simpl; intuition congruence.
  - destruct Hcb as [Hcb | ->]; [congruence |].
    destruct we; simpl; intuition congruence.
Qed.

(** C9, at the failing inputs.  When scanning is disabled and the user
    checks Evict, the handler switches evict and copy on and does not
    touch scan: copy is enabled while scan is disabled, and the invariant
    evict => copy => scan is broken. *)
Theorem evict_checkbox_leaves_scan_off f :
  run_scan f = false →
  cbEvict f = true →
  let f' := on_checkbox WEvict f in
  (run_scan f', run_copy f', run_evict f') = (false, true, true) ∧
  ¬ stage_invariant f'.
Proof.
  intros Hscan Hev. unfold on_checkbox. simpl. rewrite Hev. simpl. rewrite Hscan.
  split; [reflexivity |].
  unfold stage_invariant; simpl. rewrite Hscan.
  intros [_ H]. specialize (H eq_refl). discriminate.
Qed.

(** The state is reached from the initial frame: the user unchecks Scan
    (all three stages go off, the invariant holds) and then checks Evict. *)
Lemma evict_checkbox_leaves_scan_off_witness :
  let f0 := init_frame [] in
  let f1 := click WScan f0 in
  let f2 := click WEvict f1 in
  stage_invariant f0 ∧ stage_invariant f1 ∧
  (run_scan f1, run_copy f1, run_evict f1) = (false, false, false) ∧
  (run_scan f2, run_copy f2, run_evict f2) = (false, true, true) ∧
  ¬ stage_invariant f2.
Proof.
  split; [unfold stage_invariant; simpl; auto |].
  split; [unfold stage_invariant; simpl; auto |].
  split; [reflexivity |].
  exact (evict_checkbox_leaves_scan_off
           (toggle WEvict (click WScan (init_frame []))) eq_refl eq_refl).
Defined.

(** ** Copy/evict pipeline: counters *)

Lemma evict_first_balanced env simsync sp tp s :
  balanced s → balanced (count_copy s) ∧
  balanced (evict_first env simsync sp tp (count_copy s)).
Proof.
  unfold balanced, evict_first. intros H. split; [simpl; lia |].
  destruct simsync; simpl; [lia |].
  destruct (cloudfile_evict _ _ _); simpl; rewrite ?length_app; simpl; lia.
Qed.

Lemma process_candidate_balanced env task_id simsync evict src tgt index c s :
  balanced s →
  balanced (process_candidate env task_id simsync evict src tgt index c s).
Proof.
  intros H. destruct c as [sp m]. unfold process_candidate.
  destruct (negb simsync && makedirs_raises _ _ _); [exact H |].
  match goal with |- context [needs_copy ?w ?p ?t] => destruct (needs_copy w p t) end.
  2: { destruct simsync; exact H. }
  destruct (negb simsync && copy2_raises _ _ _ _).
  { destruct simsync; exact H. }
  destruct evict.
  - match goal with |- balanced (evict_first _ _ _ _ (count_copy ?s0)) =>
      apply (evict_first_balanced env simsync sp _ s0) end.
    destruct simsync; exact H.
  - match goal with |- balanced (count_copy ?s0) =>
      apply (evict_first_balanced env simsync sp [] s0) end.
    destruct simsync; exact H.
Qed.

Lemma sync_loop_balanced env task_id simsync evict src tgt cands :
  ∀ index s, balanced s →
    balanced (sync_loop env task_id simsync evict src tgt index cands s).2.
Proof.
  induction cands as [| c cands IH]; intros index s H; simpl; [exact H |].
  destruct (stop_at env (polls (world s))); simpl; [exact H |].
  apply IH. apply process_candidate_balanced. exact H.
Qed.

Lemma retry_candidate_counts env task_id simsync tp s :
  let s' := retry_candidate env task_id simsync tp s in
  copied_count s' = copied_count s ∧
  evict_retry s' = evict_retry s ∧
  (evicted_count s' ≤ S (evicted_count s))%nat.
Proof.
  unfold retry_candidate. destruct simsync; simpl; [auto |].
  destruct (cloudfile_evict _ _ _); simpl; auto.
Qed.

Lemma retry_loop_counts env task_id simsync paths :
  ∀ s, let s' := retry_loop env task_id simsync paths s in
    copied_count s' = copied_count s ∧
    evict_retry s' = evict_retry s ∧
    (evicted_count s' ≤ evicted_count s + length paths)%nat.
Proof.
  induction paths as [| tp paths IH]; intros s; simpl; [repeat split; lia |].
  destruct (IH (retry_candidate env task_id simsync tp s)) as (H1 & H2 & H3).
  destruct (retry_candidate_counts env task_id simsync tp s) as (H4 & H5 & H6).
  repeat split; [congruence | congruence | lia].
Qed.

Lemma sync_body_evicted_le_copied env task_id simsync evict src tgt cands w :
  let s := sync_body env task_id simsync evict src tgt cands w in
  (evicted_count s ≤ copied_count s)%nat.
Proof.
  unfold sync_body.
  pose proof (sync_loop_balanced env task_id simsync evict src tgt cands 1
                (mk_sync 0 0 [] w)) as H.
  destruct (sync_loop _ _ _ _ _ _ _ _ _) as [returned s1]. simpl in H.
  assert (Hb : balanced s1) by (apply H; unfold balanced; simpl; lia).
  unfold balanced in Hb.
  destruct returned; simpl; [lia |].
  destruct (retry_loop_counts env task_id simsync (evict_retry s1) s1) as (H1 & H2 & H3).
  lia.
Qed.

(** ** Copy/evict pipeline: the record of evictor invocations *)

Lemma new_calls_app w0 w1 calls :
  evict_log w1 = evict_log w0 ++ calls → new_calls w0 w1 = calls.
Proof. intros H. unfold new_calls. rewrite H. apply drop_app_length. Qed.

Ltac close_adds :=
  unfold step_adds, retryable, succeeded; simpl; rewrite ?app_nil_r;
  repeat split; intros; try reflexivity; try lia; try discriminate;
  try (repeat constructor; fail).

Lemma step_adds_refl simsync evict s : step_adds simsync evict s s [].
Proof. close_adds. Qed.

Lemma step_adds_trans simsync evict s1 s2 s3 c12 c23 :
  step_adds simsync evict s1 s2 c12 → step_adds simsync evict s2 s3 c23 →
  step_adds simsync evict s1 s3 (c12 ++ c23).
Proof.
  intros (A1 & A2 & A3 & A4 & A5 & A6 & A7) (B1 & B2 & B3 & B4 & B5 & B6 & B7).
  unfold step_adds.
  rewrite List.filter_app, List.filter_app, map_app, !length_app.
  repeat split.
  - rewrite B1, A1, app_assoc. reflexivity.
  - apply Forall_app; auto.
  - lia.
  - rewrite B4, A4, app_assoc. reflexivity.
  - intros H. rewrite (B5 H), (A5 H). lia.
  - intros H H'. rewrite (B6 H H'), (A6 H H'). lia.
  - intros H. rewrite (A7 H), (B7 H). reflexivity.
Qed.

Lemma process_candidate_adds env task_id simsync evict src tgt index c s :
  ∃ calls,
    step_adds simsync evict s
      (process_candidate env task_id simsync evict src tgt index c s) calls.
Proof.
  destruct c as [sp m]. unfold process_candidate.
  destruct (negb simsync && makedirs_raises _ _ _).
  { exists []. close_adds. }
  match goal with |- context [needs_copy ?w ?p ?t] => destruct (needs_copy w p t) end.
  2: { exists []. destruct simsync; close_adds. }
  destruct (negb simsync && copy2_raises _ _ _ _).
  { exists []. destruct simsync; close_adds. }
  destruct evict.
  2: { exists []. destruct simsync; close_adds. }
  unfold evict_first. destruct simsync.
  { exists []. close_adds. }
  simpl.
  match goal with |- context [cloudfile_evict ?e ?k ?p] =>
    exists [mk_call First p (cloudfile_evict e k p)];
    destruct (cloudfile_evict e k p) eqn:E end; close_adds.
Qed.

Lemma process_candidate_polls env task_id simsync evict src tgt index c s :
  polls (world (process_candidate env task_id simsync evict src tgt index c s))
  = polls (world s).
Proof.
  destruct c as [sp m]. unfold process_candidate.
  destruct (negb simsync && makedirs_raises _ _ _); [reflexivity |].
  match goal with |- context [needs_copy ?w ?p ?t] => destruct (needs_copy w p t) end.
  2: { destruct simsync; reflexivity. }
  destruct (negb simsync && copy2_raises _ _ _ _).
  { destruct simsync; reflexivity. }
  destruct evict.
  2: { destruct simsync; reflexivity. }
  unfold evict_first. destruct simsync; [reflexivity |]. simpl.
  destruct (cloudfile_evict _ _ _); reflexivity.
Qed.

Lemma sync_loop_adds env task_id simsync evict src tgt cands :
  ∀ index s, ∃ calls,
    step_adds simsync evict s
      (sync_loop env task_id simsync evict src tgt index cands s).2 calls.
Proof.
  induction cands as [| c cands IH]; intros index s; simpl.
  { exists []. apply step_adds_refl. }
  destruct (stop_at env (polls (world s))); simpl.
  { exists []. close_adds. }
  match goal with |- context [process_candidate ?e ?t ?a ?b ?x ?y ?i ?c ?s0] =>
    destruct (process_candidate_adds e t a b x y i c s0) as [c1 H1];
    destruct (IH (S index) (process_candidate e t a b x y i c s0)) as [c2 H2] end.
  exists (c1 ++ c2).
  eapply step_adds_trans; [| exact H2].
  destruct H1 as (A1 & A2 & A3 & A4 & A5 & A6 & A7).
  repeat split; auto.
Qed.

(** The main loop over a concatenation. *)
Lemma sync_loop_app env task_id simsync evict src tgt pre rest :
  ∀ index s,
    sync_loop env task_id simsync evict src tgt index (pre ++ rest) s =
    let '(returned, s1) := sync_loop env task_id simsync evict src tgt index pre s in
    if returned then (true, s1)
    else sync_loop env task_id simsync evict src tgt (index + length pre) rest s1.
Proof.
  induction pre as [| c pre IH]; intros index s; simpl.
  { rewrite Nat.add_0_r. reflexivity. }
  destruct (stop_at env (polls (world s))); simpl; [reflexivity |].
  rewrite IH. replace (S index + length pre)%nat with (index + S (length pre))%nat by lia.
  reflexivity.
Qed.

(** When none of the reads before the candidates finds the flag set, the
    loop runs to its end, after one read per candidate. *)
Lemma sync_loop_completes env task_id simsync evict src tgt cands :
  ∀ index s,
    (∀ k, (k < length cands)%nat → stop_at env (polls (world s) + k) = false) →
    let r := sync_loop env task_id simsync evict src tgt index cands s in
    r.1 = false ∧ polls (world r.2) = (polls (world s) + length cands)%nat.
Proof.
  induction cands as [| c cands IH]; intros index s H; simpl.
  { split; [reflexivity | lia]. }
  pose proof (H 0%nat ltac:(simpl; lia)) as H0. rewrite Nat.add_0_r in H0.
  rewrite H0; simpl.
  match goal with |- context [process_candidate ?e ?t ?a ?b ?x ?y ?i ?c ?s0] =>
    pose proof (process_candidate_polls e t a b x y i c s0) as Hp;
    pose proof (IH (S index) (process_candidate e t a b x y i c s0)) as IH' end.
  simpl in Hp. rewrite Hp in IH'.
  assert (Hk : ∀ k, (k < length cands)%nat → stop_at env (S (polls (world s)) + k) = false).
  { intros k Hk.
    replace (S (polls (world s)) + k)%nat with (polls (world s) + S k)%nat by lia.
    apply H. simpl; lia. }
  destruct (IH' Hk) as [I1 I2].
  split; [exact I1 |]. rewrite I2. lia.
Qed.

(** The retry pass with the real evictor: one invocation per recorded
    path, in order, one log record per invocation, and no read of the
    stop flag. *)
Lemma retry_loop_adds env task_id paths :
  ∀ s, let s' := retry_loop env task_id false paths s in
    ∃ calls,
      evict_log (world s') = evict_log (world s) ++ calls ∧
      map call_path calls = paths ∧
      Forall (λ c, is_second c = true) calls ∧
      evicted_count s' = (evicted_count s + length (List.filter succeeded calls))%nat ∧
      log (world s') = log (world s) ++ map retry_record calls ∧
      target_fs (world s') = target_fs (world s) ∧
      polls (world s') = polls (world s).
Proof.
  induction paths as [| tp paths IH]; intros s; simpl.
  { exists []. simpl. rewrite !app_nil_r. repeat split; auto. }
  destruct (IH (retry_candidate env task_id false tp s))
    as (calls & A1 & A2 & A3 & A4 & A5 & A6 & A7).
  unfold retry_candidate in *. simpl in *.
  match goal with |- context [cloudfile_evict ?e ?k ?p] =>
    exists (mk_call Second p (cloudfile_evict e k p) :: calls);
    destruct (cloudfile_evict e k p) eqn:E end;
    simpl in *; unfold succeeded, retry_record; simpl; rewrite ?E; simpl;
    rewrite A1, A4, A5, A6, A7, A2, <- ?app_assoc; simpl;
    repeat split; auto; try lia; constructor; auto.
Qed.

Lemma filter_keeps_all {A} (f : A → bool) (l : list A) :
  Forall (λ x, f x = true) l → List.filter f l = l.
Proof.
  induction 1 as [| x l Hx _ IH]; simpl; [reflexivity |]. rewrite Hx, IH. reflexivity.
Qed.

Lemma filter_drops_all {A} (f : A → bool) (l : list A) :
  Forall (λ x, f x = false) l → List.filter f l = [].
Proof.
  induction 1 as [| x l Hx _ IH]; simpl; [reflexivity |]. rewrite Hx, IH. reflexivity.
Qed.

Lemma first_is_not_second l :
  Forall (λ c, is_first c = true) l → Forall (λ c, is_second c = false) l.
Proof.
  intros H. eapply Forall_impl; [exact H |]. intros c. unfold is_first, is_second.
  destruct (call_attempt c); congruence.
Qed.

Lemma second_is_not_first l :
  Forall (λ c, is_second c = true) l → Forall (λ c, is_first c = false) l.
Proof.
  intros H. eapply Forall_impl; [exact H |]. intros c. unfold is_first, is_second.
  destruct (call_attempt c); congruence.
Qed.

(** A read of the stop flag that finds it set ends the main loop. *)
Lemma sync_loop_cancelled env task_id simsync evict src tgt cands :
  ∀ index s,
    (∃ k, (k < length cands)%nat ∧ stop_at env (polls (world s) + k) = true) →
    (sync_loop env task_id simsync evict src tgt index cands s).1 = true.
Proof.
  induction cands as [| c cands IH]; intros index s (k & Hk & Hset); cbn in Hk; [lia |].
  cbn [sync_loop poll].
  destruct (stop_at env (polls (world s))) eqn:H0; [reflexivity |].
  apply IH. rewrite process_candidate_polls. cbn.
  destruct k as [| k]; [rewrite Nat.add_0_r in Hset; congruence |].
  exists k. split; [lia |]. rewrite <- Nat.add_succ_r. exact Hset.
Qed.

(** C3, as stated, fails.  Two candidates, eviction enabled; the first
    is copied and counted, and the evictor times out on it; the stop
    flag is set from the second read on.  The function returns before
    the second candidate with (1, 0): the path recorded for a retry is
    never retried. *)
Lemma cancelled_run_does_not_retry :
  let fr := demo_frame true demo_cands in
  let r := sync_to_target_and_evict late_stop_env 1 false fr empty_world in
  stop_at late_stop_env 0 = false ∧ stop_at late_stop_env 1 = true ∧
  r.1 = Return (1, 0)%nat ∧
  target_fs r.2 !! (demo_target ++ ["a.txt"]) = Some (demo_last_run + 10)%Z ∧
  evict_log r.2 = [mk_call First (demo_target ++ ["a.txt"]) TimeoutExpired].
Proof. vm_compute. repeat split; reflexivity. Qed.

(** C3, amended.  With copying and eviction enabled and the real
    evictor: the evictor invocations of a run are first attempts followed
    by retries; every first attempt belongs to a copy that is counted,
    also when the attempt fails, and every counted copy has one; every
    success, first or second, adds one to evicted_count; every retry
    leaves its record in the log, an error record when it failed; nothing
    is invoked a third time.  In a run whose main loop is not cancelled
    the paths whose first attempt ended in a non-zero exit or a timeout
    are retried once each, in order, after all first attempts.  In a run
    whose main loop is cancelled nothing is retried. *)
Theorem failed_eviction_is_retried_once env task_id fr w cfg cands :
  run_copy fr = true → run_evict fr = true →
  taskConfigs fr !! slot (taskConfigs fr) task_id = Some cfg →
  taskFiles fr !! slot (taskFiles fr) task_id = Some cands →
  let r := sync_to_target_and_evict env task_id false fr w in
  let calls := new_calls w r.2 in
  let firsts := List.filter is_first calls in
  let retries := List.filter is_second calls in
  calls = firsts ++ retries ∧
  r.1 = Return (length firsts,
                (length (List.filter succeeded firsts)
                 + length (List.filter succeeded retries))%nat) ∧
  (∀ c, c ∈ retries → retry_record c ∈ log r.2) ∧
  ((∀ k, (k < length cands)%nat → stop_at env (polls w + k) = false) →
   map call_path retries = map call_path (List.filter retryable firsts)) ∧
  ((∃ k, (k < length cands)%nat ∧ stop_at env (polls w + k) = true) →
   retries = []).
Proof.
  intros Hcopy Hevict Hcfg Hfiles.
  unfold sync_to_target_and_evict, sync_body. rewrite Hcopy, Hcfg, Hfiles, Hevict.
  cbn [negb].
  pose proof (sync_loop_completes env task_id false true (source cfg) (target cfg) cands 1
                (mk_sync 0 0 [] w)) as Hdone.
  pose proof (sync_loop_cancelled env task_id false true (source cfg) (target cfg) cands 1
                (mk_sync 0 0 [] w)) as Hcut.
  destruct (sync_loop_adds env task_id false true (source cfg) (target cfg) cands 1
              (mk_sync 0 0 [] w))
    as (firsts & A1 & A2 & A3 & A4 & A5 & A6 & _).
  destruct (sync_loop _ _ _ _ _ _ _ _ _) as [returned s1].
  cbn [fst snd world copied_count evicted_count evict_retry] in *.
  specialize (A5 eq_refl). specialize (A6 eq_refl eq_refl). cbn in A4, A5, A6.
  destruct returned; cbv zeta; cbn [fst snd].
  - rewrite (new_calls_app _ _ _ A1).
    rewrite (filter_keeps_all _ _ A2), (filter_drops_all _ _ (first_is_not_second _ A2)).
    rewrite app_nil_r, A5, A6. cbn. rewrite Nat.add_0_r.
    repeat split.
    + intros c Hc. inversion Hc.
    + intros Hclear. destruct (Hdone Hclear) as [H _]. discriminate.
  - destruct (retry_loop_adds env task_id (evict_retry s1) s1)
      as (retries & B1 & B2 & B3 & B4 & B5 & _).
    cbn [world in_world].
    assert (E : evict_log (world (retry_loop env task_id false (evict_retry s1) s1))
                = evict_log w ++ firsts ++ retries)
      by (rewrite B1, A1, app_assoc; reflexivity).
    match goal with |- context [new_calls w ?wf] =>
      rewrite (new_calls_app w wf (firsts ++ retries) E) end.
    rewrite !List.filter_app.
    rewrite (filter_keeps_all _ _ A2), (filter_keeps_all _ _ B3).
    rewrite (filter_drops_all _ _ (first_is_not_second _ A2)).
    rewrite (filter_drops_all _ _ (second_is_not_first _ B3)).
    rewrite !app_nil_r. cbn [app].
    destruct (retry_loop_counts env task_id false (evict_retry s1) s1) as (C1 & _).
    cbn [copied_count evicted_count in_world log logging].
    rewrite C1, B4, A5, A6.
    repeat split.
    + intros c Hc. rewrite B5. apply elem_of_app. left. apply elem_of_app. right.
      apply list_elem_of_fmap. exists c. auto.
    + intros _. rewrite B2. exact A4.
    + intros Hset. specialize (Hcut Hset). discriminate.
Qed.

(** A run that is not cancelled: the evictor times out on [a.txt], which
    is counted as copied and retried once, with success, after the first
    attempt on [b.txt]. *)
Lemma failed_eviction_is_retried_once_witness :
  let r := sync_to_target_and_evict demo_env 1 false (demo_frame true demo_cands)
                                    empty_world in
  let calls := new_calls empty_world r.2 in
  calls = [mk_call First (demo_target ++ ["a.txt"]) TimeoutExpired;
           mk_call First (demo_target ++ ["sub"; "b.txt"]) Evict_ok;
           mk_call Second (demo_target ++ ["a.txt"]) Evict_ok] ∧
  r.1 = Return (2, 2)%nat ∧
  map call_path (List.filter is_second calls)
  = map call_path (List.filter retryable (List.filter is_first calls)) ∧
  Info_evicted_retry (demo_target ++ ["a.txt"]) ∈ log r.2.
Proof.
  destruct (failed_eviction_is_retried_once demo_env 1 (demo_frame true demo_cands)
              empty_world demo_task demo_cands eq_refl eq_refl eq_refl eq_refl)
    as (_ & _ & H3 & H4 & _).
  split; [vm_compute; reflexivity |]. split; [vm_compute; reflexivity |].
  split; [apply H4; intros; reflexivity |].
  apply (H3 (mk_call Second (demo_target ++ ["a.txt"]) Evict_ok)).
  vm_compute. apply list_elem_of_In. left. reflexivity.
Defined.

Example demo_sync_run :
  let r := sync_to_target_and_evict demo_env 1 false (demo_frame true demo_cands) empty_world in
  r.1 = Return (2, 2)%nat ∧
  evict_log r.2 =
    [mk_call First (demo_target ++ ["a.txt"]) TimeoutExpired;
     mk_call First (demo_target ++ ["sub"; "b.txt"]) Evict_ok;
     mk_call Second (demo_target ++ ["a.txt"]) Evict_ok].
Proof. vm_compute. split; reflexivity. Qed.

Lemma retry_loop_simulated env task_id paths :
  ∀ s, evict_log (world (retry_loop env task_id true paths s)) = evict_log (world s).
Proof.
  induction paths as [| tp paths IH]; intros s; simpl; [reflexivity |].
  rewrite IH. reflexivity.
Qed.

(** The invocations of a run, in any mode: first attempts, at most one
    per counted copy, then either nothing or one retry per failed first
    attempt. *)
Lemma sync_body_calls env task_id simsync evict src tgt cands w :
  let s := sync_body env task_id simsync evict src tgt cands w in
  ∃ firsts retries,
    evict_log (world s) = evict_log w ++ firsts ++ retries ∧
    Forall (λ c, is_first c = true) firsts ∧
    Forall (λ c, is_second c = true) retries ∧
    (length firsts ≤ copied_count s)%nat ∧
    (retries = [] ∨
     map call_path retries = map call_path (List.filter retryable firsts)) ∧
    (simsync = false →
       evicted_count s =
         (length (List.filter succeeded firsts) + length (List.filter succeeded retries))%nat).
Proof.
  unfold sync_body.
  destruct (sync_loop_adds env task_id simsync evict src tgt cands 1 (mk_sync 0 0 [] w))
    as (firsts & A1 & A2 & A3 & A4 & A5 & A6 & A7).
  destruct (sync_loop _ _ _ _ _ _ _ _ _) as [returned s1]. simpl in *.
  destruct returned.
  { exists firsts, []. rewrite app_nil_r. simpl.
    repeat split; auto; try constructor; try lia.
    intros H; rewrite (A5 H); lia. }
  destruct (retry_loop_counts env task_id simsync (evict_retry s1) s1) as (C1 & _).
  destruct simsync.
  - exists firsts, []. rewrite app_nil_r. simpl. rewrite retry_loop_simulated, C1.
    repeat split; auto; try constructor; try lia; discriminate.
  - destruct (retry_loop_adds env task_id (evict_retry s1) s1)
      as (retries & B1 & B2 & B3 & B4 & _).
    exists firsts, retries. simpl. rewrite C1.
    specialize (A5 eq_refl).
    repeat split; auto; try lia.
    + rewrite B1, A1, app_assoc. reflexivity.
    + right. rewrite B2. exact A4.
Qed.

Lemma new_calls_same w : new_calls w w = [].
Proof. unfold new_calls. apply drop_all. Qed.

(** C10.  Whatever the environment does, the pair returned by
    [sync_to_target_and_evict] has evicted_count <= copied_count.  The
    evictor invocations of the run are first attempts, at most one per
    counted copy, followed by nothing or by one retry for each first
    attempt that ended in a non-zero exit or a timeout; with the real
    evictor evicted_count is the number of successful invocations.  (When
    the function raises [IndexError] there is no pair.) *)
Theorem evicted_count_le_copied_count env task_id simsync fr w :
  match sync_to_target_and_evict env task_id simsync fr w with
  | (Return (copied, evicted), w') =>
      (evicted ≤ copied)%nat ∧
      let calls := new_calls w w' in
      let firsts := List.filter is_first calls in
      let retries := List.filter is_second calls in
      calls = firsts ++ retries ∧
      (length firsts ≤ copied)%nat ∧
      (retries = [] ∨
       map call_path retries = map call_path (List.filter retryable firsts)) ∧
      (simsync = false →
         evicted =
           (length (List.filter succeeded firsts)
            + length (List.filter succeeded retries))%nat)
  | (Raise _, _) => True
  end.
Proof.
  unfold sync_to_target_and_evict.
  destruct (negb (run_copy fr)); simpl.
  { rewrite new_calls_same. simpl. repeat split; auto. }
  destruct (taskConfigs fr !! _) as [cfg |]; simpl; [| exact I].
  destruct (taskFiles fr !! _) as [cands |]; simpl; [| exact I].
  split; [apply sync_body_evicted_le_copied |].
  destruct (sync_body_calls env task_id simsync (run_evict fr) (source cfg) (target cfg)
              cands w) as (firsts & retries & A1 & A2 & A3 & A4 & A5 & A6).
  rewrite (new_calls_app _ _ _ A1).
  rewrite !List.filter_app.
  rewrite (filter_keeps_all _ _ A2), (filter_keeps_all _ _ A3).
  rewrite (filter_drops_all _ _ (first_is_not_second _ A2)).
  rewrite (filter_drops_all _ _ (second_is_not_first _ A3)).
  rewrite !app_nil_r. simpl.
  repeat split; auto.
Qed.

(** ** Copy/evict pipeline: cancellation *)

Lemma retry_loop_polls env task_id simsync paths :
  ∀ s, polls (world (retry_loop env task_id simsync paths s)) = polls (world s).
Proof.
  induction paths as [| tp paths IH]; intros s; simpl; [reflexivity |].
  rewrite IH. unfold retry_candidate. destruct simsync; simpl; [reflexivity |].
  destruct (cloudfile_evict _ _ _); reflexivity.
Qed.

(** C5, as stated, fails.  One candidate, eviction enabled; the evictor
    times out on the first attempt; the stop flag is set from the second
    read on.  The function reads the flag once, before the candidate, and
    then retries the eviction without reading it again: the retry entry
    is processed although the flag is set. *)
Lemma retry_pass_does_not_poll :
  let fr := demo_frame true [(demo_source ++ ["a.txt"], demo_last_run + 10)] in
  let r := sync_to_target_and_evict late_stop_env 1 false fr empty_world in
  (∀ k, (1 ≤ k)%nat → stop_at late_stop_env k = true) ∧
  polls r.2 = 1%nat ∧
  evict_log r.2 =
    [mk_call First (demo_target ++ ["a.txt"]) TimeoutExpired;
     mk_call Second (demo_target ++ ["a.txt"]) Evict_ok] ∧
  r.1 = Return (1, 1)%nat.
Proof.
  split.
  - intros k Hk. simpl. destruct k; [lia | reflexivity].
  - vm_compute. repeat split; reflexivity.
Qed.

(** C5, amended.  The flag is read once before each candidate of the main
    loop and nowhere else: neither the body of the loop nor the retry
    pass reads it.  A run in which no read finds the flag set makes one
    read per candidate.  When the read before a candidate finds the flag
    set, after clear reads before the candidates [pre] that precede it,
    the function returns at once with the counts accumulated over [pre]:
    it has made one read per candidate of [pre] and this one, the target
    tree and the evictor record are as the loop over [pre] left them, and
    the paths recorded for a retry are not retried.  With the real
    evictor the retry pass invokes the evictor for every recorded path,
    whatever the flag. *)
Theorem stop_is_polled_before_candidates_only :
  (∀ env task_id simsync evict src tgt index c s,
     polls (world (process_candidate env task_id simsync evict src tgt index c s))
     = polls (world s)) ∧
  (∀ env task_id simsync paths s,
     let s' := retry_loop env task_id simsync paths s in
     polls (world s') = polls (world s) ∧
     (simsync = false → map call_path (new_calls (world s) (world s')) = paths)) ∧
  (∀ env task_id simsync fr w cfg cands,
     run_copy fr = true →
     taskConfigs fr !! slot (taskConfigs fr) task_id = Some cfg →
     taskFiles fr !! slot (taskFiles fr) task_id = Some cands →
     (∀ j, (j < length cands)%nat → stop_at env (polls w + j) = false) →
     polls (sync_to_target_and_evict env task_id simsync fr w).2
     = (polls w + length cands)%nat) ∧
  (∀ env task_id simsync fr w cfg pre c post,
     run_copy fr = true →
     taskConfigs fr !! slot (taskConfigs fr) task_id = Some cfg →
     taskFiles fr !! slot (taskFiles fr) task_id = Some (pre ++ c :: post) →
     (∀ j, (j < length pre)%nat → stop_at env (polls w + j) = false) →
     stop_at env (polls w + length pre) = true →
     let r1 := sync_loop env task_id simsync (run_evict fr) (source cfg) (target cfg)
                         1 pre (mk_sync 0 0 [] w) in
     r1.1 = false ∧
     polls (world r1.2) = (polls w + length pre)%nat ∧
     ∃ w',
       sync_to_target_and_evict env task_id simsync fr w
       = (Return (copied_count r1.2, evicted_count r1.2), w') ∧
       target_fs w' = target_fs (world r1.2) ∧
       evict_log w' = evict_log (world r1.2) ∧
       polls w' = (polls w + length pre + 1)%nat ∧
       log w' = log (world r1.2)
                ++ [Info_sync_cancelled (copied_count r1.2) (evicted_count r1.2)]).
Proof.
  split; [| split; [| split]].
  - intros. apply process_candidate_polls.
  - intros env task_id simsync paths s s'. split; [apply retry_loop_polls |].
    intros ->. subst s'.
    destruct (retry_loop_adds env task_id paths s) as (calls & A1 & A2 & _).
    rewrite (new_calls_app _ _ _ A1). exact A2.
  - intros env task_id simsync fr w cfg cands Hcopy Hcfg Hfiles Hstop.
    unfold sync_to_target_and_evict, sync_body.
    rewrite Hcopy, Hcfg, Hfiles. cbn [negb].
    destruct (sync_loop_completes env task_id simsync (run_evict fr) (source cfg)
                (target cfg) cands 1 (mk_sync 0 0 [] w) Hstop) as [Hret Hpolls].
    destruct (sync_loop _ _ _ _ _ _ _ _ _) as [returned s1].
    cbn [fst snd world] in *. subst returned. cbn.
    rewrite retry_loop_polls. exact Hpolls.
  - intros env task_id simsync fr w cfg pre c post Hcopy Hcfg Hfiles Hclear Hset r1.
    destruct (sync_loop_completes env task_id simsync (run_evict fr) (source cfg)
                (target cfg) pre 1 (mk_sync 0 0 [] w) Hclear) as [Hret Hpolls].
    fold r1 in Hret, Hpolls. cbn [world] in Hpolls.
    split; [exact Hret |]. split; [exact Hpolls |].
    unfold sync_to_target_and_evict, sync_body.
    rewrite Hcopy, Hcfg, Hfiles. cbn [negb].
    rewrite sync_loop_app. fold r1.
    destruct r1 as [returned s1]. cbn [fst snd] in *. subst returned.
    cbn [sync_loop poll]. rewrite Hpolls, Hset.
    eexists. split; [reflexivity |]. cbn.
    repeat split; lia.
Qed.

(** ** Copy/evict pipeline: the copy decision *)

Lemma needs_copy_false w tp m :
  needs_copy w tp m = false ↔ ∃ t, target_fs w !! tp = Some t ∧ (m ≤ t)%Z.
Proof.
  unfold needs_copy. destruct (target_fs w !! tp) as [t |].
  - split.
    + intros H. exists t. split; [reflexivity |]. apply Z.ltb_ge. exact H.
    + intros (t' & [= <-] & H). apply Z.ltb_ge. exact H.
  - split; [discriminate |]. intros (t & H & _). discriminate.
Qed.

Lemma evict_first_target_fs env simsync sp tp s :
  target_fs (world (evict_first env simsync sp tp s)) = target_fs (world s) ∧
  copied_count (evict_first env simsync sp tp s) = copied_count s.
Proof.
  unfold evict_first. destruct simsync; simpl; [auto |].
  destruct (cloudfile_evict _ _ _); simpl; auto.
Qed.

(** One candidate, real file operations, [makedirs] and [copy2] not
    raising: the counter and the target tree change exactly when the
    target is missing or older than the candidate. *)
Lemma process_candidate_copies env task_id evict src tgt index sp m s :
  let tp := join tgt (relpath sp src) in
  let s' := process_candidate env task_id false evict src tgt index (sp, m) s in
  makedirs_raises env index (dirname tp) = false →
  copy2_raises env index sp tp = false →
  if needs_copy (world s) tp m
  then copied_count s' = S (copied_count s) ∧
       target_fs (world s') = <[tp := source_mtime env sp]> (target_fs (world s))
  else copied_count s' = copied_count s ∧
       target_fs (world s') = target_fs (world s).
Proof.
  intros tp s' Hmk Hcp. subst s'. unfold process_candidate. fold tp.
  rewrite Hmk, Hcp. cbv beta iota zeta delta [negb andb].
  replace (needs_copy (world (in_world (CallAfter (Gauge_SetValue task_id index)) s)) tp m)
    with (needs_copy (world s) tp m) by reflexivity.
  destruct (needs_copy (world s) tp m); [| split; reflexivity].
  destruct evict; [| split; reflexivity].
  match goal with |- context [evict_first ?e ?b ?x ?y ?s0] =>
    destruct (evict_first_target_fs e b x y s0) as [H1 H2]; rewrite H1, H2 end.
  split; reflexivity.
Qed.

(** A candidate whose target is up to date changes neither the counters
    nor the target tree, whatever the environment does. *)
Lemma process_candidate_up_to_date env task_id simsync evict src tgt index c s :
  up_to_date (target_fs (world s)) src tgt c →
  let s' := process_candidate env task_id simsync evict src tgt index c s in
  copied_count s' = copied_count s ∧ evicted_count s' = evicted_count s ∧
  evict_retry s' = evict_retry s ∧ target_fs (world s') = target_fs (world s) ∧
  evict_log (world s') = evict_log (world s).
Proof.
  destruct c as [sp m]. intros Hup. unfold process_candidate.
  destruct (negb simsync && makedirs_raises _ _ _); [repeat split |].
  match goal with |- context [needs_copy ?w ?p ?t] =>
    assert (Hn : needs_copy w p t = false) end.
  { apply needs_copy_false. destruct simsync; exact Hup. }
  rewrite Hn. destruct simsync; repeat split.
Qed.

Lemma sync_loop_up_to_date env task_id simsync evict src tgt cands :
  ∀ index s,
    Forall (up_to_date (target_fs (world s)) src tgt) cands →
    let s' := (sync_loop env task_id simsync evict src tgt index cands s).2 in
    copied_count s' = copied_count s ∧ evicted_count s' = evicted_count s ∧
    evict_retry s' = evict_retry s ∧ target_fs (world s') = target_fs (world s) ∧
    evict_log (world s') = evict_log (world s).
Proof.
  induction cands as [| c cands IH]; intros index s Hall; simpl; [repeat split |].
  destruct (stop_at env (polls (world s))); simpl; [repeat split |].
  inversion Hall as [| ? ? Hc Hcs]; subst.
  match goal with |- context [process_candidate ?e ?t ?a ?b ?x ?y ?i ?c ?s0] =>
    destruct (process_candidate_up_to_date e t a b x y i c s0 Hc) as (A1 & A2 & A3 & A4 & A5);
    destruct (IH (S index) (process_candidate e t a b x y i c s0)) as (B1 & B2 & B3 & B4 & B5) end.
  { rewrite A4. exact Hcs. }
  simpl in *. repeat split; congruence.
Qed.

Lemma process_candidate_target_fs env task_id simsync evict src tgt index sp m s :
  let tp := join tgt (relpath sp src) in
  let s' := process_candidate env task_id simsync evict src tgt index (sp, m) s in
  target_fs (world s') = target_fs (world s) ∨
  (needs_copy (world s) tp m = true ∧
   target_fs (world s') = <[tp := source_mtime env sp]> (target_fs (world s))).
Proof.
  intros tp s'. subst s'. unfold process_candidate. fold tp.
  destruct (negb simsync && makedirs_raises _ _ _); [left; reflexivity |].
  match goal with |- context [if needs_copy ?w ?p ?t then _ else _] =>
    replace (needs_copy w p t) with (needs_copy (world s) tp m)
      by (destruct simsync; reflexivity) end.
  destruct (needs_copy (world s) tp m); [| left; destruct simsync; reflexivity].
  destruct (negb simsync && copy2_raises _ _ _ _); [left; destruct simsync; reflexivity |].
  destruct evict.
  - match goal with |- context [evict_first ?e ?b ?x ?y ?s0] =>
      destruct (evict_first_target_fs e b x y s0) as [H1 _]; rewrite H1 end.
    destruct simsync; [left | right]; auto.
  - destruct simsync; [left | right]; auto.
Qed.

(** Copies only ever raise the modification time of a target, as long as
    the source is not older than the scan saw it. *)
Lemma process_candidate_keeps_up_to_date env task_id simsync evict src tgt index sp m s c' :
  (m ≤ source_mtime env sp)%Z →
  up_to_date (target_fs (world s)) src tgt c' →
  up_to_date
    (target_fs (world (process_candidate env task_id simsync evict src tgt index (sp, m) s)))
    src tgt c'.
Proof.
  intros Hm (t & Ht & Hle).
  destruct (process_candidate_target_fs env task_id simsync evict src tgt index sp m s)
    as [-> | [Hn ->]].
  { exists t. auto. }
  unfold up_to_date.
  destruct (decide (join tgt (relpath sp src) = join tgt (relpath c'.1 src))) as [E | E].
  - rewrite <- E, lookup_insert_eq. eexists. split; [reflexivity |].
    unfold needs_copy in Hn. rewrite E, Ht in Hn. apply Z.ltb_lt in Hn. lia.
  - rewrite lookup_insert_ne by exact E. exists t. auto.
Qed.

Lemma process_candidate_makes_up_to_date env task_id evict src tgt index sp m s :
  makedirs_raises env index (dirname (join tgt (relpath sp src))) = false →
  copy2_raises env index sp (join tgt (relpath sp src)) = false →
  (m ≤ source_mtime env sp)%Z →
  up_to_date
    (target_fs (world (process_candidate env task_id false evict src tgt index (sp, m) s)))
    src tgt (sp, m).
Proof.
  intros Hmk Hcp Hm.
  pose proof (process_candidate_copies env task_id evict src tgt index sp m s Hmk Hcp) as H.
  cbv zeta in H.
  destruct (needs_copy (world s) (join tgt (relpath sp src)) m) eqn:Hn.
  - destruct H as [_ ->]. unfold up_to_date. cbn [fst snd].
    rewrite lookup_insert_eq. eexists; split; [reflexivity | exact Hm].
  - destruct H as [_ ->]. apply needs_copy_false in Hn. exact Hn.
Qed.

#[local] Arguments process_candidate : simpl never.

(** After a complete pass in which nothing raises, every candidate has an
    up-to-date target. *)
Lemma sync_loop_makes_up_to_date env task_id evict src tgt cands :
  (∀ i p, makedirs_raises env i p = false) →
  (∀ i p q, copy2_raises env i p q = false) →
  (∀ sp m, (sp, m) ∈ cands → (m ≤ source_mtime env sp)%Z) →
  ∀ index s finished,
    (∀ k, (k < length cands)%nat → stop_at env (polls (world s) + k) = false) →
    Forall (up_to_date (target_fs (world s)) src tgt) finished →
    Forall (up_to_date
              (target_fs (world (sync_loop env task_id false evict src tgt index cands s).2))
              src tgt)
           (finished ++ cands).
Proof.
  intros Hmk Hcp.
  induction cands as [| [sp m] cands IH]; intros Hm index s finished Hstop Hfin; simpl.
  { rewrite app_nil_r. exact Hfin. }
  pose proof (Hstop 0%nat ltac:(simpl; lia)) as H0. rewrite Nat.add_0_r in H0.
  rewrite H0; simpl.
  rewrite cons_middle, app_assoc.
  assert (Hsp : (m ≤ source_mtime env sp)%Z) by (apply Hm; left).
  apply IH.
  - intros sp' m' Hin. apply Hm. right. exact Hin.
  - intros k Hk. rewrite process_candidate_polls. simpl.
    rewrite <- Nat.add_succ_r. apply Hstop. simpl; lia.
  - apply Forall_app. split.
    + eapply Forall_impl; [exact Hfin |]. intros c' Hc'.
      apply process_candidate_keeps_up_to_date; [exact Hsp | exact Hc'].
    + constructor; [| constructor].
      apply process_candidate_makes_up_to_date; auto.
Qed.

Lemma sync_body_target_fs env task_id evict src tgt cands w :
  target_fs (world (sync_body env task_id false evict src tgt cands w)) =
  target_fs (world (sync_loop env task_id false evict src tgt 1 cands (mk_sync 0 0 [] w)).2).
Proof.
  unfold sync_body.
  destruct (sync_loop _ _ _ _ _ _ _ _ _) as [returned s1]. simpl.
  destruct returned; [reflexivity |]. simpl.
  destruct (retry_loop_adds env task_id (evict_retry s1) s1) as (calls & _ & _ & _ & _ & _ & H & _).
  exact H.
Qed.

Lemma sync_body_up_to_date env task_id simsync evict src tgt cands w :
  Forall (up_to_date (target_fs w) src tgt) cands →
  let s := sync_body env task_id simsync evict src tgt cands w in
  copied_count s = 0%nat ∧ evicted_count s = 0%nat ∧ target_fs (world s) = target_fs w ∧
  evict_log (world s) = evict_log w.
Proof.
  intros Hall. unfold sync_body.
  destruct (sync_loop_up_to_date env task_id simsync evict src tgt cands 1
              (mk_sync 0 0 [] w) Hall) as (A1 & A2 & A3 & A4 & A5).
  destruct (sync_loop _ _ _ _ _ _ _ _ _) as [returned s1]. simpl in *.
  destruct returned; [repeat split; assumption |].
  rewrite A3. simpl. repeat split; assumption.
Qed.

(** C2, amended.  (1) A candidate that the loop processes with the real file
    operations is copied to its re-rooted target path (the counter goes
    up by one and the target takes the source's modification time) when
    the target is missing or strictly older than the candidate and
    neither [makedirs] nor [copy2] raises; when the target exists and is
    not older, neither the counter nor the target tree changes; and when
    [makedirs] or [copy2] raises for the candidate, the copy is not
    counted and the evictor is not invoked.
    (2) After a run in which [makedirs] and [copy2] did not raise and
    which was not cancelled, over candidates whose source has not gone
    back in time since the scan, a second run over the same list and the
    resulting target tree returns (0, 0) and leaves the target tree as
    it is, whatever the environment of the second run. *)
Theorem copy_iff_target_missing_or_older :
  (∀ env task_id evict src tgt index sp m s,
     let tp := join tgt (relpath sp src) in
     let s' := process_candidate env task_id false evict src tgt index (sp, m) s in
     let outdated :=
       target_fs (world s) !! tp = None ∨
       ∃ t, target_fs (world s) !! tp = Some t ∧ (t < m)%Z in
     (outdated →
        makedirs_raises env index (dirname tp) = false →
        copy2_raises env index sp tp = false →
        copied_count s' = S (copied_count s) ∧
        target_fs (world s') = <[tp := source_mtime env sp]> (target_fs (world s))) ∧
     (¬ outdated →
        copied_count s' = copied_count s ∧
        target_fs (world s') = target_fs (world s)) ∧
     (makedirs_raises env index (dirname tp) = true ∨ copy2_raises env index sp tp = true →
        copied_count s' = copied_count s ∧
        evicted_count s' = evicted_count s ∧
        evict_log (world s') = evict_log (world s))) ∧
  (∀ env task_id fr w cfg cands,
     run_copy fr = true →
     taskConfigs fr !! slot (taskConfigs fr) task_id = Some cfg →
     taskFiles fr !! slot (taskFiles fr) task_id = Some cands →
     (∀ i p, makedirs_raises env i p = false) →
     (∀ i p q, copy2_raises env i p q = false) →
     (∀ k, (k < length cands)%nat → stop_at env (polls w + k) = false) →
     (∀ sp m, (sp, m) ∈ cands → (m ≤ source_mtime env sp)%Z) →
     ∀ env2 simsync2 w2,
       target_fs w2 = target_fs (sync_to_target_and_evict env task_id false fr w).2 →
       ∃ w3,
         sync_to_target_and_evict env2 task_id simsync2 fr w2 = (Return (0, 0)%nat, w3) ∧
         target_fs w3 = target_fs w2).
Proof.
  split.
  - intros env task_id evict src tgt index sp m s tp s' outdated. split; [| split].
    3: { intros Hraise. subst s'. unfold process_candidate. fold tp.
         cbv beta iota zeta delta [negb andb].
         destruct (makedirs_raises env index (dirname tp)); [repeat split |].
         destruct Hraise as [Hmk | Hcp]; [discriminate |].
         match goal with |- context [if needs_copy ?a ?b ?c then _ else _] =>
           destruct (needs_copy a b c) end; [| repeat split].
         rewrite Hcp. repeat split. }
    + intros Hout Hmk Hcp.
      pose proof (process_candidate_copies env task_id evict src tgt index sp m s Hmk Hcp)
        as H.
      cbv zeta in H. fold tp s' in H.
      assert (Hn : needs_copy (world s) tp m = true).
      { unfold needs_copy. destruct Hout as [-> | (t & -> & Hlt)]; [reflexivity |].
        apply Z.ltb_lt. exact Hlt. }
      rewrite Hn in H. exact H.
    + intros Hnot.
      assert (Hup : up_to_date (target_fs (world s)) src tgt (sp, m)).
      { unfold up_to_date. cbn [fst snd]. fold tp.
        destruct (target_fs (world s) !! tp) as [t |] eqn:E.
        - exists t. split; [reflexivity |].
          destruct (Z.lt_ge_cases t m) as [Hlt | Hge]; [| exact Hge].
          exfalso. apply Hnot. right. exists t. auto.
        - exfalso. apply Hnot. left. reflexivity. }
      destruct (process_candidate_up_to_date env task_id false evict src tgt index
                  (sp, m) s Hup) as (A1 & _ & _ & A4 & _).
      split; assumption.
  - intros env task_id fr w cfg cands Hcopy Hcfg Hfiles Hmk Hcp Hstop Hm env2 simsync2 w2 Hfs.
    unfold sync_to_target_and_evict in *.
    rewrite Hcopy, Hcfg, Hfiles in *. simpl in *.
    rewrite sync_body_target_fs in Hfs.
    pose proof (sync_loop_makes_up_to_date env task_id (run_evict fr) (source cfg)
                  (target cfg) cands Hmk Hcp Hm 1%nat (mk_sync 0 0 [] w) [] Hstop
                  ltac:(constructor)) as Hup.
    simpl in Hup. rewrite <- Hfs in Hup.
    destruct (sync_body_up_to_date env2 task_id simsync2 (run_evict fr) (source cfg)
                (target cfg) cands w2 Hup) as (A1 & A2 & A3 & _).
    eexists. rewrite A1, A2. split; [reflexivity | exact A3].
Qed.

(** C2, as stated, fails.  (1) The scan saw [a.txt] with a modification
    time 10 s after the watermark; when it is copied the file is older
    (replaced by an earlier version in between), and [copy2] gives the
    target the time of the source: the target stays strictly older than
    the candidate, and every re-run over the same list and the unchanged
    target tree copies the file again.  (2) The first run is cancelled
    before its second candidate; the re-run copies that candidate. *)
Lemma rerun_copies_again :
  let fr := demo_frame false demo_cands in
  let r1 := sync_to_target_and_evict older_source_env 1 false fr empty_world in
  let r2 := sync_to_target_and_evict older_source_env 1 false fr r1.2 in
  let c1 := sync_to_target_and_evict late_stop_env 1 false fr empty_world in
  let c2 := sync_to_target_and_evict demo_env 1 false fr c1.2 in
  (r1.1 = Return (2, 0)%nat ∧ r2.1 = Return (1, 0)%nat ∧
   target_fs r1.2 !! (demo_target ++ ["a.txt"]) = Some (demo_last_run + 5)%Z ∧
   target_fs r2.2 !! (demo_target ++ ["a.txt"]) = Some (demo_last_run + 5)%Z) ∧
  (c1.1 = Return (1, 0)%nat ∧ c2.1 = Return (1, 0)%nat ∧
   target_fs c1.2 !! (demo_target ++ ["sub"; "b.txt"]) = None ∧
   target_fs c2.2 !! (demo_target ++ ["sub"; "b.txt"]) = Some (demo_last_run + 10)%Z).
Proof. vm_compute. repeat split; reflexivity. Qed.

Lemma copy_iff_target_missing_or_older_witness :
  let fr := demo_frame true demo_cands in
  let r1 := sync_to_target_and_evict demo_env 1 false fr empty_world in
  r1.1 = Return (2, 2)%nat ∧
  ∃ w3,
    sync_to_target_and_evict demo_env 1 false fr r1.2 = (Return (0, 0)%nat, w3) ∧
    target_fs w3 = target_fs r1.2.
Proof.
  split; [vm_compute; reflexivity |].
  apply (proj2 copy_iff_target_missing_or_older demo_env 1%nat
           (demo_frame true demo_cands) empty_world demo_task demo_cands);
    try reflexivity.
  intros sp m Hin. apply list_elem_of_In in Hin. simpl in Hin.
  destruct Hin as [[= <- <-] | [[= <- <-] | []]]; simpl; lia.
Defined.

Lemma stop_is_polled_before_candidates_only_witness :
  let fr := demo_frame true demo_cands in
  let r := sync_to_target_and_evict late_stop_env 1 false fr empty_world in
  r.1 = Return (1, 0)%nat ∧ polls r.2 = 2%nat ∧
  evict_log r.2 = [mk_call First (demo_target ++ ["a.txt"]) TimeoutExpired].
Proof.
  destruct (proj2 (proj2 (proj2 stop_is_polled_before_candidates_only))
              late_stop_env 1%nat false
              (demo_frame true demo_cands) empty_world demo_task
              [(demo_source ++ ["a.txt"], demo_last_run + 10)]
              (demo_source ++ ["sub"; "b.txt"], demo_last_run - 5) []
              eq_refl eq_refl eq_refl)
    as (_ & _ & w' & H1 & _ & H3 & H4 & _).
  - intros j Hj. cbn in Hj. replace j with 0%nat by lia. reflexivity.
  - reflexivity.
  - cbv zeta. rewrite H1. cbn [fst snd]. rewrite H3, H4.
    repeat split; vm_compute; reflexivity.
Defined.

(** ** Tree scanner *)

Section Walk.
Variables (env : Env) (task_id : nat) (ignore_config : list ignore_rule) (last_run : Z).

Local Abbreviation walk := (walk_entries env task_id ignore_config last_run).
Local Abbreviation tree := (walktree env task_id ignore_config last_run).

Lemma walk_nil topdir st : walk topdir [] st = (true, st).
Proof. reflexivity. Qed.

Lemma walk_stopped topdir e es st :
  stop_at env (polls st.2) = true →
  walk topdir (e :: es) st = (false, (st.1, (poll env st.2).2)).
Proof. intros H. unfold walk_entries; simpl. rewrite H. reflexivity. Qed.

Lemma walk_reg topdir f mc es st :
  stop_at env (polls st.2) = false →
  should_ignore ignore_config f = false →
  walk topdir (Reg f (Some mc) :: es) st
  = walk topdir es (file_to_sync last_run (topdir ++ [f]) mc (entered env task_id st)).
Proof. intros H Hi. unfold walk_entries; simpl. rewrite H, Hi. reflexivity. Qed.

Lemma walk_reg_stat_fails topdir f es st :
  stop_at env (polls st.2) = false →
  should_ignore ignore_config f = false →
  walk topdir (Reg f None :: es) st = walktree_except topdir (entered env task_id st).
Proof. intros H Hi. unfold walk_entries; simpl. rewrite H, Hi. reflexivity. Qed.

Lemma walk_reg_ignored topdir f stats es st :
  stop_at env (polls st.2) = false →
  should_ignore ignore_config f = true →
  walk topdir (Reg f stats :: es) st = walk topdir es (entered env task_id st).
Proof. intros H Hi. unfold walk_entries; simpl. rewrite H, Hi. reflexivity. Qed.

Lemma walk_dir topdir f ls es st :
  stop_at env (polls st.2) = false →
  should_ignore ignore_config f = false →
  walk topdir (Dir f ls :: es) st
  = let r := tree (topdir ++ [f]) ls (entered env task_id st) in
    if r.1 then walk topdir es r.2 else (false, r.2).
Proof.
  intros H Hi. unfold walk_entries; simpl. rewrite H, Hi.
  unfold entered; simpl. destruct (walktree _ _ _ _ _ _ _) as [ok st']. reflexivity.
Qed.

Lemma walk_dir_ignored topdir f ls es st :
  stop_at env (polls st.2) = false →
  should_ignore ignore_config f = true →
  walk topdir (Dir f ls :: es) st = walk topdir es (entered env task_id st).
Proof. intros H Hi. unfold walk_entries; simpl. rewrite H, Hi. reflexivity. Qed.

Lemma walk_other topdir f es st :
  stop_at env (polls st.2) = false →
  walk topdir (Other f :: es) st
  = walk topdir es ((entered env task_id st).1,
                    logging (Warn_skipping (topdir ++ [f])) (entered env task_id st).2).
Proof. intros H. unfold walk_entries; simpl. rewrite H. reflexivity. Qed.

Lemma walk_broken topdir f es st :
  stop_at env (polls st.2) = false →
  walk topdir (Broken f :: es) st = walktree_except topdir (entered env task_id st).
Proof. intros H. unfold walk_entries; simpl. rewrite H. reflexivity. Qed.

End Walk.

(** Induction over a directory tree. *)
Lemma listing_ind (P : listing → Prop) (Q : entry → Prop) :
  P Unreadable →
  (∀ es, Forall Q es → P (Entries es)) →
  (∀ f stats, Q (Reg f stats)) →
  (∀ f ls, P ls → Q (Dir f ls)) →
  (∀ f, Q (Other f)) →
  (∀ f, Q (Broken f)) →
  ∀ ls, P ls.
Proof.
  intros HU HE HR HD HO HB.
  fix IHl 1. intros ls. destruct ls as [| es].
  - exact HU.
  - apply HE. revert es. fix IHes 1. intros es. destruct es as [| e es].
    + constructor.
    + constructor; [| apply IHes].
      destruct e as [f stats | f ls | f | f].
      * apply HR.
      * apply HD. apply IHl.
      * apply HO.
      * apply HB.
Qed.

Lemma reads_ok_done env st : reads_ok env (polls st.2) (true, st).
Proof. unfold reads_ok; simpl. repeat split; intros; try lia; discriminate. Qed.

Lemma reads_ok_step env p0 r :
  stop_at env p0 = false → reads_ok env (S p0) r → reads_ok env p0 r.
Proof.
  intros H0 (A1 & A2 & A3). unfold reads_ok. repeat split.
  - lia.
  - intros k Hk. destruct (decide (k = p0)) as [-> | Hne]; [exact H0 |]. apply A2. lia.
  - apply A3 in H. lia.
  - apply A3. exact H.
Qed.

Lemma reads_ok_then env p0 r1 r2 :
  reads_ok env p0 r1 → r1.1 = true → reads_ok env (polls r1.2.2) r2 → reads_ok env p0 r2.
Proof.
  intros (A1 & A2 & A3) Ht (B1 & B2 & B3). rewrite Ht in A2. unfold reads_ok. repeat split.
  - lia.
  - intros k Hk. destruct (decide (k < polls r1.2.2)%nat) as [Hlt | Hge].
    + apply A2. lia.
    + apply B2. lia.
  - apply B3 in H. lia.
  - apply B3. exact H.
Qed.

Lemma reads_ok_except env topdir st :
  reads_ok env (polls st.2) (walktree_except topdir st).
Proof. exact (reads_ok_done env (st.1, logging (Err_accessing topdir) st.2)). Qed.

Section Reads.
Variables (env : Env) (task_id : nat) (ignore_config : list ignore_rule) (last_run : Z).

Lemma file_to_sync_polls p mc st :
  polls (file_to_sync last_run p mc st).2 = polls st.2.
Proof.
  unfold file_to_sync. destruct mc as [mt ct].
  destruct (_ || _); reflexivity.
Qed.

Lemma walktree_reads ls :
  ∀ topdir st,
    reads_ok env (polls st.2) (walktree env task_id ignore_config last_run topdir ls st).
Proof.
  induction ls as [| es IH | | | |] using listing_ind
    with (Q := λ e, match e with
                    | Dir _ ls => ∀ topdir st,
                        reads_ok env (polls st.2)
                          (walktree env task_id ignore_config last_run topdir ls st)
                    | _ => True
                    end); try exact I; try assumption.
  - intros topdir st. apply reads_ok_except.
  - intros topdir.
    cut (∀ st, reads_ok env (polls st.2)
                 (walk_entries env task_id ignore_config last_run topdir es st));
      [intros H st; exact (H st) |].
    induction IH as [| e es He Hes IHes]; intros st.
    { rewrite walk_nil. apply reads_ok_done. }
    destruct (stop_at env (polls st.2)) eqn:Hstop.
    { rewrite walk_stopped by exact Hstop. unfold reads_ok; simpl.
      rewrite Nat.sub_0_r. repeat split; intros; try lia. exact Hstop. }
    apply reads_ok_step; [exact Hstop |].
    change (S (polls st.2)) with (polls (entered env task_id st).2).
    destruct e as [f stats | f ls | f | f].
    + destruct (should_ignore ignore_config f) eqn:Hi.
      * rewrite walk_reg_ignored by assumption. apply IHes.
      * destruct stats as [mc |].
        -- rewrite walk_reg by assumption.
           rewrite <- (file_to_sync_polls (topdir ++ [f]) mc). apply IHes.
        -- rewrite walk_reg_stat_fails by assumption. apply reads_ok_except.
    + destruct (should_ignore ignore_config f) eqn:Hi.
      * rewrite walk_dir_ignored by assumption. apply IHes.
      * rewrite walk_dir by assumption.
        specialize (He (topdir ++ [f]) (entered env task_id st)).
        destruct (walktree _ _ _ _ _ _ _) as [ok st'] eqn:E. simpl.
        destruct ok; [| exact He].
        eapply reads_ok_then; [exact He | reflexivity | apply IHes].
    + rewrite walk_other by assumption.
      apply (IHes ((entered env task_id st).1,
                   logging (Warn_skipping (topdir ++ [f])) (entered env task_id st).2)).
    + rewrite walk_broken by assumption. apply reads_ok_except.
Qed.

End Reads.

Lemma slot_insert {A} (l : list A) i x task_id :
  slot (<[i := x]> l) task_id = slot l task_id.
Proof. unfold slot. rewrite length_insert. reflexivity. Qed.

Lemma task_files_stored task_id fr fr0 files files0 old :
  taskFiles fr !! slot (taskFiles fr) task_id = Some old →
  task_files task_id
    (with_taskFiles
       (<[slot (taskFiles fr) task_id := files]>
          (<[slot (taskFiles fr) task_id := files0]> (taskFiles fr))) fr0)
  = Some files.
Proof.
  intros H. unfold task_files; simpl.
  rewrite list_insert_insert_eq, slot_insert.
  apply list_lookup_insert_eq. eapply lookup_lt_Some. exact H.
Qed.

(** C8.  A scan during which a read of the stop flag finds it set returns
    0, leaves the task's candidate list empty and ends the log with the
    record "Scan cancelled by user"; a scan whose reads all find the flag
    clear and which returns n leaves n candidates in the list and ends
    the log with the record "Found n files ...", a different record even
    when n is 0. *)
Theorem cancelled_scan_keeps_no_candidates env task_id fr w :
  let r := scan_source_for_sync env task_id fr w in
  let fr' := r.1.2 in
  let w' := r.2 in
  ((∃ k, (polls w ≤ k < polls w')%nat ∧ stop_at env k = true) →
     r.1.1 = Return 0%nat ∧
     task_files task_id fr' = Some [] ∧
     last (log w') = Some Info_scan_cancelled) ∧
  ((∀ k, (polls w ≤ k < polls w')%nat → stop_at env k = false) →
     ∀ n, r.1.1 = Return n →
       ∃ files source_dir since,
         task_files task_id fr' = Some files ∧ length files = n ∧
         last (log w') = Some (Info_found n source_dir since) ∧
         Info_found n source_dir since ≠ Info_scan_cancelled).
Proof.
  unfold scan_source_for_sync.
  destruct (taskFiles fr !! slot (taskFiles fr) task_id) as [old |] eqn:Hold; simpl.
  2: { split; [intros (k & Hk & _); lia | discriminate]. }
  destruct (taskConfigs fr !! slot (taskConfigs fr) task_id) as [cfg |]; simpl.
  2: { split; [intros (k & Hk & _); lia | discriminate]. }
  destruct (synced cfg) as [since |]; simpl.
  2: { split; [intros (k & Hk & _); lia | discriminate]. }
  destruct (strptime since) as [time_tuple |]; simpl.
  2: { split; [intros (k & Hk & _); lia | discriminate]. }
  pose proof (walktree_reads env task_id (default [] (ignore cfg)) (mktime env time_tuple)
                (source_tree env (source cfg)) (source cfg) ([], w)) as Hr.
  destruct (walktree _ _ _ _ _ _ _) as [completed [files w1]].
  destruct Hr as (R1 & R2 & R3). simpl in *.
  destruct completed; simpl.
  - split.
    + intros (k & Hk & Hset). rewrite R2 in Hset by lia. discriminate.
    + intros _ n [= <-]. exists files, (source cfg), since.
      rewrite last_snoc. repeat split; [| discriminate].
      apply (task_files_stored task_id fr _ files [] old Hold).
  - split.
    + intros _. rewrite last_snoc. repeat split.
      apply (task_files_stored task_id fr _ [] [] old Hold).
    + intros Hclear. destruct (R3 eq_refl) as [Hlt Hset].
      rewrite Hclear in Hset by lia. discriminate.
Qed.

Lemma cancelled_scan_keeps_no_candidates_witness :
  let r := scan_source_for_sync stop_env 1 (demo_frame false demo_cands) empty_world in
  stop_at stop_env 2 = true ∧
  r.1.1 = Return 0%nat ∧
  task_files 1 r.1.2 = Some [] ∧
  last (log r.2) = Some Info_scan_cancelled.
Proof.
  split; [reflexivity |].
  apply (proj1 (cancelled_scan_keeps_no_candidates stop_env 1
                  (demo_frame false demo_cands) empty_world)).
  exists 2%nat. split; [vm_compute; lia | reflexivity].
Defined.

(** *** The rounds of a walk *)

Lemma warned_app a b : warned (a ++ b) = warned a ++ warned b.
Proof. unfold warned. apply flat_map_app. Qed.

Lemma made_rounds_done last_run st st' :
  st'.1 = st.1 → polls st'.2 = polls st.2 → warned (log st'.2) = warned (log st.2) →
  made_rounds last_run st [] (true, st') 0.
Proof.
  intros H1 H2 H3. unfold made_rounds. cbn [fst snd length take flat_map].
  rewrite H1, H2, H3, !app_nil_r. repeat split; lia.
Qed.

Lemma made_rounds_step last_run st st1 v vs r k :
  st1.1 = st.1 ++ candidate_of last_run v →
  polls st1.2 = S (polls st.2) →
  warned (log st1.2) = warned (log st.2) ++ warning_of v →
  made_rounds last_run st1 vs r k →
  made_rounds last_run st (v :: vs) r (S k).
Proof.
  intros H1 H2 H3 (A1 & A2 & A3 & A4 & A5). unfold made_rounds.
  cbn [length take flat_map]. rewrite A3, A4, A5, H1, H2, H3, <- !app_assoc.
  repeat split; try lia.
  destruct r.1; lia.
Qed.

Lemma made_rounds_app last_run st vs1 vs2 r1 r2 k2 :
  made_rounds last_run st vs1 r1 (length vs1) → r1.1 = true →
  made_rounds last_run r1.2 vs2 r2 k2 →
  made_rounds last_run st (vs1 ++ vs2) r2 (length vs1 + k2).
Proof.
  intros (A1 & A2 & A3 & A4 & A5) Ht (B1 & B2 & B3 & B4 & B5).
  rewrite Ht in A3. rewrite firstn_all in A4, A5.
  unfold made_rounds. rewrite length_app.
  rewrite take_app_add by reflexivity.
  rewrite !flat_map_app, B3, B4, B5, A3, A4, A5, <- !app_assoc.
  repeat split; try lia.
  destruct r2.1; lia.
Qed.

Lemma made_rounds_cut last_run st vs1 vs2 r1 k :
  made_rounds last_run st vs1 r1 k → r1.1 = false →
  made_rounds last_run st (vs1 ++ vs2) r1 k.
Proof.
  intros (A1 & A2 & A3 & A4 & A5) Hf. rewrite Hf in A2, A3.
  unfold made_rounds. rewrite Hf, length_app.
  rewrite take_app_le by lia.
  repeat split; try assumption; lia.
Qed.

Section Rounds.
Variables (env : Env) (task_id : nat) (ignore_config : list ignore_rule) (last_run : Z).

Local Abbreviation rounds := (λ topdir es, visits ignore_config topdir (Entries es)).

Lemma visits_cons topdir e es : rounds topdir (e :: es) ≠ [].
Proof.
  destruct e as [f [mc |] | f ls | f | f]; cbn;
    try destruct (should_ignore ignore_config f); discriminate.
Qed.

Lemma file_to_sync_round p mc st :
  let st1 := file_to_sync last_run p mc st in
  st1.1 = st.1 ++ candidate_of last_run (Visit_file p mc) ∧
  polls st1.2 = polls st.2 ∧ warned (log st1.2) = warned (log st.2).
Proof.
  unfold file_to_sync. destruct mc as [mt ct]. cbn [candidate_of].
  destruct (_ || _); cbn.
  - rewrite warned_app. cbn. rewrite app_nil_r. auto.
  - rewrite app_nil_r. auto.
Qed.

(** A walk makes the rounds before it, in order, up to the first read of
    the stop flag that finds the flag set. *)
Lemma walktree_rounds ls :
  ∀ topdir st,
    ∃ k, made_rounds last_run st (visits ignore_config topdir ls)
           (walktree env task_id ignore_config last_run topdir ls st) k.
Proof.
  induction ls as [| es IH | | | |] using listing_ind
    with (Q := λ e, match e with
                    | Dir _ ls => ∀ topdir st,
                        ∃ k, made_rounds last_run st (visits ignore_config topdir ls)
                               (walktree env task_id ignore_config last_run topdir ls st) k
                    | _ => True
                    end); try exact I; try assumption.
  - intros topdir st. exists 0%nat. apply made_rounds_done; cbn; try reflexivity.
    rewrite warned_app. cbn. apply app_nil_r.
  - intros topdir.
    cut (∀ st, ∃ k, made_rounds last_run st (rounds topdir es)
                      (walk_entries env task_id ignore_config last_run topdir es st) k);
      [intros H st; exact (H st) |].
    induction IH as [| e es He Hes IHes]; intros st.
    { exists 0%nat. rewrite walk_nil. apply made_rounds_done; reflexivity. }
    destruct (stop_at env (polls st.2)) eqn:Hstop.
    { exists 0%nat. rewrite walk_stopped by exact Hstop.
      pose proof (visits_cons topdir e es) as Hne.
      destruct (rounds topdir (e :: es)) as [| v vs]; [congruence |].
      unfold made_rounds. cbn. rewrite !app_nil_r. repeat split; lia. }
    assert (Hskip : ∀ p vs r k,
              made_rounds last_run (entered env task_id st) vs r k →
              made_rounds last_run st (Visit_skip p :: vs) r (S k)).
    { intros p vs r k H. eapply made_rounds_step; [| | | exact H]; cbn;
        rewrite ?app_nil_r; reflexivity. }
    assert (Hexc : ∀ p,
              made_rounds last_run st [Visit_skip p]
                (walktree_except topdir (entered env task_id st)) 1).
    { intros p. eapply made_rounds_step with (st1 := entered env task_id st); cbn;
        rewrite ?app_nil_r; try reflexivity.
      apply made_rounds_done; cbn; try reflexivity.
      rewrite warned_app. cbn. apply app_nil_r. }
    destruct e as [f stats | f ls | f | f].
    + destruct (should_ignore ignore_config f) eqn:Hi.
      * rewrite walk_reg_ignored by assumption.
        destruct (IHes (entered env task_id st)) as [k Hk].
        exists (S k). cbn. rewrite Hi. apply Hskip. exact Hk.
      * destruct stats as [mc |].
        -- rewrite walk_reg by assumption.
           destruct (file_to_sync_round (topdir ++ [f]) mc (entered env task_id st))
             as (F1 & F2 & F3).
           destruct (IHes (file_to_sync last_run (topdir ++ [f]) mc (entered env task_id st)))
             as [k Hk].
           exists (S k). cbn [visits]. rewrite Hi.
           eapply made_rounds_step; [exact F1 | rewrite F2; reflexivity | | exact Hk].
           rewrite F3. cbn. rewrite app_nil_r. reflexivity.
        -- rewrite walk_reg_stat_fails by assumption.
           exists 1%nat. cbn [visits]. rewrite Hi. apply Hexc.
    + destruct (should_ignore ignore_config f) eqn:Hi.
      * rewrite walk_dir_ignored by assumption.
        destruct (IHes (entered env task_id st)) as [k Hk].
        exists (S k). cbn [visits]. rewrite Hi. apply Hskip. exact Hk.
      * rewrite walk_dir by assumption.
        destruct (He (topdir ++ [f]) (entered env task_id st)) as [k1 H1].
        destruct (walktree env task_id ignore_config last_run (topdir ++ [f]) ls
                    (entered env task_id st)) as [ok st'] eqn:E.
        cbn [visits]. rewrite Hi. cbv zeta. cbn [fst snd].
        change ((fix rounds (es0 : list entry) : list visit := _) es)
          with (rounds topdir es).
        destruct ok.
        -- destruct (IHes st') as [k2 H2].
           assert (Hk1 : k1 = length (visits ignore_config (topdir ++ [f]) ls))
             by (apply H1).
           subst k1.
           exists (S (length (visits ignore_config (topdir ++ [f]) ls) + k2)).
           apply Hskip. eapply made_rounds_app; [exact H1 | reflexivity | exact H2].
        -- exists (S k1). apply Hskip. apply made_rounds_cut; [exact H1 | reflexivity].
    + rewrite walk_other by assumption.
      destruct (IHes ((entered env task_id st).1,
                      logging (Warn_skipping (topdir ++ [f])) (entered env task_id st).2))
        as [k Hk].
      exists (S k). cbn [visits].
      eapply made_rounds_step; [| | | exact Hk]; cbn; rewrite ?app_nil_r; try reflexivity.
      rewrite warned_app. reflexivity.
    + rewrite walk_broken by assumption.
      exists 1%nat. cbn [visits]. apply Hexc.
Qed.

End Rounds.

Lemma candidate_of_spec last_run vs c :
  c ∈ flat_map (candidate_of last_run) vs ↔
  ∃ ct, Visit_file c.1 (c.2, ct) ∈ vs ∧ changed_since last_run (c.2, ct).
Proof.
  rewrite list_elem_of_In, in_flat_map. split.
  - intros (v & Hv & Hc). apply list_elem_of_In in Hv.
    destruct v as [p [mt ct] | p | p]; cbn in Hc; try contradiction.
    destruct ((last_run <? mt) || (last_run <? ct))%Z eqn:E; cbn in Hc; [| contradiction].
    destruct Hc as [<- | []]. exists ct. split; [exact Hv |].
    unfold changed_since. cbn. apply orb_true_iff in E. rewrite !Z.ltb_lt in E. exact E.
  - intros (ct & Hv & Hc). exists (Visit_file c.1 (c.2, ct)).
    split; [apply list_elem_of_In; exact Hv |].
    unfold changed_since in Hc. cbn in Hc |- *.
    assert (E : ((last_run <? c.2) || (last_run <? ct))%Z = true)
      by (apply orb_true_iff; rewrite !Z.ltb_lt; exact Hc).
    rewrite E. left. destruct c; reflexivity.
Qed.

Lemma warning_of_spec vs p : p ∈ flat_map warning_of vs ↔ Visit_other p ∈ vs.
Proof.
  rewrite list_elem_of_In, in_flat_map. split.
  - intros (v & Hv & Hp). apply list_elem_of_In in Hv.
    destruct v; cbn in Hp; try contradiction. destruct Hp as [<- | []]. exact Hv.
  - intros Hv. exists (Visit_other p). split; [apply list_elem_of_In; exact Hv |].
    left. reflexivity.
Qed.



(** C7.  A walk makes the rounds of its loop in order, one read of the
    stop flag before each, until a read finds the flag set or the rounds
    are exhausted.  To the candidate list it appends, for these rounds
    and in their order, exactly the regular files that are not ignored
    and whose modification time or metadata-change time is strictly
    greater than the watermark, each with its modification time; to the
    log it adds exactly one "Skipping" warning for each entry of these
    rounds that [os.lstat] shows to be neither a regular file nor a
    directory.  A scan whose reads of the flag all find it clear stores
    the candidates of all the rounds of the source tree and returns their
    number. *)
Theorem changed_regular_file_becomes_candidate env task_id :
  (∀ ignore_config last_run topdir ls st,
     let r := walktree env task_id ignore_config last_run topdir ls st in
     let vs := visits ignore_config topdir ls in
     ∃ k,
       let reached := take k vs in
       (k ≤ length vs)%nat ∧
       (if r.1 then k = length vs else (k < length vs)%nat) ∧
       polls r.2.2 = (polls st.2 + k + (if r.1 then 0 else 1))%nat ∧
       (∀ j, (j < k)%nat → stop_at env (polls st.2 + j) = false) ∧
       (r.1 = false → stop_at env (polls st.2 + k) = true) ∧
       r.2.1 = st.1 ++ flat_map (candidate_of last_run) reached ∧
       warned (log r.2.2) = warned (log st.2) ++ flat_map warning_of reached ∧
       (∀ c, c ∈ flat_map (candidate_of last_run) reached ↔
             ∃ ct, Visit_file c.1 (c.2, ct) ∈ reached ∧
                   changed_since last_run (c.2, ct)) ∧
       (∀ p, p ∈ flat_map warning_of reached ↔ Visit_other p ∈ reached)) ∧
  (∀ fr w old cfg since time_tuple,
     taskFiles fr !! slot (taskFiles fr) task_id = Some old →
     taskConfigs fr !! slot (taskConfigs fr) task_id = Some cfg →
     synced cfg = Some since →
     strptime since = Some time_tuple →
     let vs := visits (default [] (ignore cfg)) (source cfg)
                      (source_tree env (source cfg)) in
     (∀ j, (j < length vs)%nat → stop_at env (polls w + j) = false) →
     let r := scan_source_for_sync env task_id fr w in
     let files := flat_map (candidate_of (mktime env time_tuple)) vs in
     r.1.1 = Return (length files) ∧
     task_files task_id r.1.2 = Some files ∧
     warned (log r.2) = warned (log w) ++ flat_map warning_of vs).
Proof.
  assert (Hwalk : ∀ ignore_config last_run topdir ls st,
            let r := walktree env task_id ignore_config last_run topdir ls st in
            ∃ k, made_rounds last_run st (visits ignore_config topdir ls) r k ∧
                 (∀ j, (j < k)%nat → stop_at env (polls st.2 + j) = false) ∧
                 (r.1 = false → stop_at env (polls st.2 + k) = true)).
  { intros ignore_config last_run topdir ls st r.
    destruct (walktree_rounds env task_id ignore_config last_run ls topdir st) as [k Hk].
    pose proof (walktree_reads env task_id ignore_config last_run ls topdir st)
      as (R1 & R2 & R3).
    fold r in Hk, R1, R2, R3. exists k. split; [exact Hk |].
    destruct Hk as (_ & _ & Hp & _). split.
    - intros j Hj. apply R2. destruct r.1; lia.
    - intros Hf. destruct (R3 Hf) as [_ R4]. rewrite Hf in Hp.
      replace (polls st.2 + k)%nat with (polls r.2.2 - 1)%nat by lia. exact R4. }
  split.
  - intros ignore_config last_run topdir ls st r vs.
    destruct (Hwalk ignore_config last_run topdir ls st)
      as (k & (A1 & A2 & A3 & A4 & A5) & Hclear & Hset).
    exists k. cbv zeta. fold r vs in A1, A2, A3, A4, A5, Hset |- *.
    repeat (split; [assumption |]).
    split; [intros c; apply candidate_of_spec | intros p; apply warning_of_spec].
  - intros fr w old cfg since time_tuple Hold Hcfg Hsynced Hparse vs Hstop r files.
    destruct (Hwalk (default [] (ignore cfg)) (mktime env time_tuple)
                (source cfg) (source_tree env (source cfg)) ([], w))
      as (k & (A1 & A2 & A3 & A4 & A5) & _ & Hset).
    fold vs in A1, A2, A3, A4, A5.
    subst r files. unfold scan_source_for_sync.
    rewrite Hold. cbn [taskConfigs with_taskFiles]. rewrite Hcfg, Hsynced, Hparse.
    destruct (walktree _ _ _ _ _ _ _) as [completed [found w1]].
    cbn [fst snd] in *.
    destruct completed.
    2: { specialize (Hset eq_refl). rewrite Hstop in Hset by exact A2. discriminate. }
    subst k. rewrite firstn_all in A4, A5. cbn [app] in A4. subst found.
    cbn [fst snd log logging].
    split; [reflexivity |]. split.
    + eapply task_files_stored. exact Hold.
    + rewrite warned_app, A5. cbn. apply app_nil_r.
Qed.

(** The scan of the demo tree: [a.txt] and [sub/b.txt] changed after the
    watermark ([b.txt] by its metadata-change time only), [old.txt] did
    not, [x.tmp] and [.git] are ignored, [link] is neither a regular
    file nor a directory. *)
Lemma changed_regular_file_becomes_candidate_witness :
  task_files 1 (scan_source_for_sync demo_env 1 (demo_frame false []) empty_world).1.2
  = Some [(demo_source ++ ["a.txt"], demo_last_run + 10);
          (demo_source ++ ["sub"; "b.txt"], demo_last_run - 5)] ∧
  warned (log (scan_source_for_sync demo_env 1 (demo_frame false []) empty_world).2)
  = [demo_source ++ ["link"]].
Proof.
  destruct (proj2 (changed_regular_file_becomes_candidate demo_env 1)
              (demo_frame false []) empty_world [] demo_task
              "2026-01-05 09:03:59" (mk_tm 2026 1 5 9 3 59)
              eq_refl eq_refl eq_refl ltac:(vm_compute; reflexivity)
              ltac:(intros; reflexivity))
    as (_ & H2 & H3).
  split; [exact H2 | exact H3].
Defined.

(** ** Tree scanner: errors *)

(** C6, as stated, fails.  The source directory lists [a], on which
    [os.lstat] raises, and then [b.txt], a regular file that is not
    ignored and was changed after the watermark.  The exception ends the
    loop over the directory: the scan succeeds with no candidate, so the
    sibling [b.txt] is not visited; without [a] the same scan finds it. *)
Lemma stat_error_skips_later_siblings :
  let fr := demo_frame false [] in
  let r := scan_source_for_sync (env_with_tree broken_tree) 1 fr empty_world in
  let r' := scan_source_for_sync (env_with_tree mended_tree) 1 fr empty_world in
  r.1.1 = Return 0%nat ∧
  task_files 1 r.1.2 = Some [] ∧
  log r.2 = [Err_accessing demo_source;
             Info_found 0 demo_source "2026-01-05 09:03:59"] ∧
  should_ignore [mk_rule ["."] [".tmp"]] "b.txt" = false ∧
  r'.1.1 = Return 1%nat ∧
  task_files 1 r'.1.2 = Some [(demo_source ++ ["b.txt"], demo_last_run + 10)].
Proof. vm_compute. repeat split; reflexivity. Qed.

(** C6, amended.  For an entry that the loop reaches: when listing a
    subdirectory raises, the error is logged and the loop goes on with
    the entries after the subdirectory; when [os.lstat] raises on an
    entry, or [os.stat] on a regular file that is not ignored, the error
    is logged, the entries after it in the same directory are not visited
    and the walk of that directory returns [True], so that the walk of the
    parent goes on.  No error makes a walk return [False]: when it does,
    a read of the stop flag found the flag set. *)
Theorem scan_error_ends_listing_not_scan
    env task_id ignore_config last_run topdir es st :
  stop_at env (polls st.2) = false →
  let st1 := entered env task_id st in
  (∀ f, should_ignore ignore_config f = false →
     walk_entries env task_id ignore_config last_run topdir (Dir f Unreadable :: es) st
     = walk_entries env task_id ignore_config last_run topdir es
         (st1.1, logging (Err_accessing (topdir ++ [f])) st1.2)) ∧
  (∀ f,
     walk_entries env task_id ignore_config last_run topdir (Broken f :: es) st
     = (true, (st1.1, logging (Err_accessing topdir) st1.2))) ∧
  (∀ f, should_ignore ignore_config f = false →
     walk_entries env task_id ignore_config last_run topdir (Reg f None :: es) st
     = (true, (st1.1, logging (Err_accessing topdir) st1.2))) ∧
  (∀ ls dir st0,
     (walktree env task_id ignore_config last_run dir ls st0).1 = false →
     ∃ k, (polls st0.2 ≤ k)%nat ∧ stop_at env k = true).
Proof.
  intros Hstop st1. repeat split.
  - intros f Hi. rewrite walk_dir by assumption. reflexivity.
  - intros f. rewrite walk_broken by assumption. reflexivity.
  - intros f Hi. rewrite walk_reg_stat_fails by assumption. reflexivity.
  - intros ls dir st0 Hfalse.
    destruct (walktree_reads env task_id ignore_config last_run ls dir st0) as (_ & _ & R3).
    destruct (R3 Hfalse) as [Hlt Hset]. eexists. split; [| exact Hset]. lia.
Qed.

Lemma scan_error_ends_listing_not_scan_witness :
  stop_at demo_env 0 = false ∧
  walk_entries demo_env 1 [] demo_last_run demo_source
    [Broken "a"; Reg "b.txt" (Some (demo_last_run + 10, demo_last_run + 10))] ([], empty_world)
  = (true, ([], logging (Err_accessing demo_source)
                  (entered demo_env 1 ([], empty_world)).2)).
Proof.
  split; [reflexivity |].
  apply (proj1 (proj2 (scan_error_ends_listing_not_scan demo_env 1 [] demo_last_run
                         demo_source
                         [Reg "b.txt" (Some (demo_last_run + 10, demo_last_run + 10))]
                         ([], empty_world) eq_refl))).
Defined.

(** ** Tree scanner: a task that was never synced *)

(** C4, at the failing inputs.  For a task whose configuration has no
    [synced] key the scan raises [KeyError]; for one whose [synced] is the
    empty string it raises [ValueError] ([time.strptime] rejects the empty
    string).  In both cases the candidate list has been reset, no
    directory is listed and nothing more is logged, and [run_task_logic]
    ends with the same exception right after the status line "Scanning":
    it neither updates the watermark nor hands control back to the GUI. *)
Theorem scan_raises_when_never_synced env task_id fr w old cfg :
  taskFiles fr !! slot (taskFiles fr) task_id = Some old →
  taskConfigs fr !! slot (taskConfigs fr) task_id = Some cfg →
  synced cfg = None ∨ synced cfg = Some "" →
  let e := match synced cfg with None => KeyError | Some _ => ValueError end in
  let fr' := with_taskFiles (<[slot (taskFiles fr) task_id := []]> (taskFiles fr)) fr in
  scan_source_for_sync env task_id fr w = (Raise e, fr', w) ∧
  (run_scan fr = true →
   run_task_logic env task_id fr w
   = (Raise e, fr', CallAfter (Status_SetLabel task_id Scanning) w)).
Proof.
  intros Hold Hcfg Hnever e fr'.
  assert (Hscan : ∀ w0, scan_source_for_sync env task_id fr w0 = (Raise e, fr', w0)).
  { intros w0. unfold scan_source_for_sync. rewrite Hold. simpl. rewrite Hcfg.
    subst e. destruct Hnever as [-> | ->]; reflexivity. }
  split; [apply Hscan |].
  intros Hon. unfold run_task_logic. rewrite Hold, Hon, Hscan. reflexivity.
Qed.

Lemma scan_raises_when_never_synced_witness :
  let never := init_frame [mk_task "Docs" demo_source demo_target "Documents" None None] in
  scan_source_for_sync demo_env 1 never empty_world = (Raise KeyError, never, empty_world) ∧
  run_task_logic demo_env 1 never empty_world
  = (Raise KeyError, never, CallAfter (Status_SetLabel 1 Scanning) empty_world).
Proof.
  destruct (scan_raises_when_never_synced demo_env 1
              (init_frame [mk_task "Docs" demo_source demo_target "Documents" None None])
              empty_world []
              (mk_task "Docs" demo_source demo_target "Documents" None None)
              eq_refl eq_refl (or_introl eq_refl)) as [H1 H2].
  split; [exact H1 | exact (H2 eq_refl)].
Defined.

Example scan_rejects_empty_watermark :
  let empty := init_frame [mk_task "Docs" demo_source demo_target "Documents" (Some "") None] in
  (scan_source_for_sync demo_env 1 empty empty_world).1.1 = Raise ValueError.
Proof. reflexivity. Qed.

(** ** Task orchestrator: the watermark *)

Lemma scan_keeps_configs env task_id fr w :
  let r := scan_source_for_sync env task_id fr w in
  taskConfigs r.1.2 = taskConfigs fr ∧ run_copy r.1.2 = run_copy fr ∧
  run_evict r.1.2 = run_evict fr ∧
  (∀ n, r.1.1 = Return n → is_Some (taskConfigs fr !! slot (taskConfigs fr) task_id)).
Proof.
  unfold scan_source_for_sync.
  destruct (taskFiles fr !! _); simpl; [| repeat split; discriminate].
  destruct (taskConfigs fr !! _) as [cfg |]; simpl; [| repeat split; discriminate].
  destruct (synced cfg); simpl; [| repeat split; discriminate].
  destruct (strptime _); simpl; [| repeat split; discriminate].
  destruct (walktree _ _ _ _ _ _ _) as [completed [files w1]].
  destruct completed; simpl; repeat split; eauto.
Qed.

Lemma watermark_stored task_id stamp fr :
  is_Some (taskConfigs fr !! slot (taskConfigs fr) task_id) →
  watermark task_id (store_synced task_id stamp fr) = Some stamp.
Proof.
  intros [cfg Hcfg]. unfold watermark, store_synced. rewrite Hcfg. simpl.
  rewrite slot_insert, list_lookup_insert_eq; [reflexivity |].
  eapply lookup_lt_Some. exact Hcfg.
Qed.

(** What [copy_stage] does to the configurations, in terms of what the
    pipeline returns and of the read of the flag that follows. *)
Lemma copy_stage_configs env task_id n fr w :
  let fr' := (copy_stage env task_id n fr w).1.2 in
  (fr' = store_synced task_id (strftime_now env) fr ∧
   run_copy fr = true ∧
   ∃ files_synced files_evicted w2,
     sync_to_target_and_evict env task_id false fr (pipeline_start task_id n fr w)
     = (Return (files_synced, files_evicted), w2) ∧
     (1 ≤ files_synced)%nat ∧ stop_at env (polls w2) = false) ∨
  (fr' = fr ∧
   ¬ (run_copy fr = true ∧
      ∃ files_synced files_evicted w2,
        sync_to_target_and_evict env task_id false fr (pipeline_start task_id n fr w)
        = (Return (files_synced, files_evicted), w2) ∧
        (1 ≤ files_synced)%nat ∧ stop_at env (polls w2) = false)).
Proof.
  unfold copy_stage. cbv zeta.
  destruct (run_copy fr) eqn:Hcopy.
  2: { right. split; [reflexivity |]. intros [H _]. discriminate. }
  destruct (sync_to_target_and_evict _ _ _ _ _) as [[[files_synced files_evicted] | e] w2] eqn:E.
  2: { right. split; [reflexivity |]. intros (_ & a & b & c & H & _). discriminate. }
  destruct files_synced as [| k]; simpl.
  { right. split; [reflexivity |].
    intros (_ & a & b & c & [= <- <- <-] & Hle & _). lia. }
  destruct (stop_at env (polls w2)) eqn:Hstop; simpl.
  { right. split; [reflexivity |].
    intros (_ & a & b & c & [= <- <- <-] & _ & Hs). congruence. }
  left. split; [reflexivity |]. split; [reflexivity |].
  exists (S k), files_evicted, w2. repeat split; [lia | exact Hstop].
Qed.

Lemma watermark_ext task_id fr1 fr2 :
  taskConfigs fr1 = taskConfigs fr2 → watermark task_id fr1 = watermark task_id fr2.
Proof. intros H. unfold watermark. rewrite H. reflexivity. Qed.

Lemma store_synced_configs task_id stamp fr1 fr2 :
  taskConfigs fr1 = taskConfigs fr2 →
  taskConfigs (store_synced task_id stamp fr1) = taskConfigs (store_synced task_id stamp fr2).
Proof.
  intros H. unfold store_synced. rewrite H.
  destruct (taskConfigs fr2 !! _); simpl; [reflexivity | exact H].
Qed.

Lemma store_synced_others task_id stamp fr j :
  j ≠ slot (taskConfigs fr) task_id →
  taskConfigs (store_synced task_id stamp fr) !! j = taskConfigs fr !! j.
Proof.
  intros Hj. unfold store_synced.
  destruct (taskConfigs fr !! slot (taskConfigs fr) task_id); simpl; [| reflexivity].
  apply list_lookup_insert_ne. congruence.
Qed.

(** A run either completes a sync and stores the stamp, or leaves every
    configuration as it was. *)
Lemma run_task_logic_configs env task_id fr w :
  let fr' := (run_task_logic env task_id fr w).1.2 in
  (sync_completed env task_id fr w ∧
   is_Some (taskConfigs fr !! slot (taskConfigs fr) task_id) ∧
   taskConfigs fr' = taskConfigs (store_synced task_id (strftime_now env) fr)) ∨
  (¬ sync_completed env task_id fr w ∧ taskConfigs fr' = taskConfigs fr).
Proof.
  unfold run_task_logic, sync_completed.
  destruct (taskFiles fr !! slot (taskFiles fr) task_id) as [old |] eqn:Hold.
  2: { right. split; [| reflexivity].
       intros (_ & n & fr1 & w1 & a & b & c & Hscan & _).
       unfold scan_source_for_sync in Hscan. rewrite Hold in Hscan. discriminate. }
  destruct (run_scan fr) eqn:Hscan_on.
  2: { right. split; [| reflexivity]. intros [H _]. discriminate. }
  pose proof (scan_keeps_configs env task_id fr
                (CallAfter (Status_SetLabel task_id Scanning) w)) as Hk.
  destruct (scan_source_for_sync _ _ _ _) as [[[n | e] fr1] w1] eqn:Escan; simpl in Hk.
  2: { right. split; [| apply Hk].
       intros (_ & n & fr2 & w2 & a & b & c & [=] & _). }
  destruct Hk as (Hcfgs & Hcopy & Hevict & Hsome).
  destruct n as [| n]; simpl.
  { right. split; [| exact Hcfgs].
    intros (_ & n & fr2 & w2 & a & b & c & [= <- <- <-] & Hn & _). congruence. }
  destruct (copy_stage_configs env task_id (S n) fr1 w1) as [(E & Hc & H) | (E & H)];
    simpl in E; rewrite E.
  - left. split; [| split].
    + split; [reflexivity |].
      destruct H as (fs & fe & w2 & H1 & H2 & H3).
      exists (S n), fr1, w1, fs, fe, w2. repeat split; auto.
    + eauto.
    + apply store_synced_configs. exact Hcfgs.
  - right. split; [| exact Hcfgs].
    intros (_ & n' & fr2 & w2 & fs & fe & w3 & [= <- <- <-] & Hn & Hc & H1 & H2 & H3).
    apply H. split; [exact Hc |]. exists fs, fe, w3. auto.
Qed.

(** C1, amended.  The run stores the completion stamp into the task's
    [synced] exactly when the pipeline was called, returned copied_count
    >= 1 and the read of the stop flag that follows found it clear; it
    then changes no other task.  In every other outcome (the scan raised
    or found nothing or was cancelled, copying is disabled, nothing was
    copied, the flag is set) all configurations are left as they were.
    The stamp is the local wall-clock time at completion, whatever the
    previous watermark: the time the watermark denotes is that of the
    clock after a completed run and the previous one otherwise, so it
    does not go back as long as the clock is not behind the previous
    watermark. *)
Theorem watermark_set_iff_copied_and_not_stopped env task_id fr w :
  let fr' := (run_task_logic env task_id fr w).1.2 in
  (sync_completed env task_id fr w →
     watermark task_id fr' = Some (strftime_now env) ∧
     ∀ j, j ≠ slot (taskConfigs fr) task_id → taskConfigs fr' !! j = taskConfigs fr !! j) ∧
  (¬ sync_completed env task_id fr w → taskConfigs fr' = taskConfigs fr) ∧
  (∀ t0 t1,
     stamp_time env (watermark task_id fr) = Some t0 →
     stamp_time env (Some (strftime_now env)) = Some t1 →
     ∃ t', stamp_time env (watermark task_id fr') = Some t' ∧
           (sync_completed env task_id fr w → t' = t1) ∧
           (¬ sync_completed env task_id fr w → t' = t0) ∧
           ((t0 ≤ t1)%Z → (t0 ≤ t')%Z)).
Proof.
  intros fr'.
  destruct (run_task_logic_configs env task_id fr w) as [(Hc & Hsome & E) | (Hn & E)];
    fold fr' in E.
  - assert (Hw : watermark task_id fr' = Some (strftime_now env)).
    { rewrite (watermark_ext _ _ _ E). apply watermark_stored. exact Hsome. }
    split; [| split].
    + intros _. split; [exact Hw |].
      intros j Hj. rewrite E. apply store_synced_others. exact Hj.
    + intros H. contradiction.
    + intros t0 t1 H0 H1. exists t1. rewrite Hw.
      repeat split; auto. intros H. contradiction.
  - split; [| split].
    + intros H. contradiction.
    + intros _. exact E.
    + intros t0 t1 H0 H1. exists t0. rewrite (watermark_ext _ _ _ E).
      repeat split; auto; [intros H; contradiction | lia].
Qed.

Lemma demo_run_completes : sync_completed demo_env 1 (demo_frame true []) empty_world.
Proof.
  split; [reflexivity |].
  pose (r := scan_source_for_sync demo_env 1 (demo_frame true [])
               (CallAfter (Status_SetLabel 1 Scanning) empty_world)).
  pose (p := sync_to_target_and_evict demo_env 1 false r.1.2
               (pipeline_start 1 2 r.1.2 r.2)).
  exists 2%nat, r.1.2, r.2, 2%nat, 2%nat, p.2.
  repeat split; try (vm_compute; reflexivity); try (vm_compute; discriminate).
  vm_compute. lia.
Qed.

Lemma watermark_set_iff_copied_and_not_stopped_witness :
  let fr' := (run_task_logic demo_env 1 (demo_frame true []) empty_world).1.2 in
  watermark 1 (demo_frame true []) = Some "2026-01-05 09:03:59" ∧
  watermark 1 fr' = Some "2026-11-04 12:00:00".
Proof.
  split; [reflexivity |].
  apply (proj1 (watermark_set_iff_copied_and_not_stopped demo_env 1
                  (demo_frame true []) empty_world)).
  exact demo_run_completes.
Defined.

(** C1, as stated, fails.  The watermark of the task is 09:03:59; both
    changed files are copied and the run completes while the local clock
    shows 08:30:00 of the same day (set back by hand, or by the end of
    daylight saving time): the run stores that time, and the watermark
    has moved backward. *)
Lemma watermark_goes_back_with_the_clock :
  let fr := demo_frame true [] in
  let r := run_task_logic clock_back_env 1 fr empty_world in
  r.1.1 = Return tt ∧
  last (ui r.2) = Some (Status_SetLabel 1 (Scan_and_sync_completed 2 2 2)) ∧
  watermark 1 fr = Some "2026-01-05 09:03:59" ∧
  watermark 1 r.1.2 = Some "2026-01-05 08:30:00" ∧
  stamp_time clock_back_env (watermark 1 fr) = Some (mktime_demo (mk_tm 2026 1 5 9 3 59)) ∧
  stamp_time clock_back_env (watermark 1 r.1.2)
  = Some (mktime_demo (mk_tm 2026 1 5 8 30 0)) ∧
  (mktime_demo (mk_tm 2026 1 5 8 30 0) < mktime_demo (mk_tm 2026 1 5 9 3 59))%Z.
Proof. vm_compute. repeat split; reflexivity. Qed.

Example demo_run :
  let r := run_task_logic demo_env 1 (demo_frame true []) empty_world in
  r.1.1 = Return tt ∧
  task_files 1 r.1.2 = Some demo_cands ∧
  last (ui r.2) = Some (Status_SetLabel 1 (Scan_and_sync_completed 2 2 2)) ∧
  map call_outcome (evict_log r.2) = [TimeoutExpired; Evict_ok; Evict_ok].
Proof. vm_compute. repeat split; reflexivity. Qed.

(** ** Tree scanner: the candidate list of a whole walk *)

Lemma in_tree_tail ic topdir e es p stats :
  in_tree ic topdir (Entries es) p stats → in_tree ic topdir (Entries (e :: es)) p stats.
Proof.
  inversion 1; subst.
  - apply in_tree_here; [right; assumption | assumption].
  - eapply in_tree_below; [right; eassumption | assumption | assumption].
Qed.

Lemma found_in_tail ic last_run topdir e es c :
  found_in ic last_run topdir (Entries es) c →
  found_in ic last_run topdir (Entries (e :: es)) c.
Proof. intros (ct & H & Hc). exists ct. split; [apply in_tree_tail; exact H | exact Hc]. Qed.

Lemma file_to_sync_adds last_run p mt ct st :
  (changed_since last_run (mt, ct) ∧
   (file_to_sync last_run p (mt, ct) st).1 = st.1 ++ [(p, mt)]) ∨
  (¬ changed_since last_run (mt, ct) ∧ (file_to_sync last_run p (mt, ct) st).1 = st.1).
Proof.
  unfold file_to_sync, changed_since. simpl.
  destruct (Z.ltb_spec last_run mt); destruct (Z.ltb_spec last_run ct); simpl;
    first [left; split; [lia | reflexivity] | right; split; [lia | reflexivity]].
Qed.

Section Candidates.
Variables (env : Env) (task_id : nat) (ignore_config : list ignore_rule) (last_run : Z).

(** Soundness, in every environment: a walk only appends, and what it
    appends are changed regular files of the tree that are not ignored. *)
Lemma walktree_sound ls :
  ∀ topdir st,
    ∃ added,
      (walktree env task_id ignore_config last_run topdir ls st).2.1 = st.1 ++ added ∧
      Forall (found_in ignore_config last_run topdir ls) added.
Proof.
  induction ls as [| es IH | | | |] using listing_ind
    with (Q := λ e, match e with
                    | Dir _ ls => ∀ topdir st, ∃ added,
                        (walktree env task_id ignore_config last_run topdir ls st).2.1
                        = st.1 ++ added ∧
                        Forall (found_in ignore_config last_run topdir ls) added
                    | _ => True
                    end); try exact I; try assumption.
  - intros topdir st. exists []. simpl. rewrite app_nil_r. split; [reflexivity | constructor].
  - intros topdir.
    cut (∀ st, ∃ added,
           (walk_entries env task_id ignore_config last_run topdir es st).2.1 = st.1 ++ added ∧
           Forall (found_in ignore_config last_run topdir (Entries es)) added);
      [intros H st; exact (H st) |].
    induction IH as [| e es He Hes IHes]; intros st.
    { exists []. rewrite walk_nil, app_nil_r. split; [reflexivity | constructor]. }
    assert (Htail : ∀ st1, st1.1 = st.1 →
              ∃ added,
                (walk_entries env task_id ignore_config last_run topdir es st1).2.1
                = st.1 ++ added ∧
                Forall (found_in ignore_config last_run topdir (Entries (e :: es))) added).
    { intros st1 E. destruct (IHes st1) as (added & A1 & A2). exists added.
      rewrite A1, E. split; [reflexivity |].
      eapply Forall_impl; [exact A2 |]. intros c. apply found_in_tail. }
    assert (Hnone : ∀ r : bool * scan_state, r.2.1 = st.1 →
              ∃ added, r.2.1 = st.1 ++ added ∧
                Forall (found_in ignore_config last_run topdir (Entries (e :: es))) added).
    { intros r E. exists []. rewrite app_nil_r. split; [exact E | constructor]. }
    destruct (stop_at env (polls st.2)) eqn:Hstop.
    { rewrite walk_stopped by exact Hstop. apply Hnone. reflexivity. }
    destruct e as [f stats | f ls | f | f].
    + destruct (should_ignore ignore_config f) eqn:Hi.
      * rewrite walk_reg_ignored by assumption. apply Htail. reflexivity.
      * destruct stats as [[mt ct] |].
        -- rewrite walk_reg by assumption.
           destruct (file_to_sync_adds last_run (topdir ++ [f]) mt ct (entered env task_id st))
             as [[Hc E] | [Hc E]].
           ++ destruct (IHes (file_to_sync last_run (topdir ++ [f]) (mt, ct)
                                (entered env task_id st))) as (added & A1 & A2).
              exists ((topdir ++ [f], mt) :: added).
              rewrite A1, E. simpl. rewrite <- app_assoc. split; [reflexivity |].
              constructor.
              ** exists ct. split; [| exact Hc]. apply in_tree_here; [left; reflexivity | exact Hi].
              ** eapply Forall_impl; [exact A2 |]. intros c. apply found_in_tail.
           ++ apply Htail. exact E.
        -- rewrite walk_reg_stat_fails by assumption. apply Hnone. reflexivity.
    + destruct (should_ignore ignore_config f) eqn:Hi.
      * rewrite walk_dir_ignored by assumption. apply Htail. reflexivity.
      * rewrite walk_dir by assumption.
        destruct (He (topdir ++ [f]) (entered env task_id st)) as (sub & S1 & S2).
        assert (Hsub : Forall (found_in ignore_config last_run topdir
                                 (Entries (Dir f ls :: es))) sub).
        { eapply Forall_impl; [exact S2 |]. intros c (ct & Hin & Hc). exists ct.
          split; [| exact Hc].
          eapply in_tree_below; [left; reflexivity | exact Hi | exact Hin]. }
        destruct (walktree _ _ _ _ _ _ _) as [ok st'] eqn:E. simpl in *.
        destruct ok.
        -- destruct (IHes st') as (added & A1 & A2).
           exists (sub ++ added). rewrite A1, S1, <- app_assoc. split; [reflexivity |].
           apply Forall_app. split; [exact Hsub |].
           eapply Forall_impl; [exact A2 |]. intros c. apply found_in_tail.
        -- exists sub. split; [exact S1 | exact Hsub].
    + rewrite walk_other by assumption. apply Htail. reflexivity.
    + rewrite walk_broken by assumption. apply Hnone. reflexivity.
Qed.

Lemma walk_keeps topdir es st c :
  c ∈ st.1 → c ∈ (walk_entries env task_id ignore_config last_run topdir es st).2.1.
Proof.
  intros H. destruct (walktree_sound (Entries es) topdir st) as (added & E & _).
  unfold walk_entries. rewrite E. apply elem_of_app. left. exact H.
Qed.

Lemma readable_cons e es :
  readable (Entries (e :: es)) = true →
  match e with
  | Reg _ None | Broken _ => False
  | Dir _ ls => readable ls = true
  | _ => True
  end ∧ readable (Entries es) = true.
Proof.
  intros H.
  change (match e with
          | Reg _ (Some _) => true
          | Reg _ None => false
          | Dir _ ls' => readable ls'
          | Other _ => true
          | Broken _ => false
          end && readable (Entries es) = true) in H.
  apply andb_true_iff in H. destruct H as [H1 H2]. split; [| exact H2].
  destruct e as [f [stats |] | f ls | f | f]; auto; discriminate.
Qed.

(** Completeness, when the stop flag stays clear and neither [os.lstat]
    nor [os.stat] raises: the walk succeeds and every changed regular file
    of the tree that is not ignored is in the list. *)
Lemma walktree_complete ls :
  (∀ k, stop_at env k = false) →
  readable ls = true →
  ∀ topdir st,
    let r := walktree env task_id ignore_config last_run topdir ls st in
    r.1 = true ∧
    ∀ p stats, in_tree ignore_config topdir ls p stats → changed_since last_run stats →
               (p, stats.1) ∈ r.2.1.
Proof.
  intros Hclear.
  induction ls as [| es IH | | | |] using listing_ind
    with (Q := λ e, match e with
                    | Dir _ ls => readable ls = true → ∀ topdir st,
                        let r := walktree env task_id ignore_config last_run topdir ls st in
                        r.1 = true ∧
                        ∀ p stats, in_tree ignore_config topdir ls p stats →
                                   changed_since last_run stats → (p, stats.1) ∈ r.2.1
                    | _ => True
                    end); try exact I; try assumption.
  - intros _ topdir st. simpl. split; [reflexivity |]. intros p stats H. inversion H.
  - intros Hread topdir.
    cut (∀ st,
           let r := walk_entries env task_id ignore_config last_run topdir es st in
           r.1 = true ∧
           ∀ p stats, in_tree ignore_config topdir (Entries es) p stats →
                      changed_since last_run stats → (p, stats.1) ∈ r.2.1);
      [intros H st; exact (H st) |].
    induction IH as [| e es He Hes IHes]; intros st.
    { rewrite walk_nil. simpl. split; [reflexivity |].
      intros p stats H. inversion H; subst; contradiction. }
    destruct (readable_cons _ _ Hread) as [Hre Hres].
    specialize (IHes Hres).
    pose proof (Hclear (polls st.2)) as Hstop.
    assert (Htail : ∀ st1 p stats,
              in_tree ignore_config topdir (Entries es) p stats →
              changed_since last_run stats →
              (p, stats.1)
              ∈ (walk_entries env task_id ignore_config last_run topdir es st1).2.1).
    { intros st1 p stats Hin Hc. apply (proj2 (IHes st1)); assumption. }
    destruct e as [f stats0 | f ls | f | f].
    + destruct (should_ignore ignore_config f) eqn:Hi.
      * rewrite walk_reg_ignored by assumption. cbv zeta.
        split; [apply (proj1 (IHes _)) |].
        intros p stats Hin Hc.
        inversion Hin as [? ? f' ? Hmem Hi' | ? ? f' ls' ? ? Hmem Hi' Hsub]; subst;
          (destruct Hmem as [Hhead | Hmem]; [inversion Hhead; subst; try congruence |]);
          apply Htail; try assumption;
          first [apply in_tree_here; assumption | eapply in_tree_below; eassumption].
      * destruct stats0 as [[mt ct] |]; [| contradiction].
        rewrite walk_reg by assumption. cbv zeta.
        split; [apply (proj1 (IHes _)) |].
        intros p stats Hin Hc.
        inversion Hin as [? ? f' ? Hmem Hi' | ? ? f' ls' ? ? Hmem Hi' Hsub]; subst;
          (destruct Hmem as [Hhead | Hmem]; [inversion Hhead; subst |]).
        -- apply walk_keeps.
           destruct (file_to_sync_adds last_run (topdir ++ [f']) mt ct (entered env task_id st))
             as [[_ E] | [Hn _]]; [| contradiction].
           rewrite E. apply elem_of_app. right. simpl. left.
        -- apply Htail; [apply in_tree_here |]; assumption.
        -- apply Htail; [eapply in_tree_below |]; eassumption.
    + destruct (should_ignore ignore_config f) eqn:Hi.
      * rewrite walk_dir_ignored by assumption. cbv zeta.
        split; [apply (proj1 (IHes _)) |].
        intros p stats Hin Hc.
        inversion Hin as [? ? f' ? Hmem Hi' | ? ? f' ls' ? ? Hmem Hi' Hsub]; subst;
          (destruct Hmem as [Hhead | Hmem]; [inversion Hhead; subst; try congruence |]);
          apply Htail; try assumption;
          first [apply in_tree_here; assumption | eapply in_tree_below; eassumption].
      * rewrite walk_dir by assumption.
        destruct (He Hre (topdir ++ [f]) (entered env task_id st)) as [S1 S2].
        destruct (walktree _ _ _ _ _ _ _) as [ok st'] eqn:E. simpl in S1, S2. subst ok.
        cbv zeta. simpl.
        split; [apply (proj1 (IHes _)) |].
        intros p stats Hin Hc.
        inversion Hin as [? ? f' ? Hmem Hi' | ? ? f' ls' ? ? Hmem Hi' Hsub]; subst;
          (destruct Hmem as [Hhead | Hmem]; [inversion Hhead; subst |]).
        -- apply Htail; [apply in_tree_here |]; assumption.
        -- apply walk_keeps. apply S2; assumption.
        -- apply Htail; [eapply in_tree_below |]; eassumption.
    + rewrite walk_other by assumption. cbv zeta.
      split; [apply (proj1 (IHes _)) |].
      intros p stats Hin Hc.
      inversion Hin as [? ? f' ? Hmem Hi' | ? ? f' ls' ? ? Hmem Hi' Hsub]; subst;
        (destruct Hmem as [Hhead | Hmem]; [inversion Hhead |]);
        apply Htail; try assumption;
        first [apply in_tree_here; assumption | eapply in_tree_below; eassumption].
    + contradiction.
Qed.

End Candidates.

(** A whole scan, when the stop flag stays clear and neither [os.lstat]
    nor [os.stat] raises: the candidate list it leaves holds exactly the
    regular files of the source tree that are not ignored, lie below
    directories that are not ignored, and have a modification time or a
    metadata-change time strictly greater than the watermark. *)
Lemma scan_finds_the_changed_files env task_id fr w old cfg since time_tuple :
  taskFiles fr !! slot (taskFiles fr) task_id = Some old →
  taskConfigs fr !! slot (taskConfigs fr) task_id = Some cfg →
  synced cfg = Some since →
  strptime since = Some time_tuple →
  (∀ k, stop_at env k = false) →
  readable (source_tree env (source cfg)) = true →
  let r := scan_source_for_sync env task_id fr w in
  ∃ files,
    r.1.1 = Return (length files) ∧
    task_files task_id r.1.2 = Some files ∧
    ∀ c, c ∈ files ↔
         found_in (default [] (ignore cfg)) (mktime env time_tuple) (source cfg)
                  (source_tree env (source cfg)) c.
Proof.
  intros Hold Hcfg Hsynced Hparse Hclear Hread.
  unfold scan_source_for_sync. rewrite Hold. simpl. rewrite Hcfg, Hsynced, Hparse.
  destruct (walktree_sound env task_id (default [] (ignore cfg)) (mktime env time_tuple)
              (source_tree env (source cfg)) (source cfg) ([], w)) as (added & S1 & S2).
  destruct (walktree_complete env task_id (default [] (ignore cfg)) (mktime env time_tuple)
              (source_tree env (source cfg)) Hclear Hread (source cfg) ([], w)) as [C1 C2].
  destruct (walktree _ _ _ _ _ _ _) as [completed [files w1]].
  simpl in *. subst completed files.
  exists added. split; [reflexivity |].
  split; [apply (task_files_stored task_id fr _ added [] old Hold) |].
  intros c. split.
  - intros Hin. rewrite Forall_forall in S2. apply S2. exact Hin.
  - intros (ct & Hin & Hc). destruct c as [p m]. apply (C2 p (m, ct)); assumption.
Qed.

Example demo_scan :
  let r := scan_source_for_sync demo_env 1 (demo_frame false []) empty_world in
  r.1.1 = Return 2%nat ∧ task_files 1 r.1.2 = Some demo_cands ∧
  log r.2 = [Dbg_file_to_sync (demo_source ++ ["a.txt"]);
             Warn_skipping (demo_source ++ ["link"]);
             Dbg_file_to_sync (demo_source ++ ["sub"; "b.txt"]);
             Info_found 2 demo_source "2026-01-05 09:03:59"].
Proof. vm_compute. repeat split; reflexivity. Qed.

(** * Further properties of the engine *)

(** ** Copy/evict pipeline: what a run leaves alone *)

Lemma retry_loop_target_fs env task_id simsync paths :
  ∀ s, target_fs (world (retry_loop env task_id simsync paths s)) = target_fs (world s).
Proof.
  induction paths as [| tp paths IH]; intros s; simpl; [reflexivity |].
  rewrite IH. unfold retry_candidate. destruct simsync; simpl; [reflexivity |].
  destruct (cloudfile_evict _ _ _); reflexivity.
Qed.

Lemma sync_body_target_fs_any env task_id simsync evict src tgt cands w :
  target_fs (world (sync_body env task_id simsync evict src tgt cands w)) =
  target_fs (world (sync_loop env task_id simsync evict src tgt 1 cands (mk_sync 0 0 [] w)).2).
Proof.
  unfold sync_body.
  destruct (sync_loop _ _ _ _ _ _ _ _ _) as [returned s1]. simpl.
  destruct returned; [reflexivity |]. simpl. apply retry_loop_target_fs.
Qed.

(** The main loop writes the target tree only at the re-rooted paths of
    its candidates, and never removes a file. *)
Lemma sync_loop_target_tree env task_id simsync evict src tgt cands :
  ∀ index s,
    let s' := (sync_loop env task_id simsync evict src tgt index cands s).2 in
    (∀ p, is_Some (target_fs (world s) !! p) → is_Some (target_fs (world s') !! p)) ∧
    (∀ p, (∀ c, c ∈ cands → p ≠ join tgt (relpath c.1 src)) →
          target_fs (world s') !! p = target_fs (world s) !! p).
Proof.
  induction cands as [| [sp m] cands IH]; intros index s; simpl.
  { split; auto. }
  destruct (stop_at env (polls (world s))); simpl.
  { split; auto. }
  match goal with |- context [process_candidate ?e ?t ?a ?b ?x ?y ?i ?c ?s0] =>
    pose proof (process_candidate_target_fs e t a b x y i sp m s0) as Hstep;
    destruct (IH (S index) (process_candidate e t a b x y i c s0)) as [I1 I2] end.
  cbv zeta in Hstep. simpl in Hstep. split.
  - intros p Hp. apply I1.
    destruct Hstep as [-> | [_ ->]]; [exact Hp |].
    destruct (decide (join tgt (relpath sp src) = p)) as [<- | Hne].
    + rewrite lookup_insert_eq. eauto.
    + rewrite lookup_insert_ne by exact Hne. exact Hp.
  - intros p Hp. rewrite I2.
    + destruct Hstep as [-> | [_ ->]]; [reflexivity |].
      apply lookup_insert_ne. intros E. apply (Hp (sp, m)); [left | symmetry; exact E].
    + intros c Hc. apply Hp. right. exact Hc.
Qed.

(** X1.  The regular files of the target tree ([target_fs]; the
    directories that [os.makedirs] creates are not part of it): a run of
    the pipeline removes none of them, and one whose path is not the
    re-rooted path of a candidate is neither created nor given another
    modification time. *)
Theorem target_tree_changes_only_at_candidates env task_id simsync fr w cfg cands :
  taskConfigs fr !! slot (taskConfigs fr) task_id = Some cfg →
  taskFiles fr !! slot (taskFiles fr) task_id = Some cands →
  let w' := (sync_to_target_and_evict env task_id simsync fr w).2 in
  (∀ p, is_Some (target_fs w !! p) → is_Some (target_fs w' !! p)) ∧
  (∀ p, (∀ c, c ∈ cands → p ≠ join (target cfg) (relpath c.1 (source cfg))) →
        target_fs w' !! p = target_fs w !! p).
Proof.
  intros Hcfg Hfiles. unfold sync_to_target_and_evict.
  destruct (negb (run_copy fr)); simpl; [split; auto |].
  rewrite Hcfg, Hfiles. simpl. rewrite sync_body_target_fs_any.
  apply (sync_loop_target_tree env task_id simsync (run_evict fr) (source cfg) (target cfg)
           cands 1 (mk_sync 0 0 [] w)).
Qed.

Lemma target_tree_changes_only_at_candidates_witness :
  let w0 := mk_world 0 {[ ["cloud"; "docs"; "keep.txt"] := 5 ]} [] [] [] in
  let w' := (sync_to_target_and_evict demo_env 1 false (demo_frame true demo_cands) w0).2 in
  target_fs w' !! ["cloud"; "docs"; "keep.txt"] = Some 5.
Proof.
  destruct (target_tree_changes_only_at_candidates demo_env 1 false
              (demo_frame true demo_cands)
              (mk_world 0 {[ ["cloud"; "docs"; "keep.txt"] := 5 ]} [] [] [])
              demo_task demo_cands eq_refl eq_refl) as [_ H].
  cbv zeta. rewrite H; [reflexivity |].
  intros c Hc. apply list_elem_of_In in Hc. simpl in Hc.
  destruct Hc as [<- | [<- | []]]; vm_compute; discriminate.
Defined.

(** ** Copy/evict pipeline: eviction switched off, dry runs, a failing disk *)

Ltac candidate_cases :=
  unfold process_candidate, evict_first; simpl;
  repeat match goal with
         | |- context [if ?b then _ else _] => destruct b eqn:?
         | |- context [match cloudfile_evict ?e ?k ?p with _ => _ end] =>
             destruct (cloudfile_evict e k p) eqn:?
         end; simpl.

Lemma sync_loop_without_eviction env task_id simsync src tgt cands :
  ∀ index s,
    let s' := (sync_loop env task_id simsync false src tgt index cands s).2 in
    evict_log (world s') = evict_log (world s) ∧
    evicted_count s' = evicted_count s ∧
    evict_retry s' = evict_retry s.
Proof.
  induction cands as [| [sp m] cands IH]; intros index s; simpl; [auto |].
  destruct (stop_at env (polls (world s))); simpl; [auto |].
  match goal with |- context [sync_loop _ _ _ _ _ _ _ _ ?s1] =>
    destruct (IH (S index) s1) as (A1 & A2 & A3);
    assert (H : evict_log (world s1) = evict_log (world s) ∧
                evicted_count s1 = evicted_count s ∧ evict_retry s1 = evict_retry s)
      by (candidate_cases; auto) end.
  destruct H as (B1 & B2 & B3). repeat split; congruence.
Qed.

(** X2.  With eviction disabled the evictor is never invoked and the evicted
    count is 0. *)
Theorem evictor_not_invoked_when_disabled env task_id simsync fr w :
  run_evict fr = false →
  let r := sync_to_target_and_evict env task_id simsync fr w in
  evict_log r.2 = evict_log w ∧
  match r.1 with
  | Return (_, evicted) => evicted = 0%nat
  | Raise _ => True
  end.
Proof.
  intros Hev. unfold sync_to_target_and_evict.
  destruct (negb (run_copy fr)); simpl; [auto |].
  destruct (taskConfigs fr !! _) as [cfg |]; simpl; [| auto].
  destruct (taskFiles fr !! _) as [cands |]; simpl; [| auto].
  rewrite Hev. unfold sync_body.
  destruct (sync_loop_without_eviction env task_id simsync (source cfg) (target cfg)
              cands 1 (mk_sync 0 0 [] w)) as (A1 & A2 & A3).
  destruct (sync_loop _ _ _ _ _ _ _ _ _) as [returned s1]. simpl in *.
  destruct returned; simpl; [auto |].
  rewrite A3. simpl. auto.
Qed.

Lemma evictor_not_invoked_when_disabled_witness :
  let r := sync_to_target_and_evict demo_env 1 false (demo_frame false demo_cands)
                                    empty_world in
  evict_log r.2 = [] ∧ r.1 = Return (2, 0)%nat.
Proof.
  split.
  - apply (evictor_not_invoked_when_disabled demo_env 1 false
             (demo_frame false demo_cands) empty_world eq_refl).
  - vm_compute. reflexivity.
Defined.

Lemma sync_loop_simulated env task_id (evict : bool) src tgt cands :
  ∀ index (s : sync_state),
    evict_retry s = [] →
    (if evict then evicted_count s = copied_count s else evicted_count s = 0%nat) →
    let s' := (sync_loop env task_id true evict src tgt index cands s).2 in
    target_fs (world s') = target_fs (world s) ∧
    evict_log (world s') = evict_log (world s) ∧
    evict_retry s' = [] ∧
    (if evict then evicted_count s' = copied_count s' else evicted_count s' = 0%nat).
Proof.
  induction cands as [| [sp m] cands IH]; intros index s Hr He; simpl; [auto |].
  destruct (stop_at env (polls (world s))); simpl; [auto |].
  match goal with |- context [sync_loop _ _ _ _ _ _ _ _ ?s1] =>
    assert (H : target_fs (world s1) = target_fs (world s) ∧
                evict_log (world s1) = evict_log (world s) ∧
                evict_retry s1 = [] ∧
                (if evict then evicted_count s1 = copied_count s1
                 else evicted_count s1 = 0%nat))
      by (destruct evict; candidate_cases; auto);
    destruct H as (B1 & B2 & B3 & B4);
    destruct (IH (S index) s1 B3 B4) as (A1 & A2 & A3 & A4) end.
  repeat split; try congruence; try exact A4.
Qed.

(** X3.  A simulated run ([simsync=True]) writes no file and invokes no
    evictor: the target tree and the record of invocations stay as they
    were; it counts every eviction it would attempt as done. *)
Theorem simulated_run_changes_nothing env task_id fr w :
  let r := sync_to_target_and_evict env task_id true fr w in
  target_fs r.2 = target_fs w ∧
  evict_log r.2 = evict_log w ∧
  match r.1 with
  | Return (copied, evicted) => evicted = if run_evict fr then copied else 0%nat
  | Raise _ => True
  end.
Proof.
  unfold sync_to_target_and_evict.
  destruct (negb (run_copy fr)); simpl.
  { repeat split. destruct (run_evict fr); reflexivity. }
  destruct (taskConfigs fr !! _) as [cfg |]; simpl; [| auto].
  destruct (taskFiles fr !! _) as [cands |]; simpl; [| auto].
  unfold sync_body.
  destruct (sync_loop_simulated env task_id (run_evict fr) (source cfg) (target cfg)
              cands 1 (mk_sync 0 0 [] w) eq_refl) as (A1 & A2 & A3 & A4).
  { destruct (run_evict fr); reflexivity. }
  destruct (sync_loop _ _ _ _ _ _ _ _ _) as [returned s1]. simpl in *.
  destruct returned; simpl.
  - repeat split; auto. destruct (run_evict fr); auto.
  - rewrite A3. simpl. repeat split; auto. destruct (run_evict fr); auto.
Qed.

Lemma sync_loop_failing_disk env task_id evict src tgt cands :
  (∀ i p, makedirs_raises env i p = true) ∨ (∀ i p q, copy2_raises env i p q = true) →
  ∀ index s,
    let s' := (sync_loop env task_id false evict src tgt index cands s).2 in
    copied_count s' = copied_count s ∧ evicted_count s' = evicted_count s ∧
    evict_retry s' = evict_retry s ∧
    target_fs (world s') = target_fs (world s) ∧
    evict_log (world s') = evict_log (world s).
Proof.
  intros Hfail.
  induction cands as [| [sp m] cands IH]; intros index s; simpl; [repeat split |].
  destruct (stop_at env (polls (world s))); simpl; [repeat split |].
  match goal with |- context [sync_loop _ _ _ _ _ _ _ _ ?s1] =>
    destruct (IH (S index) s1) as (A1 & A2 & A3 & A4 & A5);
    assert (H : copied_count s1 = copied_count s ∧ evicted_count s1 = evicted_count s ∧
                evict_retry s1 = evict_retry s ∧
                target_fs (world s1) = target_fs (world s) ∧
                evict_log (world s1) = evict_log (world s)) end.
  { unfold process_candidate. simpl.
    destruct Hfail as [Hmk | Hcp].
    - rewrite Hmk. repeat split.
    - destruct (makedirs_raises _ _ _); [repeat split |].
      match goal with |- context [if needs_copy ?a ?b ?c then _ else _] =>
        destruct (needs_copy a b c) end; [| repeat split].
      rewrite Hcp. repeat split. }
  destruct H as (B1 & B2 & B3 & B4 & B5). repeat split; congruence.
Qed.

(** X4.  When [os.makedirs] raises for every candidate, or [shutil.copy2]
    does, the run does not raise: it returns (0, 0) and never invokes the
    evictor.  When it is [os.makedirs] that raises, [shutil.copy2] is not
    reached and no regular file of the target tree is written.  (Nothing
    is stated about the target of a [copy2] that raises.) *)
Theorem nothing_counted_when_every_copy_fails env task_id fr w cfg cands :
  run_copy fr = true →
  taskConfigs fr !! slot (taskConfigs fr) task_id = Some cfg →
  taskFiles fr !! slot (taskFiles fr) task_id = Some cands →
  (∀ i p, makedirs_raises env i p = true) ∨ (∀ i p q, copy2_raises env i p q = true) →
  ∃ w',
    sync_to_target_and_evict env task_id false fr w = (Return (0, 0)%nat, w') ∧
    evict_log w' = evict_log w ∧
    ((∀ i p, makedirs_raises env i p = true) → target_fs w' = target_fs w).
Proof.
  intros Hcopy Hcfg Hfiles Hfail. unfold sync_to_target_and_evict.
  rewrite Hcopy, Hcfg, Hfiles. simpl. unfold sync_body.
  destruct (sync_loop_failing_disk env task_id (run_evict fr) (source cfg) (target cfg)
              cands Hfail 1 (mk_sync 0 0 [] w)) as (A1 & A2 & A3 & A4 & A5).
  destruct (sync_loop _ _ _ _ _ _ _ _ _) as [returned s1]. simpl in *.
  destruct returned; simpl.
  - eexists. rewrite A1, A2. split; [reflexivity |]. split; [exact A5 | intros _; exact A4].
  - rewrite A3. simpl. eexists. rewrite A1, A2.
    split; [reflexivity |]. split; [exact A5 | intros _; exact A4].
Qed.

Lemma nothing_counted_when_every_copy_fails_witness :
  ∃ w',
    sync_to_target_and_evict unmounted_env 1 false (demo_frame true demo_cands) empty_world
    = (Return (0, 0)%nat, w') ∧
    evict_log w' = [] ∧ target_fs w' = ∅.
Proof.
  destruct (nothing_counted_when_every_copy_fails unmounted_env 1
              (demo_frame true demo_cands) empty_world demo_task demo_cands
              eq_refl eq_refl eq_refl (or_introl (λ _ _, eq_refl)))
    as (w' & H1 & H2 & H3).
  exists w'. split; [exact H1 |]. split; [exact H2 |]. apply H3. reflexivity.
Defined.

(** ** Copy/evict pipeline: an evictor that always or never succeeds *)

Lemma sync_loop_evictor_always_ok env task_id src tgt cands :
  (∀ k p, cloudfile_evict env k p = Evict_ok) →
  ∀ index s,
    evict_retry s = [] → evicted_count s = copied_count s →
    let s' := (sync_loop env task_id false true src tgt index cands s).2 in
    evict_retry s' = [] ∧ evicted_count s' = copied_count s'.
Proof.
  intros Hok.
  induction cands as [| [sp m] cands IH]; intros index s Hr He; simpl; [auto |].
  destruct (stop_at env (polls (world s))); simpl; [auto |].
  apply IH.
  - unfold process_candidate, evict_first. simpl. rewrite Hok.
    repeat match goal with |- context [if ?b then _ else _] => destruct b end; simpl; auto.
  - unfold process_candidate, evict_first. simpl. rewrite Hok.
    repeat match goal with |- context [if ?b then _ else _] => destruct b end; simpl; auto.
Qed.

Lemma retry_loop_evictor_never_ok env task_id paths :
  (∀ k p, cloudfile_evict env k p ≠ Evict_ok) →
  ∀ s, evicted_count (retry_loop env task_id false paths s) = evicted_count s.
Proof.
  intros Hno. induction paths as [| tp paths IH]; intros s; simpl; [reflexivity |].
  rewrite IH. unfold retry_candidate. simpl.
  destruct (cloudfile_evict _ _ _) eqn:E; simpl; try reflexivity.
  exfalso. eapply Hno. exact E.
Qed.

Lemma sync_loop_evictor_never_ok env task_id evict src tgt cands :
  (∀ k p, cloudfile_evict env k p ≠ Evict_ok) →
  ∀ index s,
    evicted_count (sync_loop env task_id false evict src tgt index cands s).2
    = evicted_count s.
Proof.
  intros Hno.
  induction cands as [| [sp m] cands IH]; intros index s; simpl; [reflexivity |].
  destruct (stop_at env (polls (world s))); simpl; [reflexivity |].
  rewrite IH. unfold process_candidate, evict_first. simpl.
  repeat match goal with |- context [if ?b then _ else _] => destruct b end;
    simpl; try reflexivity.
  destruct (cloudfile_evict _ _ _) eqn:E; simpl; try reflexivity.
  exfalso. eapply Hno. exact E.
Qed.

(** X5.  With eviction enabled and the real evictor: when every invocation
    succeeds, the evicted count equals the copied count, also in a
    cancelled run; when no invocation succeeds, the evicted count is 0. *)
Theorem evicted_count_follows_evictor env task_id fr w :
  run_evict fr = true →
  let r := sync_to_target_and_evict env task_id false fr w in
  ((∀ k p, cloudfile_evict env k p = Evict_ok) →
     match r.1 with Return (copied, evicted) => evicted = copied | Raise _ => True end) ∧
  ((∀ k p, cloudfile_evict env k p ≠ Evict_ok) →
     match r.1 with Return (_, evicted) => evicted = 0%nat | Raise _ => True end).
Proof.
  intros Hev. unfold sync_to_target_and_evict.
  destruct (negb (run_copy fr)); simpl; [auto |].
  destruct (taskConfigs fr !! _) as [cfg |]; simpl; [| auto].
  destruct (taskFiles fr !! _) as [cands |]; simpl; [| auto].
  rewrite Hev. unfold sync_body. split.
  - intros Hok.
    destruct (sync_loop_evictor_always_ok env task_id (source cfg) (target cfg) cands Hok
                1 (mk_sync 0 0 [] w) eq_refl eq_refl) as [A1 A2].
    destruct (sync_loop _ _ _ _ _ _ _ _ _) as [returned s1]. simpl in *.
    destruct returned; simpl; [exact A2 |]. rewrite A1. simpl. exact A2.
  - intros Hno.
    pose proof (sync_loop_evictor_never_ok env task_id true (source cfg) (target cfg)
                  cands Hno 1 (mk_sync 0 0 [] w)) as A.
    destruct (sync_loop _ _ _ _ _ _ _ _ _) as [returned s1]. simpl in *.
    destruct returned; simpl; [exact A |].
    rewrite retry_loop_evictor_never_ok by exact Hno. exact A.
Qed.

Lemma evicted_count_follows_evictor_witness :
  match (sync_to_target_and_evict no_cloudfile_env 1 false (demo_frame true demo_cands)
                                  empty_world).1 with
  | Return (_, evicted) => evicted = 0%nat
  | Raise _ => True
  end.
Proof.
  apply (evicted_count_follows_evictor no_cloudfile_env 1
           (demo_frame true demo_cands) empty_world eq_refl).
  intros k p. discriminate.
Defined.

(** ** Re-rooting of candidates *)

Lemma relpath_from_under src rel : relpath_from (src ++ rel) src = rel.
Proof.
  induction src as [| a src IH]; simpl.
  - destruct rel; reflexivity.
  - rewrite String.eqb_refl. exact IH.
Qed.

Lemma relpath_under src rel : rel ≠ [] → relpath (src ++ rel) src = rel.
Proof.
  intros Hne. unfold relpath. rewrite relpath_from_under.
  destruct rel; [contradiction | reflexivity].
Qed.

Lemma in_tree_under ic topdir ls p stats :
  in_tree ic topdir ls p stats → ∃ rel, rel ≠ [] ∧ p = topdir ++ rel.
Proof.
  induction 1 as [topdir es f stats _ _ | topdir es f ls p stats _ _ _ IH].
  - exists [f]. split; [discriminate | reflexivity].
  - destruct IH as (rel & Hne & ->). exists (f :: rel).
    split; [discriminate |]. rewrite <- app_assoc. reflexivity.
Qed.

(** X6.  What a scan leaves in the candidate list lies below the source
    directory, and the pipeline re-roots it: a candidate [source/rel] has
    the target path [target/rel].  Hence two candidates with the same
    target path are the same file. *)
Theorem scanned_files_keep_their_relative_path env task_id fr w cfg files :
  taskConfigs fr !! slot (taskConfigs fr) task_id = Some cfg →
  task_files task_id (scan_source_for_sync env task_id fr w).1.2 = Some files →
  (∀ c, c ∈ files →
     ∃ rel, rel ≠ [] ∧ c.1 = source cfg ++ rel ∧
            join (target cfg) (relpath c.1 (source cfg)) = target cfg ++ rel) ∧
  (∀ c1 c2, c1 ∈ files → c2 ∈ files →
     join (target cfg) (relpath c1.1 (source cfg))
     = join (target cfg) (relpath c2.1 (source cfg)) →
     c1.1 = c2.1).
Proof.
  intros Hcfg Hfiles.
  assert (Hunder : ∀ c, c ∈ files → ∃ rel, rel ≠ [] ∧ c.1 = source cfg ++ rel).
  { revert Hfiles. unfold scan_source_for_sync.
    destruct (taskFiles fr !! slot (taskFiles fr) task_id) as [old |] eqn:Hold; simpl.
    2: { unfold task_files. rewrite Hold. discriminate. }
    rewrite Hcfg.
    assert (Hreset : ∀ fr0, task_files task_id
              (with_taskFiles (<[slot (taskFiles fr) task_id := []]> (taskFiles fr)) fr0)
              = Some files → ∀ c, c ∈ files → ∃ rel, rel ≠ [] ∧ c.1 = source cfg ++ rel).
    { intros fr0 H c Hc. unfold task_files in H. simpl in H.
      rewrite slot_insert, list_lookup_insert_eq in H by (eapply lookup_lt_Some; exact Hold).
      injection H as <-. inversion Hc. }
    destruct (synced cfg) as [since |]; simpl; [| apply Hreset].
    destruct (strptime since) as [time_tuple |]; simpl; [| apply Hreset].
    destruct (walktree_sound env task_id (default [] (ignore cfg)) (mktime env time_tuple)
                (source_tree env (source cfg)) (source cfg) ([], w)) as (added & S1 & S2).
    destruct (walktree _ _ _ _ _ _ _) as [completed [found w1]]. simpl in S1. subst found.
    destruct completed; simpl.
    - rewrite (task_files_stored task_id fr _ added [] old Hold).
      intros [= <-] c Hc. rewrite Forall_forall in S2.
      destruct (S2 c Hc) as (ct & Hin & _). eapply in_tree_under. exact Hin.
    - rewrite (task_files_stored task_id fr _ [] [] old Hold).
      intros [= <-] c Hc. inversion Hc. }
  split.
  - intros c Hc. destruct (Hunder c Hc) as (rel & Hne & E). exists rel.
    split; [exact Hne |]. split; [exact E |].
    rewrite E, relpath_under by exact Hne. reflexivity.
  - intros c1 c2 H1 H2.
    destruct (Hunder c1 H1) as (r1 & N1 & E1). destruct (Hunder c2 H2) as (r2 & N2 & E2).
    rewrite E1, E2, !relpath_under by assumption. unfold join.
    intros E. apply app_inv_head in E. congruence.
Qed.

Lemma scanned_files_keep_their_relative_path_witness :
  Forall (λ c : list string * Z,
            ∃ rel, rel ≠ [] ∧ c.1 = demo_source ++ rel ∧
                   join demo_target (relpath c.1 demo_source) = demo_target ++ rel)
         demo_cands.
Proof.
  apply Forall_forall.
  apply (scanned_files_keep_their_relative_path demo_env 1 (demo_frame false [])
           empty_world demo_task demo_cands eq_refl).
  vm_compute. reflexivity.
Defined.

(** ** The queue of GUI calls *)

Lemma new_ui_app w0 w1 added : ui w1 = ui w0 ++ added → new_ui w0 w1 = added.
Proof. intros H. unfold new_ui. rewrite H. apply drop_app_length. Qed.


Lemma hand_backs_app a b : hand_backs (a ++ b) = hand_backs a ++ hand_backs b.
Proof. unfold hand_backs. apply flat_map_app. Qed.

Lemma gauge_values_set task_id l :
  gauge_values (map (Gauge_SetValue task_id) l) = l ∧
  hand_backs (map (Gauge_SetValue task_id) l) = [].
Proof. induction l as [| i l [IH1 IH2]]; simpl; [auto |]. rewrite IH1, IH2. auto. Qed.

Lemma gauge_values_pulse task_id n :
  gauge_values (repeat (Gauge_Pulse task_id) n) = [] ∧
  hand_backs (repeat (Gauge_Pulse task_id) n) = [].
Proof. induction n as [| n [IH1 IH2]]; simpl; auto. Qed.

Lemma process_candidate_ui env task_id simsync evict src tgt index c s :
  ui (world (process_candidate env task_id simsync evict src tgt index c s))
  = ui (world s) ++ [Gauge_SetValue task_id index].
Proof. destruct c as [sp m]. candidate_cases; reflexivity. Qed.

Lemma sync_loop_ui env task_id simsync evict src tgt cands :
  ∀ index s,
    let r := sync_loop env task_id simsync evict src tgt index cands s in
    ∃ k, (k ≤ length cands)%nat ∧
         ui (world r.2) = ui (world s) ++ map (Gauge_SetValue task_id) (seq index k) ∧
         (r.1 = false → k = length cands).
Proof.
  induction cands as [| c cands IH]; intros index s; simpl.
  { exists 0%nat. simpl. rewrite app_nil_r. auto. }
  destruct (stop_at env (polls (world s))); simpl.
  { exists 0%nat. simpl. rewrite app_nil_r. repeat split; [lia | discriminate]. }
  match goal with |- context [sync_loop _ _ _ _ _ _ _ _ ?s1] =>
    destruct (IH (S index) s1) as (k & Hk & Hui & Hret);
    pose proof (process_candidate_ui env task_id simsync evict src tgt index c
                  (in_world (λ _, (poll env (world s)).2) s)) as Hstep end.
  simpl in Hstep, Hui. exists (S k). split; [lia |]. split.
  - rewrite Hui, Hstep. simpl. rewrite <- app_assoc. reflexivity.
  - intros H. rewrite (Hret H). reflexivity.
Qed.

Lemma retry_loop_ui env task_id simsync paths :
  ∀ s, ui (world (retry_loop env task_id simsync paths s))
       = ui (world s) ++ repeat (Gauge_Pulse task_id) (length paths).
Proof.
  induction paths as [| tp paths IH]; intros s; simpl; [rewrite app_nil_r; reflexivity |].
  rewrite IH. unfold retry_candidate. destruct simsync; simpl.
  - rewrite <- app_assoc. reflexivity.
  - destruct (cloudfile_evict _ _ _); simpl; rewrite <- app_assoc; reflexivity.
Qed.



Section WalkUi.
Variables (env : Env) (task_id : nat) (ignore_config : list ignore_rule) (last_run : Z).

Lemma file_to_sync_ui p mc st : ui (file_to_sync last_run p mc st).2 = ui st.2.
Proof. unfold file_to_sync. destruct mc as [mt ct]. destruct (_ || _); reflexivity. Qed.

(** A walk only pulses the gauge. *)
Lemma walktree_ui ls :
  ∀ topdir st,
    ∃ n, ui (walktree env task_id ignore_config last_run topdir ls st).2.2
         = ui st.2 ++ repeat (Gauge_Pulse task_id) n.
Proof.
  induction ls as [| es IH | | | |] using listing_ind
    with (Q := λ e, match e with
                    | Dir _ ls => ∀ topdir st, ∃ n,
                        ui (walktree env task_id ignore_config last_run topdir ls st).2.2
                        = ui st.2 ++ repeat (Gauge_Pulse task_id) n
                    | _ => True
                    end); try exact I; try assumption.
  - intros topdir st. exists 0%nat. simpl. rewrite app_nil_r. reflexivity.
  - intros topdir.
    cut (∀ st, ∃ n,
           ui (walk_entries env task_id ignore_config last_run topdir es st).2.2
           = ui st.2 ++ repeat (Gauge_Pulse task_id) n);
      [intros H st; exact (H st) |].
    induction IH as [| e es He Hes IHes]; intros st.
    { exists 0%nat. rewrite walk_nil. simpl. rewrite app_nil_r. reflexivity. }
    assert (Hone : ∀ st1, ui st1.2 = ui (entered env task_id st).2 →
              ∃ n, ui (walk_entries env task_id ignore_config last_run topdir es st1).2.2
                   = ui st.2 ++ repeat (Gauge_Pulse task_id) n).
    { intros st1 E. destruct (IHes st1) as [n Hn]. exists (S n).
      rewrite Hn, E. simpl. rewrite <- app_assoc. reflexivity. }
    assert (Hend : ∀ r : bool * scan_state, ui r.2.2 = ui (entered env task_id st).2 →
              ∃ n, ui r.2.2 = ui st.2 ++ repeat (Gauge_Pulse task_id) n).
    { intros r E. exists 1%nat. rewrite E. reflexivity. }
    destruct (stop_at env (polls st.2)) eqn:Hstop.
    { rewrite walk_stopped by exact Hstop. exists 0%nat. simpl.
      rewrite app_nil_r. reflexivity. }
    destruct e as [f stats | f ls | f | f].
    + destruct (should_ignore ignore_config f) eqn:Hi.
      * rewrite walk_reg_ignored by assumption. apply Hone. reflexivity.
      * destruct stats as [mc |].
        -- rewrite walk_reg by assumption. apply Hone. apply file_to_sync_ui.
        -- rewrite walk_reg_stat_fails by assumption. apply Hend. reflexivity.
    + destruct (should_ignore ignore_config f) eqn:Hi.
      * rewrite walk_dir_ignored by assumption. apply Hone. reflexivity.
      * rewrite walk_dir by assumption.
        destruct (He (topdir ++ [f]) (entered env task_id st)) as [m Hm].
        destruct (walktree _ _ _ _ _ _ _) as [ok st'] eqn:E. simpl in *.
        destruct ok.
        -- destruct (IHes st') as [n Hn]. exists (S m + n)%nat. simpl.
           rewrite Hn, Hm. simpl. rewrite repeat_app, <- !app_assoc. reflexivity.
        -- exists (S m). simpl. rewrite Hm. simpl. rewrite <- app_assoc. reflexivity.
    + rewrite walk_other by assumption. apply Hone. reflexivity.
    + rewrite walk_broken by assumption. apply Hend. reflexivity.
Qed.

End WalkUi.

Lemma scan_ui env task_id fr w :
  ∃ n, ui (scan_source_for_sync env task_id fr w).2
       = ui w ++ repeat (Gauge_Pulse task_id) n.
Proof.
  assert (H0 : ∃ n, ui w = ui w ++ repeat (Gauge_Pulse task_id) n)
    by (exists 0%nat; simpl; rewrite app_nil_r; reflexivity).
  unfold scan_source_for_sync.
  destruct (taskFiles fr !! _); simpl; [| exact H0].
  destruct (taskConfigs fr !! _) as [cfg |]; simpl; [| exact H0].
  destruct (synced cfg) as [since |]; simpl; [| exact H0].
  destruct (strptime since) as [time_tuple |]; simpl; [| exact H0].
  destruct (walktree_ui env task_id (default [] (ignore cfg)) (mktime env time_tuple)
              (source_tree env (source cfg)) (source cfg) ([], w)) as [n Hn].
  destruct (walktree _ _ _ _ _ _ _) as [completed [files w1]]. simpl in Hn.
  exists n. destruct completed; exact Hn.
Qed.

Lemma pipeline_ui env task_id simsync fr w :
  ∃ added, ui (sync_to_target_and_evict env task_id simsync fr w).2 = ui w ++ added ∧
           hand_backs added = [].
Proof.
  assert (H0 : ∃ added, ui w = ui w ++ added ∧ hand_backs added = [])
    by (exists []; rewrite app_nil_r; auto).
  unfold sync_to_target_and_evict.
  destruct (negb (run_copy fr)); simpl; [exact H0 |].
  destruct (taskConfigs fr !! _) as [cfg |]; simpl; [| exact H0].
  destruct (taskFiles fr !! _) as [cands |]; simpl; [| exact H0].
  unfold sync_body.
  destruct (sync_loop_ui env task_id simsync (run_evict fr) (source cfg) (target cfg)
              cands 1 (mk_sync 0 0 [] w)) as (k & _ & Hui & _).
  destruct (sync_loop _ _ _ _ _ _ _ _ _) as [returned s1]. simpl in *.
  destruct (gauge_values_set task_id (seq 1 k)) as [_ G2].
  destruct returned; simpl.
  - eexists. split; [exact Hui | exact G2].
  - rewrite retry_loop_ui, Hui, <- app_assoc. eexists. split; [reflexivity |].
    rewrite hand_backs_app, G2. apply gauge_values_pulse.
Qed.

Lemma scan_hand_backs env task_id fr w :
  hand_backs (ui (scan_source_for_sync env task_id fr w).2) = hand_backs (ui w).
Proof.
  destruct (scan_ui env task_id fr w) as [n ->].
  rewrite hand_backs_app, (proj2 (gauge_values_pulse task_id n)), app_nil_r. reflexivity.
Qed.

Lemma pipeline_hand_backs env task_id simsync fr w :
  hand_backs (ui (sync_to_target_and_evict env task_id simsync fr w).2) = hand_backs (ui w).
Proof.
  destruct (pipeline_ui env task_id simsync fr w) as (added & -> & H).
  rewrite hand_backs_app, H, app_nil_r. reflexivity.
Qed.

(** X8.  A run of [run_task_logic] that returns with scanning enabled hands
    its task back to the GUI exactly once ([on_task_stopped] or
    [on_task_complete], which re-enable the button); a run with scanning
    disabled, and a run that ends with an exception, never does. *)
Theorem run_hands_task_back_once env task_id fr w :
  let r := run_task_logic env task_id fr w in
  hand_backs (ui r.2) =
    hand_backs (ui w) ++
    match r.1.1 with
    | Return _ => if run_scan fr then [task_id] else []
    | Raise _ => []
    end.
Proof.
  unfold run_task_logic.
  destruct (taskFiles fr !! _); simpl; [| rewrite app_nil_r; reflexivity].
  destruct (run_scan fr); simpl; [| rewrite app_nil_r; reflexivity].
  pose proof (scan_hand_backs env task_id fr
                (CallAfter (Status_SetLabel task_id Scanning) w)) as Hscan.
  destruct (scan_source_for_sync _ _ _ _) as [[[files_to_sync | e] fr1] w1];
    simpl in Hscan; rewrite hand_backs_app in Hscan; simpl in Hscan;
    rewrite app_nil_r in Hscan; simpl.
  2: { rewrite app_nil_r. exact Hscan. }
  destruct files_to_sync as [| m]; simpl.
  { rewrite !hand_backs_app, Hscan. simpl. rewrite ?app_nil_r. reflexivity. }
  unfold copy_stage. destruct (run_copy fr1); simpl.
  2: { rewrite !hand_backs_app, Hscan. simpl. rewrite ?app_nil_r. reflexivity. }
  pose proof (pipeline_hand_backs env task_id false fr1
                (pipeline_start task_id (S m) fr1 w1)) as Hpipe.
  destruct (sync_to_target_and_evict _ _ _ _ _) as [[[files_synced files_evicted] | e] w2];
    simpl in Hpipe; rewrite !hand_backs_app in Hpipe; simpl in Hpipe;
    rewrite !app_nil_r, Hscan in Hpipe; simpl.
  2: { rewrite app_nil_r. exact Hpipe. }
  destruct files_synced as [| k]; simpl.
  { rewrite !hand_backs_app, Hpipe. simpl. rewrite ?app_nil_r. reflexivity. }
  destruct (stop_at env (polls w2)); simpl; rewrite !hand_backs_app, Hpipe; simpl;
    rewrite ?app_nil_r; reflexivity.
Qed.

(** ** Tree scanner: what a scan leaves alone *)

Section WalkKeeps.
Context {A : Type} (proj : World → A).
Hypothesis proj_logging : ∀ r w, proj (logging r w) = proj w.
Hypothesis proj_CallAfter : ∀ c w, proj (CallAfter c w) = proj w.
Hypothesis proj_poll : ∀ env w, proj (poll env w).2 = proj w.
Variables (env : Env) (task_id : nat).

Section OneWalk.
Variables (ignore_config : list ignore_rule) (last_run : Z).

Lemma entered_keeps st : proj (entered env task_id st).2 = proj st.2.
Proof.
  change (proj (CallAfter (Gauge_Pulse task_id) (poll env st.2).2) = proj st.2).
  rewrite proj_CallAfter. apply proj_poll.
Qed.

Lemma file_to_sync_keeps p mc st : proj (file_to_sync last_run p mc st).2 = proj st.2.
Proof.
  unfold file_to_sync. destruct mc as [mt ct].
  destruct (_ || _); [apply proj_logging | reflexivity].
Qed.

Lemma except_keeps topdir st :
  proj (walktree_except topdir (entered env task_id st)).2.2 = proj st.2.
Proof.
  change (proj (logging (Err_accessing topdir) (entered env task_id st).2) = proj st.2).
  rewrite proj_logging. apply entered_keeps.
Qed.

(** A walk changes only what reading the flag, pulsing the gauge and
    logging change. *)
Lemma walktree_keeps ls :
  ∀ topdir st,
    proj (walktree env task_id ignore_config last_run topdir ls st).2.2 = proj st.2.
Proof.
  induction ls as [| es IH | | | |] using listing_ind
    with (Q := λ e, match e with
                    | Dir _ ls => ∀ topdir st,
                        proj (walktree env task_id ignore_config last_run topdir ls st).2.2
                        = proj st.2
                    | _ => True
                    end); try exact I; try assumption.
  - intros topdir st. apply proj_logging.
  - intros topdir.
    cut (∀ st, proj (walk_entries env task_id ignore_config last_run topdir es st).2.2
               = proj st.2);
      [intros H st; exact (H st) |].
    induction IH as [| e es He Hes IHes]; intros st; [reflexivity |].
    destruct (stop_at env (polls st.2)) eqn:Hstop.
    { rewrite walk_stopped by exact Hstop. apply (proj_poll env st.2). }
    destruct e as [f stats | f ls | f | f].
    + destruct (should_ignore ignore_config f) eqn:Hi.
      * rewrite walk_reg_ignored by assumption. rewrite IHes. apply entered_keeps.
      * destruct stats as [mc |].
        -- rewrite walk_reg by assumption.
           rewrite IHes, file_to_sync_keeps. apply entered_keeps.
        -- rewrite walk_reg_stat_fails by assumption. apply except_keeps.
    + destruct (should_ignore ignore_config f) eqn:Hi.
      * rewrite walk_dir_ignored by assumption. rewrite IHes. apply entered_keeps.
      * rewrite walk_dir by assumption.
        pose proof (He (topdir ++ [f]) (entered env task_id st)) as Hsub.
        rewrite entered_keeps in Hsub.
        destruct (walktree _ _ _ _ _ _ _) as [ok st'] eqn:E.
        cbv zeta. cbn [fst snd] in *.
        destruct ok; [rewrite IHes |]; exact Hsub.
    + rewrite walk_other by assumption. rewrite IHes.
      change (proj (logging (Warn_skipping (topdir ++ [f])) (entered env task_id st).2)
              = proj st.2).
      rewrite proj_logging. apply entered_keeps.
    + rewrite walk_broken by assumption. apply except_keeps.
Qed.

End OneWalk.

Lemma scan_keeps fr w :
  proj (scan_source_for_sync env task_id fr w).2 = proj w.
Proof.
  unfold scan_source_for_sync.
  destruct (taskFiles fr !! _); simpl; [| reflexivity].
  destruct (taskConfigs fr !! _) as [cfg |]; simpl; [| reflexivity].
  destruct (synced cfg) as [since |]; simpl; [| reflexivity].
  destruct (strptime since) as [time_tuple |]; simpl; [| reflexivity].
  pose proof (walktree_keeps (default [] (ignore cfg)) (mktime env time_tuple)
                (source_tree env (source cfg)) (source cfg) ([], w)) as H.
  destruct (walktree _ _ _ _ _ _ _) as [completed [files w1]]. cbn [fst snd] in H.
  destruct completed; cbn [fst snd]; rewrite proj_logging; exact H.
Qed.

End WalkKeeps.

Lemma scan_keeps_other_lists env task_id fr w j :
  j ≠ slot (taskFiles fr) task_id →
  taskFiles (scan_source_for_sync env task_id fr w).1.2 !! j = taskFiles fr !! j.
Proof.
  intros Hj. unfold scan_source_for_sync.
  destruct (taskFiles fr !! slot (taskFiles fr) task_id); simpl; [| reflexivity].
  assert (H1 : (<[slot (taskFiles fr) task_id := []]> (taskFiles fr)) !! j = taskFiles fr !! j)
    by (apply list_lookup_insert_ne; congruence).
  destruct (taskConfigs fr !! _) as [cfg |]; simpl; [| exact H1].
  destruct (synced cfg) as [since |]; simpl; [| exact H1].
  destruct (strptime since) as [time_tuple |]; simpl; [| exact H1].
  destruct (walktree _ _ _ _ _ _ _) as [completed [files w1]].
  destruct completed; simpl;
    (rewrite list_lookup_insert_ne by congruence); exact H1.
Qed.

(** X9.  A scan reads the source only: it leaves the target tree and the
    record of evictor invocations as they were, changes no task
    configuration and no stage flag, and touches no candidate list but
    that of its own task. *)
Theorem scan_touches_only_its_candidate_list env task_id fr w :
  let r := scan_source_for_sync env task_id fr w in
  target_fs r.2 = target_fs w ∧
  evict_log r.2 = evict_log w ∧
  taskConfigs r.1.2 = taskConfigs fr ∧
  (run_scan r.1.2, run_copy r.1.2, run_evict r.1.2) = (run_scan fr, run_copy fr, run_evict fr) ∧
  ∀ j, j ≠ slot (taskFiles fr) task_id → taskFiles r.1.2 !! j = taskFiles fr !! j.
Proof.
  cbv zeta. split; [| split; [| split; [| split]]].
  - apply (scan_keeps target_fs); reflexivity.
  - apply (scan_keeps evict_log); reflexivity.
  - apply scan_keeps_configs.
  - unfold scan_source_for_sync.
    destruct (taskFiles fr !! _); simpl; [| reflexivity].
    destruct (taskConfigs fr !! _) as [cfg |]; simpl; [| reflexivity].
    destruct (synced cfg) as [since |]; simpl; [| reflexivity].
    destruct (strptime since) as [time_tuple |]; simpl; [| reflexivity].
    destruct (walktree _ _ _ _ _ _ _) as [completed [files w1]].
    destruct completed; reflexivity.
  - intros j Hj. apply scan_keeps_other_lists. exact Hj.
Qed.

(** ** Task orchestrator: the scan-only run *)

(** X10.  With the copy stage switched off a run is a dry run: whatever the
    scan finds and whenever the stop flag is set, the target tree is not
    written, the evictor is not invoked and no task configuration (so no
    watermark) changes. *)
Theorem scan_only_run_is_a_dry_run env task_id fr w :
  run_copy fr = false →
  let r := run_task_logic env task_id fr w in
  target_fs r.2 = target_fs w ∧
  evict_log r.2 = evict_log w ∧
  taskConfigs r.1.2 = taskConfigs fr.
Proof.
  intros Hcopy. cbv zeta. unfold run_task_logic.
  destruct (taskFiles fr !! _); [| repeat split].
  destruct (run_scan fr); [| repeat split].
  set (w0 := CallAfter (Status_SetLabel task_id Scanning) w).
  pose proof (scan_keeps target_fs ltac:(reflexivity) ltac:(reflexivity) ltac:(reflexivity)
                env task_id fr w0) as Ht.
  pose proof (scan_keeps evict_log ltac:(reflexivity) ltac:(reflexivity) ltac:(reflexivity)
                env task_id fr w0) as He.
  destruct (scan_keeps_configs env task_id fr w0) as (Hc & Hrc & _ & _).
  destruct (scan_source_for_sync env task_id fr w0) as [[res fr1] w1].
  cbn [fst snd] in *. rewrite Hcopy in Hrc.
  destruct res as [files_to_sync | e]; [| repeat split; assumption].
  destruct (files_to_sync =? 0)%nat; [repeat split; assumption |].
  unfold copy_stage. rewrite Hrc. repeat split; assumption.
Qed.

Lemma scan_only_run_is_a_dry_run_witness :
  let fr := with_copy false (demo_frame false []) in
  let r := run_task_logic demo_env 1 fr empty_world in
  target_fs r.2 = target_fs empty_world ∧
  evict_log r.2 = evict_log empty_world ∧
  taskConfigs r.1.2 = taskConfigs fr.
Proof.
  apply (scan_only_run_is_a_dry_run demo_env 1 (with_copy false (demo_frame false []))
           empty_world).
  reflexivity.
Defined.

(** ** Ignore matcher *)

Lemma starts_with_spec p : ∀ s, starts_with p s = true ↔ ∃ rest, s = p ++ rest.
Proof.
  induction p as [| a p IH]; intros s; simpl.
  { split; [intros _; exists s; reflexivity | reflexivity]. }
  destruct s as [| b s].
  { split; [discriminate | intros [rest H]; discriminate]. }
  rewrite andb_true_iff, Ascii.eqb_eq, IH. split.
  - intros [-> [rest ->]]. exists rest. reflexivity.
  - intros [rest H]. injection H as -> ->. split; [reflexivity | exists rest; reflexivity].
Qed.

Lemma ends_with_spec p s : ends_with p s = true ↔ ∃ front, s = front ++ p.
Proof.
  unfold ends_with. rewrite starts_with_spec. split.
  - intros [rest H]. exists (rev rest).
    rewrite <- (rev_involutive s), H, rev_app_distr, rev_involutive. reflexivity.
  - intros [front ->]. exists (rev front). apply rev_app_distr.
Qed.

Lemma rule_matches_spec _fl r :
  rule_matches _fl r = true ↔
  ∃ pattern,
    (pattern ∈ startswith r ∧ ∃ rest, _fl = lower pattern ++ rest) ∨
    (pattern ∈ endswith r ∧ ∃ front, _fl = front ++ lower pattern).
Proof.
  unfold rule_matches. rewrite orb_true_iff, !existsb_exists. split.
  - intros [(p & Hin & H) | (p & Hin & H)]; exists p; [left | right];
      (split; [apply list_elem_of_In; exact Hin |]).
    + apply starts_with_spec. exact H.
    + apply ends_with_spec. exact H.
  - intros (p & [[Hin H] | [Hin H]]); [left | right]; exists p;
      (split; [apply list_elem_of_In; exact Hin |]).
    + apply starts_with_spec. exact H.
    + apply ends_with_spec. exact H.
Qed.

(** X11.  A name is ignored exactly when, both sides taken in lower case, some
    [startswith] pattern of some rule is a prefix of it or some
    [endswith] pattern is a suffix of it.  So an empty pattern in either
    list makes the task ignore every name. *)
Theorem ignored_iff_some_pattern_fits ignore_config filename :
  (should_ignore ignore_config filename = true ↔
   ∃ r pattern,
     r ∈ ignore_config ∧
     ((pattern ∈ startswith r ∧ ∃ rest, lower filename = lower pattern ++ rest) ∨
      (pattern ∈ endswith r ∧ ∃ front, lower filename = front ++ lower pattern))) ∧
  ((∃ r, r ∈ ignore_config ∧ ("" ∈ startswith r ∨ "" ∈ endswith r)) →
   should_ignore ignore_config filename = true).
Proof.
  assert (Hiff : should_ignore ignore_config filename = true ↔
    ∃ r pattern,
      r ∈ ignore_config ∧
      ((pattern ∈ startswith r ∧ ∃ rest, lower filename = lower pattern ++ rest) ∨
       (pattern ∈ endswith r ∧ ∃ front, lower filename = front ++ lower pattern))).
  { unfold should_ignore. rewrite existsb_exists. split.
    - intros (r & Hin & H). apply rule_matches_spec in H as [p H].
      exists r, p. split; [apply list_elem_of_In; exact Hin | exact H].
    - intros (r & p & Hin & H). exists r.
      split; [apply list_elem_of_In; exact Hin |].
      apply rule_matches_spec. exists p. exact H. }
  split; [exact Hiff |].
  intros (r & Hin & H). apply Hiff. exists r, "". split; [exact Hin |].
  destruct H as [H | H]; [left | right]; (split; [exact H |]).
  - exists (lower filename). reflexivity.
  - exists (lower filename). symmetry. apply app_nil_r.
Qed.

(** ** The watermark: written by [strftime], read back by [strptime] *)

Lemma match_re_grp alts re' s m r gs rest :
  first_fit alts s = Some (m, r) →
  match_re re' r = Some (gs, rest) →
  match_re (Grp alts :: re') s = Some (m :: gs, rest).
Proof.
  intros Hfit Hrest. simpl.
  induction alts as [| a alts IH]; simpl in *; [discriminate |].
  destruct (match_cls a s) as [[m' r'] |].
  - injection Hfit as -> ->. rewrite Hrest. reflexivity.
  - exact (IH Hfit).
Qed.

Lemma nat_of_digit_char d : (d < 10)%nat → nat_of_ascii (digit_char d) = (48 + d)%nat.
Proof. intros H. unfold digit_char. apply nat_ascii_embedding. lia. Qed.

Lemma digit_digit_char d : (d < 10)%nat → digit (digit_char d) = true.
Proof.
  intros H. unfold digit, between. rewrite nat_of_digit_char by exact H.
  apply andb_true_iff. split; apply Nat.leb_le; lia.
Qed.

Lemma space_digit_char d : (d < 10)%nat → space_cls (digit_char d) = false.
Proof.
  intros H. unfold space_cls, between. rewrite nat_of_digit_char by exact H.
  apply orb_false_iff. split.
  - apply andb_false_iff. right. apply Nat.leb_gt. lia.
  - apply Nat.eqb_neq. lia.
Qed.

Lemma int_of_two_digits n : (n < 100)%nat → int_of (two_digits n) = n.
Proof.
  intros H. unfold int_of, two_digits. cbn [fold_left].
  assert (H1 : (n / 10 < 10)%nat) by (apply Nat.Div0.div_lt_upper_bound; lia).
  assert (H2 : (n mod 10 < 10)%nat) by (apply Nat.mod_upper_bound; lia).
  rewrite !digit_digit_char, !nat_of_digit_char by assumption.
  pose proof (Nat.div_mod_eq n 10). lia.
Qed.

Lemma int_of_four_digits n : (Z.of_nat n < 10000)%Z → int_of (four_digits n) = n.
Proof.
  intros H. unfold int_of, four_digits. cbn [fold_left].
  assert (H0 : (n / 1000 < 10)%nat) by (apply Nat.Div0.div_lt_upper_bound; lia).
  assert (H1 : (n / 100 mod 10 < 10)%nat) by (apply Nat.mod_upper_bound; lia).
  assert (H2 : (n / 10 mod 10 < 10)%nat) by (apply Nat.mod_upper_bound; lia).
  assert (H3 : (n mod 10 < 10)%nat) by (apply Nat.mod_upper_bound; lia).
  rewrite !digit_digit_char, !nat_of_digit_char by assumption.
  pose proof (Nat.div_mod_eq n 10) as E1.
  pose proof (Nat.div_mod_eq (n / 10) 10) as E2.
  pose proof (Nat.div_mod_eq (n / 100) 10) as E3.
  rewrite (Nat.Div0.div_div n 10 10) in E2.
  rewrite (Nat.Div0.div_div n 100 10) in E3.
  change (10 * 10)%nat with 100%nat in E2. change (100 * 10)%nat with 1000%nat in E3.
  assert (E4 : (n / 1000 mod 10 = n / 1000)%nat) by (apply Nat.mod_small; exact H0).
  lia.
Qed.

Lemma match_re_lit c re' s : match_re (Lit c :: re') (c :: s) = match_re re' s.
Proof. cbn [match_re]. rewrite Ascii.eqb_refl. reflexivity. Qed.

Lemma match_re_ws re' h s :
  (h < 100)%nat →
  match_re (Ws :: re') (" "%char :: two_digits h ++ s) = match_re re' (two_digits h ++ s).
Proof.
  intros H.
  assert (H1 : (h / 10 < 10)%nat) by (apply Nat.Div0.div_lt_upper_bound; lia).
  unfold two_digits. cbn [match_re app].
  change (space_cls " "%char) with true. cbv iota.
  rewrite (space_digit_char _ H1). reflexivity.
Qed.

Tactic Notation "by_cases" ident(n) integer(k) :=
  do k (destruct n as [| n]; [try lia; vm_compute; reflexivity |]); lia.

Lemma fit_Y y s :
  (Z.of_nat y < 10000)%Z →
  first_fit [[digit; digit; digit; digit]] (four_digits y ++ s) = Some (four_digits y, s).
Proof.
  intros H.
  assert (H0 : (y / 1000 < 10)%nat) by (apply Nat.Div0.div_lt_upper_bound; lia).
  assert (H1 : (y / 100 mod 10 < 10)%nat) by (apply Nat.mod_upper_bound; lia).
  assert (H2 : (y / 10 mod 10 < 10)%nat) by (apply Nat.mod_upper_bound; lia).
  assert (H3 : (y mod 10 < 10)%nat) by (apply Nat.mod_upper_bound; lia).
  unfold four_digits. cbn [app first_fit match_cls].
  rewrite !digit_digit_char by assumption. reflexivity.
Qed.

Lemma fit_m m s :
  (1 ≤ m ≤ 12)%nat →
  first_fit [[one_of "1"; between 48 50]; [one_of "0"; between 49 57]; [between 49 57]]
            (two_digits m ++ s) = Some (two_digits m, s).
Proof. intros H. by_cases m 13. Qed.

Lemma fit_d d s :
  (1 ≤ d ≤ 31)%nat →
  first_fit [[one_of "3"; between 48 49]; [between 49 50; digit];
             [one_of "0"; between 49 57]; [between 49 57]; [one_of " "; between 49 57]]
            (two_digits d ++ s) = Some (two_digits d, s).
Proof. intros H. by_cases d 32. Qed.

Lemma fit_H h s :
  (h ≤ 23)%nat →
  first_fit [[one_of "2"; between 48 51]; [between 48 49; digit]; [digit]]
            (two_digits h ++ s) = Some (two_digits h, s).
Proof. intros H. by_cases h 24. Qed.

Lemma fit_M m s :
  (m ≤ 59)%nat →
  first_fit [[between 48 53; digit]; [digit]] (two_digits m ++ s) = Some (two_digits m, s).
Proof. intros H. by_cases m 60. Qed.

Lemma fit_S sec s :
  (sec ≤ 61)%nat →
  first_fit [[one_of "6"; between 48 49]; [between 48 53; digit]; [digit]]
            (two_digits sec ++ s) = Some (two_digits sec, s).
Proof. intros H. by_cases sec 62. Qed.

Lemma days_in_month_le y m : (days_in_month y m ≤ 31)%nat.
Proof.
  unfold days_in_month.
  do 12 (destruct m as [| m]; [try destruct (is_leap y); lia |]). lia.
Qed.

Lemma strptime_strftime t : valid_time t → strptime (strftime t) = Some t.
Proof.
  destruct t as [Y M D h mi sec].
  intros (HY & HM & HD & Hh & Hmi & Hs). cbn [tm_year tm_mon tm_mday tm_hour tm_min tm_sec] in *.
  pose proof (days_in_month_le Y M) as Hdim.
  unfold strptime, strftime. cbn [tm_year tm_mon tm_mday tm_hour tm_min tm_sec].
  rewrite list_ascii_of_string_of_list_ascii.
  assert (E : match_re synced_format
                (four_digits Y ++ "-"%char :: two_digits M ++ "-"%char ::
                 two_digits D ++ " "%char :: two_digits h ++ ":"%char ::
                 two_digits mi ++ ":"%char :: two_digits sec)
              = Some ([four_digits Y; two_digits M; two_digits D;
                       two_digits h; two_digits mi; two_digits sec], [])).
  { unfold synced_format, re_Y, re_m, re_d, re_H, re_M, re_S.
    eapply match_re_grp; [apply fit_Y; lia |]. rewrite match_re_lit.
    eapply match_re_grp; [apply fit_m; lia |]. rewrite match_re_lit.
    eapply match_re_grp; [apply fit_d; lia |]. rewrite match_re_ws by lia.
    eapply match_re_grp; [apply fit_H; lia |]. rewrite match_re_lit.
    eapply match_re_grp; [apply fit_M; lia |]. rewrite match_re_lit.
    eapply match_re_grp; [rewrite <- (app_nil_r (two_digits sec)) at 1; apply fit_S; lia |].
    reflexivity. }
  rewrite E.
  rewrite int_of_four_digits by lia.
  rewrite !int_of_two_digits by lia.
  assert (H1 : (1 <=? Y)%nat = true) by (apply Nat.leb_le; lia).
  assert (H2 : (D <=? days_in_month Y M)%nat = true) by (apply Nat.leb_le; lia).
  rewrite H1, H2. reflexivity.
Qed.

Lemma scan_files_length env task_id fr w :
  length (taskFiles (scan_source_for_sync env task_id fr w).1.2) = length (taskFiles fr).
Proof.
  unfold scan_source_for_sync.
  destruct (taskFiles fr !! _); cbn [fst snd]; [| reflexivity].
  destruct (taskConfigs _ !! _) as [cfg |]; cbn [fst snd];
    [| cbn; rewrite length_insert; reflexivity].
  destruct (synced cfg) as [since |]; cbn [fst snd];
    [| cbn; rewrite length_insert; reflexivity].
  destruct (strptime since) as [time_tuple |]; cbn [fst snd];
    [| cbn; rewrite length_insert; reflexivity].
  destruct (walktree _ _ _ _ _ _ _) as [completed [files w1]].
  destruct completed; cbn; rewrite !length_insert; reflexivity.
Qed.

Lemma store_synced_files task_id stamp fr :
  taskFiles (store_synced task_id stamp fr) = taskFiles fr.
Proof. unfold store_synced. destruct (taskConfigs fr !! _); reflexivity. Qed.

Lemma copy_stage_files env task_id n fr w :
  taskFiles (copy_stage env task_id n fr w).1.2 = taskFiles fr.
Proof.
  unfold copy_stage. destruct (run_copy fr); [| reflexivity].
  destruct (sync_to_target_and_evict _ _ _ _ _) as [[[synced evicted] | e] w1];
    [| reflexivity].
  destruct (if (synced =? 0)%nat then _ else _) as [stopped w2].
  destruct stopped; [reflexivity |]. cbn [fst snd]. apply store_synced_files.
Qed.

Lemma run_task_logic_files_length env task_id fr w :
  length (taskFiles (run_task_logic env task_id fr w).1.2) = length (taskFiles fr).
Proof.
  unfold run_task_logic.
  destruct (taskFiles fr !! _); [| reflexivity].
  destruct (run_scan fr); [| reflexivity].
  match goal with |- context [scan_source_for_sync ?e ?i ?f ?w0] =>
    pose proof (scan_files_length e i f w0) as Hlen;
    destruct (scan_source_for_sync e i f w0) as [[res fr1] w1] end.
  cbn [fst snd] in Hlen.
  destruct res as [files_to_sync | e]; [| exact Hlen].
  destruct (files_to_sync =? 0)%nat; [exact Hlen |].
  rewrite copy_stage_files. exact Hlen.
Qed.

Lemma slot_length {A B} (xs : list A) (ys : list B) task_id :
  length xs = length ys → slot xs task_id = slot ys task_id.
Proof. intros H. unfold slot. rewrite H. reflexivity. Qed.

(** X12.  The watermark that a completed run stores is one the next scan can
    read: written by [strftime] for a local time of a four-digit year, it
    is parsed back by [strptime] to the same time, so the next scan of the
    task compares the files with the time of that run and does not raise. *)
Theorem next_scan_reads_the_stored_watermark env task_id fr w t :
  strftime_now env = strftime t →
  valid_time t →
  sync_completed env task_id fr w →
  let fr' := (run_task_logic env task_id fr w).1.2 in
  watermark task_id fr' = Some (strftime t) ∧
  ∀ env2 w2,
    stamp_time env2 (watermark task_id fr') = Some (mktime env2 t) ∧
    ∃ n, (scan_source_for_sync env2 task_id fr' w2).1.1 = Return n.
Proof.
  intros Hstamp Hvalid Hdone fr'.
  assert (Hw : watermark task_id fr' = Some (strftime t)).
  { destruct (run_task_logic_configs env task_id fr w) as [(_ & Hsome & E) | (Hn & _)];
      [| contradiction].
    fold fr' in E. rewrite (watermark_ext _ _ _ E), <- Hstamp.
    apply watermark_stored. exact Hsome. }
  split; [exact Hw |].
  intros env2 w2. rewrite Hw. unfold stamp_time.
  rewrite (strptime_strftime t Hvalid). split; [reflexivity |].
  assert (Hfiles : is_Some (taskFiles fr' !! slot (taskFiles fr') task_id)).
  { pose proof (run_task_logic_files_length env task_id fr w) as Hlen. fold fr' in Hlen.
    destruct Hdone as (_ & n & fr1 & w1 & _ & _ & _ & Hscan & _).
    unfold scan_source_for_sync in Hscan.
    destruct (taskFiles fr !! slot (taskFiles fr) task_id) eqn:Hold; [| discriminate].
    apply lookup_lt_is_Some. rewrite (slot_length _ (taskFiles fr)), Hlen by exact Hlen.
    eapply lookup_lt_Some. exact Hold. }
  destruct Hfiles as [old Hold].
  unfold watermark in Hw.
  destruct (taskConfigs fr' !! slot (taskConfigs fr') task_id) as [cfg |] eqn:Hcfg;
    [| discriminate].
  unfold scan_source_for_sync. rewrite Hold. cbn [taskConfigs with_taskFiles].
  rewrite Hcfg, Hw, (strptime_strftime t Hvalid).
  destruct (walktree _ _ _ _ _ _ _) as [completed [files w1]].
  destruct completed; eexists; reflexivity.
Qed.

Lemma next_scan_reads_the_stored_watermark_witness :
  watermark 1 (run_task_logic demo_env 1 (demo_frame true []) empty_world).1.2
  = Some "2026-11-04 12:00:00" ∧
  stamp_time demo_env
    (watermark 1 (run_task_logic demo_env 1 (demo_frame true []) empty_world).1.2)
  = Some (mktime_demo (mk_tm 2026 11 4 12 0 0)).
Proof.
  assert (Hvalid : valid_time (mk_tm 2026 11 4 12 0 0)).
  { unfold valid_time. cbn [tm_year tm_mon tm_mday tm_hour tm_min tm_sec].
    split; [lia |]. unfold days_in_month. lia. }
  destruct (next_scan_reads_the_stored_watermark demo_env 1 (demo_frame true []) empty_world
              (mk_tm 2026 11 4 12 0 0) eq_refl Hvalid demo_run_completes) as [H1 H2].
  split; [exact H1 | exact (proj1 (H2 demo_env empty_world))].
Defined.

(** ** The window *)

Lemma same_rows_refl g : same_rows g g.
Proof. repeat split. Qed.

Lemma same_rows_trans g1 g2 g3 : same_rows g1 g2 → same_rows g2 g3 → same_rows g1 g3.
Proof.
  intros (A1 & A2 & A3 & A4 & A5 & A6 & A7) (B1 & B2 & B3 & B4 & B5 & B6 & B7).
  repeat split; congruence.
Qed.

Lemma aligned_same_rows tasks g g' : aligned tasks g → same_rows g g' → aligned tasks g'.
Proof.
  intros (A1 & A2 & A3 & A4 & A5 & A6 & A7) (B1 & B2 & B3 & B4 & B5 & B6 & B7).
  repeat split; congruence.
Qed.

Lemma at_row_length {A} (f : A → A) task_id xs ys :
  at_row f task_id xs = Some ys → length ys = length xs.
Proof.
  unfold at_row. destruct (xs !! _); [| discriminate].
  intros [= <-]. apply length_insert.
Qed.

Lemma default_at_row_length {A} (f : A → A) task_id xs :
  length (default xs (at_row f task_id xs)) = length xs.
Proof.
  destruct (at_row f task_id xs) as [ys |] eqn:E; [| reflexivity].
  exact (at_row_length _ _ _ _ E).
Qed.

Lemma insert_btn_ids pos v btn btns :
  btns !! pos = Some btn →
  map btn_id (<[pos := set_enabled v btn]> btns) = map btn_id btns.
Proof.
  intros H. apply list_eq. intros i. rewrite !list_lookup_fmap.
  destruct (decide (i = pos)) as [-> | Hne].
  - rewrite list_lookup_insert_eq by (eapply lookup_lt_Some; exact H).
    rewrite H. reflexivity.
  - rewrite list_lookup_insert_ne by congruence. reflexivity.
Qed.

Lemma at_row_btn_ids v task_id btns btns' :
  at_row (set_enabled v) task_id btns = Some btns' → map btn_id btns' = map btn_id btns.
Proof.
  unfold at_row. destruct (btns !! _) as [btn |] eqn:E; [| discriminate].
  intros [= <-]. apply insert_btn_ids. exact E.
Qed.

Lemma launch_row_same_rows task_id g : same_rows g (launch_row task_id g).2.
Proof.
  unfold launch_row.
  destruct (at_row (set_enabled false) task_id (taskBtns (start_worker task_id g)))
    as [btns |] eqn:Eb; [| repeat split].
  apply at_row_btn_ids in Eb. cbn [taskBtns start_worker] in Eb.
  cbn [taskLabels with_taskBtns start_worker].
  destruct (taskLabels g !! _) as [l |]; [| repeat split; assumption].
  cbn [taskStatus with_taskBtns start_worker].
  destruct (at_row _ task_id (taskStatus g)) as [sts |] eqn:Es;
    [| repeat split; assumption].
  apply at_row_length in Es. repeat split; assumption.
Qed.

Lemma launch_rows_same_rows ids : ∀ g, same_rows g (launch_rows ids g).2.
Proof.
  induction ids as [| task_id ids IH]; intros g; [apply same_rows_refl |].
  cbn [launch_rows].
  pose proof (launch_row_same_rows task_id g) as H.
  destruct (launch_row task_id g) as [[[] | e] g1]; cbn [snd] in *.
  - eapply same_rows_trans; [exact H | apply IH].
  - exact H.
Qed.

Lemma on_launch_all_tasks_same_rows g : same_rows g (on_launch_all_tasks g).2.
Proof.
  unfold on_launch_all_tasks.
  pose proof (launch_rows_same_rows
                (seq 1 (length (taskBtns (with_stop_requested false g))))
                (with_stop_requested false g)) as H.
  destruct (launch_rows _ _) as [[[] | e] g1]; exact H.
Qed.

Lemma on_launch_task_same_rows pos g : same_rows g (on_launch_task pos g).2.
Proof.
  unfold on_launch_task.
  destruct (taskBtns g !! pos) as [btn |] eqn:Eb; [| apply same_rows_refl].
  destruct (_ && _); [| apply same_rows_refl].
  pose proof (insert_btn_ids pos false btn (taskBtns g) Eb) as Hids.
  cbn [taskStatus with_btnStop with_btnRunAll with_taskBtns start_worker
       with_stop_requested].
  destruct (at_row _ (btn_id btn) (taskStatus g)) as [sts |] eqn:Es;
    [| repeat split; assumption].
  apply at_row_length in Es. repeat split; assumption.
Qed.

Lemma on_task_complete_same_rows task_id g : same_rows g (on_task_complete task_id g).2.
Proof.
  unfold on_task_complete.
  destruct (at_row (set_enabled true) task_id (taskBtns g)) as [btns |] eqn:Eb;
    [| apply same_rows_refl].
  apply at_row_btn_ids in Eb.
  cbn [taskGauges with_btnStop with_btnRunAll with_taskBtns].
  destruct (at_row _ task_id (taskGauges g)) as [gauges |] eqn:Eg;
    [| repeat split; assumption].
  apply at_row_length in Eg. repeat split; assumption.
Qed.

Lemma run_call_same_rows c g : same_rows g (run_call c g).2.
Proof.
  destruct c; cbn [run_call snd];
    try apply on_task_complete_same_rows;
    repeat split; cbn; try reflexivity; apply default_at_row_length.
Qed.

Lemma on_checkbox_lists cb f :
  taskConfigs (on_checkbox cb f) = taskConfigs f ∧ taskFiles (on_checkbox cb f) = taskFiles f.
Proof.
  destruct cb; unfold on_checkbox; cbn;
    match goal with |- context [if ?b then _ else _] => destruct b end; split; reflexivity.
Qed.

Lemma click_lists cb f :
  taskConfigs (click cb f) = taskConfigs f ∧ taskFiles (click cb f) = taskFiles f.
Proof.
  unfold click. destruct (on_checkbox_lists cb (toggle cb f)) as [-> ->].
  destruct cb; split; reflexivity.
Qed.

Lemma handle_same_rows e g : same_rows g (handle e g).
Proof.
  destruct e as [pos | | | cb | c]; cbn [handle].
  - destruct (taskBtns g !! pos) as [btn |]; [| apply same_rows_refl].
    destruct (btn_enabled btn); [apply on_launch_task_same_rows | apply same_rows_refl].
  - destruct (btnRunAll g); [apply on_launch_all_tasks_same_rows | apply same_rows_refl].
  - destruct (btnStop g); repeat split.
  - destruct (click_lists cb (frame g)) as [H1 H2].
    repeat split; cbn; congruence.
  - apply run_call_same_rows.
Qed.

Lemma handle_all_same_rows events : ∀ g, same_rows g (handle_all events g).
Proof.
  induction events as [| e events IH]; intros g; [apply same_rows_refl |].
  cbn [handle_all fold_left].
  eapply same_rows_trans; [apply handle_same_rows | apply IH].
Qed.

Lemma create_rows_spec rest :
  ∀ g,
    let g' := fold_left (λ g task, create_run_task_row task g) rest g in
    frame g' = with_taskFiles (taskFiles (frame g) ++ map (λ _, []) rest) (frame g) ∧
    length (taskSizers g') = (length (taskSizers g) + length rest)%nat ∧
    taskLabels g' = taskLabels g ++ map label rest ∧
    map btn_id (taskBtns g')
    = map btn_id (taskBtns g) ++ seq (length (taskBtns g) + 1) (length rest) ∧
    length (taskGauges g') = (length (taskGauges g) + length rest)%nat ∧
    length (taskStatus g') = (length (taskStatus g) + length rest)%nat ∧
    (Forall (λ b, btn_enabled b = true) (taskBtns g) →
     Forall (λ b, btn_enabled b = true) (taskBtns g')) ∧
    workers g' = workers g ∧ stop_requested g' = stop_requested g.
Proof.
  induction rest as [| task rest IH]; intros g; cbn [fold_left].
  { cbn. rewrite !app_nil_r, !Nat.add_0_r. destruct (frame g). repeat split; auto. }
  destruct (IH (create_run_task_row task g))
    as (H1 & H2 & H3 & H4 & H5 & H6 & H7 & H8 & H9).
  cbv zeta. rewrite H1, H2, H3, H4, H5, H6, H8, H9. cbn.
  rewrite !length_app, !map_app, <- !app_assoc. cbn.
  repeat split; try lia.
  - f_equal. f_equal. rewrite !Nat.add_1_r. reflexivity.
  - intros Hall. apply H7. cbn. apply Forall_app. split; [exact Hall |].
    constructor; [reflexivity | constructor].
Qed.

Lemma init_window_spec tasks :
  frame (init_window tasks) = init_frame tasks ∧
  aligned tasks (init_window tasks) ∧
  Forall (λ b, btn_enabled b = true) (taskBtns (init_window tasks)) ∧
  btnRunAll (init_window tasks) = true ∧ btnStop (init_window tasks) = false ∧
  stop_requested (init_window tasks) = false ∧ workers (init_window tasks) = [].
Proof.
  unfold init_window.
  match goal with |- context [fold_left ?f tasks ?g0] =>
    destruct (create_rows_spec tasks g0) as (H1 & H2 & H3 & H4 & H5 & H6 & H7 & H8 & H9);
    set (g := fold_left f tasks g0) in * end.
  cbn in H1, H2, H3, H4, H5, H6, H7, H8, H9.
  unfold aligned. cbn. rewrite H1. cbn.
  repeat split; auto; rewrite ?length_map; auto.
Qed.

Lemma aligned_btn tasks g pos btn :
  aligned tasks g → taskBtns g !! pos = Some btn →
  btn_id btn = S pos ∧ (pos < length tasks)%nat.
Proof.
  intros (_ & _ & _ & _ & Hids & _ & _) Hb.
  assert (H : map btn_id (taskBtns g) !! pos = Some (btn_id btn))
    by (rewrite list_lookup_fmap, Hb; reflexivity).
  rewrite Hids in H. apply lookup_seq in H as [H1 H2]. split; [lia | exact H2].
Qed.

Lemma aligned_btns_length tasks g : aligned tasks g → length (taskBtns g) = length tasks.
Proof.
  intros (_ & _ & _ & _ & Hids & _ & _).
  rewrite <- (length_map btn_id), Hids. apply length_seq.
Qed.

Lemma at_row_in_range {A} (f : A → A) pos xs :
  (pos < length xs)%nat →
  ∃ x, xs !! pos = Some x ∧ at_row f (S pos) xs = Some (<[pos := f x]> xs).
Proof.
  intros H. destruct (lookup_lt_is_Some_2 xs pos H) as [x Hx].
  exists x. split; [exact Hx |]. unfold at_row. cbn [slot]. rewrite Hx. reflexivity.
Qed.

Lemma on_launch_task_returns tasks g pos :
  aligned tasks g → (on_launch_task pos g).1 = Return tt.
Proof.
  intros Hal. unfold on_launch_task.
  destruct (taskBtns g !! pos) as [btn |] eqn:Eb; [| reflexivity].
  destruct (aligned_btn tasks g pos btn Hal Eb) as [Hid Hpos].
  destruct (_ && _); [| reflexivity].
  cbn [taskStatus with_btnStop with_btnRunAll with_taskBtns start_worker
       with_stop_requested].
  destruct Hal as (_ & _ & _ & _ & _ & _ & Hst).
  destruct (at_row_in_range (λ _, Status_starting_task (btn_id btn)) pos (taskStatus g))
    as (x & _ & E); [lia |].
  rewrite <- Hid in E. rewrite E. reflexivity.
Qed.

Lemma launch_row_spec tasks a g :
  aligned tasks g → (a < length tasks)%nat →
  ∃ b l s,
    taskBtns g !! a = Some b ∧ taskLabels g !! a = Some l ∧ taskStatus g !! a = Some s ∧
    launch_row (S a) g
    = (Return tt,
       with_taskStatus (<[a := Status_starting l]> (taskStatus g))
         (with_taskBtns (<[a := set_enabled false b]> (taskBtns g))
            (start_worker (S a) g))).
Proof.
  intros Hal Ha. pose proof (aligned_btns_length tasks g Hal) as Hlen.
  destruct Hal as (_ & _ & _ & Hlab & _ & _ & Hst).
  destruct (at_row_in_range (set_enabled false) a (taskBtns g)) as (b & Hb & Eb); [lia |].
  assert (Hl : (a < length (taskLabels g))%nat) by (rewrite Hlab, length_map; exact Ha).
  destruct (lookup_lt_is_Some_2 _ _ Hl) as [l El].
  destruct (at_row_in_range (λ _, Status_starting l) a (taskStatus g)) as (s & Hs & Es);
    [lia |].
  exists b, l, s. repeat split; try assumption.
  unfold launch_row. cbn [taskBtns start_worker]. rewrite Eb.
  cbn [taskLabels with_taskBtns start_worker slot]. rewrite El.
  cbn [taskStatus with_taskBtns start_worker]. rewrite Es. reflexivity.
Qed.

Lemma launch_rows_spec tasks m :
  ∀ a g,
    aligned tasks g → (a + m ≤ length tasks)%nat →
    ∃ g',
      launch_rows (seq (S a) m) g = (Return tt, g') ∧
      workers g' = workers g ++ seq (S a) m ∧
      taskGauges g' = taskGauges g ∧ stop_requested g' = stop_requested g ∧
      btnRunAll g' = btnRunAll g ∧ btnStop g' = btnStop g ∧ frame g' = frame g ∧
      (∀ pos, taskBtns g' !! pos
              = if bool_decide (a ≤ pos < a + m)%nat
                then set_enabled false <$> taskBtns g !! pos
                else taskBtns g !! pos) ∧
      (∀ pos, taskStatus g' !! pos
              = if bool_decide (a ≤ pos < a + m)%nat
                then Status_starting <$> taskLabels g !! pos
                else taskStatus g !! pos).
Proof.
  induction m as [| m IH]; intros a g Hal Hm.
  { exists g. cbn [seq launch_rows]. rewrite app_nil_r.
    repeat split; intros pos; rewrite bool_decide_eq_false_2 by lia; reflexivity. }
  destruct (launch_row_spec tasks a g Hal ltac:(lia)) as (b & l & s & Hb & Hl & Hs & E).
  set (g1 := with_taskStatus _ _) in E.
  assert (Hal1 : aligned tasks g1).
  { eapply aligned_same_rows; [exact Hal |].
    pose proof (launch_row_same_rows (S a) g) as H. rewrite E in H. exact H. }
  destruct (IH (S a) g1 Hal1 ltac:(lia)) as (g' & R & W & G & St & RA & BS & F & Bt & Ss).
  exists g'. cbn [seq launch_rows]. rewrite E, R.
  split; [reflexivity |]. split.
  { rewrite W. subst g1. cbn. rewrite <- app_assoc. reflexivity. }
  split; [rewrite G; reflexivity |]. split; [rewrite St; reflexivity |].
  split; [rewrite RA; reflexivity |]. split; [rewrite BS; reflexivity |].
  split; [rewrite F; reflexivity |]. split.
  - intros pos. rewrite Bt. subst g1. cbn [taskBtns with_taskStatus with_taskBtns].
    destruct (decide (pos = a)) as [-> | Hne].
    + rewrite bool_decide_eq_false_2 by lia. rewrite bool_decide_eq_true_2 by lia.
      rewrite list_lookup_insert_eq by (eapply lookup_lt_Some; exact Hb).
      rewrite Hb. reflexivity.
    + rewrite list_lookup_insert_ne by congruence.
      destruct (decide (S a ≤ pos < S a + m)%nat).
      * rewrite !bool_decide_eq_true_2 by lia. reflexivity.
      * rewrite !bool_decide_eq_false_2 by lia. reflexivity.
  - intros pos. rewrite Ss. subst g1.
    cbn [taskStatus taskLabels with_taskStatus with_taskBtns start_worker].
    destruct (decide (pos = a)) as [-> | Hne].
    + rewrite bool_decide_eq_false_2 by lia. rewrite bool_decide_eq_true_2 by lia.
      rewrite list_lookup_insert_eq by (eapply lookup_lt_Some; exact Hs).
      rewrite Hl. reflexivity.
    + rewrite list_lookup_insert_ne by congruence.
      destruct (decide (S a ≤ pos < S a + m)%nat).
      * rewrite !bool_decide_eq_true_2 by lia. reflexivity.
      * rewrite !bool_decide_eq_false_2 by lia. reflexivity.
Qed.

Lemma on_launch_all_tasks_spec tasks g :
  aligned tasks g →
  ∃ g',
    on_launch_all_tasks g = (Return tt, g') ∧
    workers g' = workers g ++ seq 1 (length tasks) ∧
    stop_requested g' = false ∧ btnRunAll g' = false ∧ btnStop g' = true ∧
    taskGauges g' = taskGauges g ∧ frame g' = frame g ∧
    (∀ pos, taskBtns g' !! pos = set_enabled false <$> taskBtns g !! pos) ∧
    (∀ pos, (pos < length tasks)%nat →
            taskStatus g' !! pos = Status_starting <$> taskLabels g !! pos).
Proof.
  intros Hal. pose proof (aligned_btns_length tasks g Hal) as Hlen.
  unfold on_launch_all_tasks. cbn [taskBtns with_stop_requested]. rewrite Hlen.
  destruct (launch_rows_spec tasks (length tasks) 0 (with_stop_requested false g))
    as (g' & R & W & G & St & RA & BS & F & Bt & Ss); [exact Hal | lia |].
  rewrite R. eexists. split; [reflexivity |]. cbn.
  rewrite W, G, F. repeat split; try assumption.
  - intros pos. rewrite Bt. cbn.
    destruct (decide (pos < length tasks)%nat).
    + rewrite bool_decide_eq_true_2 by lia. reflexivity.
    + rewrite bool_decide_eq_false_2 by lia.
      rewrite lookup_ge_None_2 by lia. reflexivity.
  - intros pos Hpos. rewrite Ss. rewrite bool_decide_eq_true_2 by lia. reflexivity.
Qed.

(** X13.  The rows of the window that [__init__] builds belong to the tasks of
    the configuration, one per task with the button identifiers 1, 2,
    ..., and whatever the user clicks and the workers queue afterwards
    they stay so.  In every state so reached a click on a Run button
    passes the check of [on_launch_task], and neither click handler
    raises [IndexError]. *)
Theorem rows_stay_aligned tasks events :
  let g := handle_all events (init_window tasks) in
  frame (init_window tasks) = init_frame tasks ∧
  aligned tasks g ∧
  (∀ pos btn, taskBtns g !! pos = Some btn →
     btn_id btn = S pos ∧
     (on_launch_task pos g).1 = Return tt ∧
     workers (on_launch_task pos g).2 = workers g ++ [S pos]) ∧
  (on_launch_all_tasks g).1 = Return tt.
Proof.
  cbv zeta.
  destruct (init_window_spec tasks) as (Hfr & Hal0 & _).
  assert (Hal : aligned tasks (handle_all events (init_window tasks)))
    by (eapply aligned_same_rows; [exact Hal0 | apply handle_all_same_rows]).
  split; [exact Hfr |]. split; [exact Hal |]. split.
  - intros pos btn Hb.
    destruct (aligned_btn tasks _ pos btn Hal Hb) as [Hid Hpos].
    split; [exact Hid |]. split; [eapply on_launch_task_returns; exact Hal |].
    pose proof (aligned_btns_length tasks _ Hal) as Hlen.
    unfold on_launch_task. rewrite Hb, Hid, Hlen.
    assert (Hok : ((1 <=? S pos) && (S pos <=? length tasks))%nat = true).
    { apply andb_true_iff. split; apply Nat.leb_le; lia. }
    rewrite Hok.
    destruct (at_row _ _ _); reflexivity.
  - destruct (on_launch_all_tasks_spec tasks _ Hal) as (g' & E & _). rewrite E. reflexivity.
Qed.

(** X14.  Run All starts one worker per task in the order of the rows, whether
    or not a worker of the task is already running, clears the stop
    request, disables every Run button and enables Stop.  When the first
    of these tasks is handed back, Stop is disabled and Run All enabled
    again although the Run buttons of the other tasks are still
    disabled. *)
Theorem run_all_then_first_completion tasks g :
  aligned tasks g →
  let g' := (on_launch_all_tasks g).2 in
  workers g' = workers g ++ seq 1 (length tasks) ∧
  stop_requested g' = false ∧ btnRunAll g' = false ∧ btnStop g' = true ∧
  (∀ pos btn, taskBtns g' !! pos = Some btn → btn_enabled btn = false) ∧
  ∀ task_id,
    (1 ≤ task_id ≤ length tasks)%nat →
    let g'' := (on_task_complete task_id g').2 in
    btnStop g'' = false ∧ btnRunAll g'' = true ∧
    ∀ pos btn, taskBtns g'' !! pos = Some btn →
               btn_enabled btn = bool_decide (pos = task_id - 1)%nat.
Proof.
  intros Hal. cbv zeta.
  destruct (on_launch_all_tasks_spec tasks g Hal)
    as (g' & E & W & St & RA & BS & G & F & Bt & Ss).
  rewrite E. cbn [snd].
  assert (Hdis : ∀ pos btn, taskBtns g' !! pos = Some btn → btn_enabled btn = false).
  { intros pos btn Hb. rewrite Bt in Hb.
    destruct (taskBtns g !! pos) as [b |]; [| discriminate].
    injection Hb as <-. reflexivity. }
  repeat (split; [assumption |]).
  intros [| k] Hk; [lia |].
  assert (Hal' : aligned tasks g').
  { eapply aligned_same_rows; [exact Hal |].
    pose proof (on_launch_all_tasks_same_rows g) as H. rewrite E in H. exact H. }
  pose proof (aligned_btns_length tasks g' Hal') as Hlen.
  destruct Hal' as (_ & _ & _ & _ & _ & Hg & _).
  unfold on_task_complete.
  destruct (at_row_in_range (set_enabled true) k (taskBtns g')) as (b & Hb & Eb); [lia |].
  rewrite Eb. cbn [taskGauges with_btnStop with_btnRunAll with_taskBtns].
  destruct (at_row_in_range (SetValue 0) k (taskGauges g')) as (x & Hx & Ex); [lia |].
  rewrite Ex. cbn. repeat split.
  intros pos btn Hpos. rewrite Nat.sub_0_r.
  destruct (decide (pos = k)) as [-> | Hne].
  - rewrite list_lookup_insert_eq in Hpos by lia. injection Hpos as <-.
    rewrite bool_decide_eq_true_2 by reflexivity. reflexivity.
  - rewrite list_lookup_insert_ne in Hpos by congruence.
    rewrite bool_decide_eq_false_2 by exact Hne. eapply Hdis. exact Hpos.
Qed.

Lemma run_all_then_first_completion_witness :
  workers (on_launch_all_tasks (init_window [demo_task; demo_task])).2 = [1; 2]%nat ∧
  btnStop (on_task_complete 1 (on_launch_all_tasks (init_window [demo_task; demo_task])).2).2
  = false.
Proof.
  destruct (run_all_then_first_completion [demo_task; demo_task]
              (init_window [demo_task; demo_task])
              (proj1 (proj2 (init_window_spec [demo_task; demo_task]))))
    as (H1 & _ & _ & _ & _ & H6).
  split; [exact H1 |].
  exact (proj1 (H6 1%nat ltac:(cbn; lia))).
Defined.

(** What a worker queues: calls that hand nothing back, and then, when
    it returns with scanning enabled, the hand-back and the final status
    line. *)
Lemma run_task_logic_queue env task_id fr w :
  let r := run_task_logic env task_id fr w in
  ∃ pre tail,
    ui r.2 = ui w ++ pre ++ tail ∧ hand_backs pre = [] ∧
    match r.1.1 with
    | Return _ =>
        if run_scan fr
        then ∃ s, tail = [On_task_stopped task_id; Status_SetLabel task_id s] ∨
                  tail = [On_task_complete task_id; Status_SetLabel task_id s]
        else tail = []
    | Raise _ => tail = []
    end.
Proof.
  assert (Hnil : ∀ l : list ui_call, l = l ++ [] ++ []) by (intros l; rewrite app_nil_r; reflexivity).
  unfold run_task_logic.
  destruct (taskFiles fr !! _); [| exists [], []; cbn; auto].
  destruct (run_scan fr); [| exists [], []; cbn; auto].
  destruct (scan_ui env task_id fr (CallAfter (Status_SetLabel task_id Scanning) w))
    as [n Hscan].
  destruct (scan_source_for_sync _ _ _ _) as [[[files_to_sync | e] fr1] w1];
    cbn [fst snd ui CallAfter] in Hscan |- *.
  2: { exists ([Status_SetLabel task_id Scanning] ++ repeat (Gauge_Pulse task_id) n), [].
       rewrite Hscan, app_nil_r, <- app_assoc. repeat split.
       rewrite hand_backs_app. apply (gauge_values_pulse task_id n). }
  assert (Hpre1 : hand_backs ([Status_SetLabel task_id Scanning]
                              ++ repeat (Gauge_Pulse task_id) n) = []).
  { rewrite hand_backs_app. apply (gauge_values_pulse task_id n). }
  destruct files_to_sync as [| m]; cbn [Nat.eqb].
  { eexists _, _. cbn [fst snd ui CallAfter poll].
    rewrite Hscan. split; [| split; [exact Hpre1 |]].
    - rewrite <- !app_assoc. cbn. reflexivity.
    - eexists. left. reflexivity. }
  unfold copy_stage. destruct (run_copy fr1).
  2: { eexists _, _. cbn [fst snd ui CallAfter poll].
       rewrite Hscan. split; [| split; [exact Hpre1 |]].
       - rewrite <- !app_assoc. cbn. reflexivity.
       - eexists. right. reflexivity. }
  destruct (pipeline_ui env task_id false fr1 (pipeline_start task_id (S m) fr1 w1))
    as (added & Hpipe & Hadded).
  cbn [pipeline_start ui CallAfter] in Hpipe. rewrite Hscan in Hpipe.
  set (pre2 := [Status_SetLabel task_id Scanning] ++ repeat (Gauge_Pulse task_id) n
               ++ [Gauge_SetRange task_id (S m);
                   Status_SetLabel task_id
                     (if negb (run_evict fr1) then Copying (S m)
                      else Copying_and_evicting (S m))] ++ added).
  assert (Hpre2 : hand_backs pre2 = []).
  { subst pre2. rewrite !hand_backs_app, Hadded.
    rewrite (proj2 (gauge_values_pulse task_id n)). reflexivity. }
  assert (Hui : ∀ w2 : World,
            ui w2 = (((ui w ++ [Status_SetLabel task_id Scanning])
                      ++ repeat (Gauge_Pulse task_id) n)
                     ++ [Gauge_SetRange task_id (S m)])
                    ++ [Status_SetLabel task_id
                          (if negb (run_evict fr1) then Copying (S m)
                           else Copying_and_evicting (S m))] ++ added →
            ui w2 = ui w ++ pre2).
  { intros w2 ->. subst pre2. rewrite <- !app_assoc. reflexivity. }
  destruct (sync_to_target_and_evict _ _ _ _ _) as [[[files_synced files_evicted] | e] w2];
    cbn [fst snd] in Hpipe |- *.
  2: { exists pre2, []. rewrite app_nil_r. split; [| split; [exact Hpre2 | reflexivity]].
       apply Hui. rewrite Hpipe, <- !app_assoc. reflexivity. }
  assert (Hw2 : ui w2 = ui w ++ pre2).
  { apply Hui. rewrite Hpipe, <- !app_assoc. reflexivity. }
  destruct files_synced as [| k]; cbn [Nat.eqb].
  { exists pre2, [On_task_stopped task_id;
                  Status_SetLabel task_id
                    (if stop_at env (polls w2) then Sync_cancelled else No_files_copied)].
    cbn [fst snd ui CallAfter poll]. rewrite Hw2, <- !app_assoc.
    split; [reflexivity |]. split; [exact Hpre2 |]. eexists. left. reflexivity. }
  cbn [poll]. destruct (stop_at env (polls w2)).
  - exists pre2, [On_task_stopped task_id;
                  Status_SetLabel task_id
                    (if stop_at env (S (polls w2)) then Sync_cancelled else No_files_copied)].
    cbn [fst snd ui CallAfter poll]. rewrite Hw2, <- !app_assoc.
    split; [reflexivity |]. split; [exact Hpre2 |]. eexists. left. reflexivity.
  - eexists (pre2 ++ [StaticBox_SetLabel task_id _ _]), _.
    cbn [fst snd ui CallAfter poll]. rewrite Hw2, <- !app_assoc.
    split; [reflexivity |]. split.
    + rewrite hand_backs_app, Hpre2. reflexivity.
    + eexists. right. reflexivity.
Qed.

Lemma run_call_keeps_buttons c g :
  hand_backs [c] = [] →
  let g' := (run_call c g).2 in
  taskBtns g' = taskBtns g ∧ btnRunAll g' = btnRunAll g ∧ btnStop g' = btnStop g ∧
  length (taskGauges g') = length (taskGauges g).
Proof.
  destruct c; cbn [hand_backs flat_map app]; try discriminate; intros _; cbn;
    repeat split; apply default_at_row_length.
Qed.

Lemma run_calls_keep_buttons pre :
  hand_backs pre = [] →
  ∀ g,
    let g' := run_calls pre g in
    taskBtns g' = taskBtns g ∧ btnRunAll g' = btnRunAll g ∧ btnStop g' = btnStop g ∧
    length (taskGauges g') = length (taskGauges g).
Proof.
  induction pre as [| c pre IH]; intros Hpre g; [repeat split |].
  change (c :: pre) with ([c] ++ pre) in Hpre. rewrite hand_backs_app in Hpre.
  apply app_eq_nil in Hpre as [Hc Hpre].
  cbn [run_calls fold_left].
  destruct (run_call_keeps_buttons c g Hc) as (A1 & A2 & A3 & A4).
  destruct (IH Hpre (run_call c g).2) as (B1 & B2 & B3 & B4).
  unfold run_calls in *. cbv zeta. repeat split; congruence.
Qed.

Lemma run_calls_app a b g : run_calls (a ++ b) g = run_calls b (run_calls a g).
Proof. unfold run_calls. apply fold_left_app. Qed.

Lemma hand_back_then_status task_id pos g tail b :
  task_id = S pos →
  taskBtns g !! pos = Some b →
  (pos < length (taskGauges g))%nat →
  (∃ s, tail = [On_task_stopped task_id; Status_SetLabel task_id s] ∨
        tail = [On_task_complete task_id; Status_SetLabel task_id s]) →
  row_idle (run_calls tail g) pos ∧
  btnRunAll (run_calls tail g) = true ∧ btnStop (run_calls tail g) = false.
Proof.
  intros -> Hb Hg [s Htail].
  assert (E : run_calls tail g
              = (run_call (Status_SetLabel (S pos) s) (on_task_complete (S pos) g).2).2)
    by (destruct Htail as [-> | ->]; reflexivity).
  rewrite E. unfold on_task_complete.
  destruct (at_row_in_range (set_enabled true) pos (taskBtns g)) as (b' & Hb' & Eb);
    [eapply lookup_lt_Some; exact Hb |].
  rewrite Eb. cbn [taskGauges with_btnStop with_btnRunAll with_taskBtns].
  destruct (at_row_in_range (SetValue 0) pos (taskGauges g)) as (x & Hx & Ex); [exact Hg |].
  rewrite Ex. cbn. unfold row_idle. cbn.
  split; [| split; reflexivity]. split.
  - eexists. split; [apply list_lookup_insert_eq; eapply lookup_lt_Some; exact Hb |].
    reflexivity.
  - eexists. split; [apply list_lookup_insert_eq; exact Hg |]. split; reflexivity.
Qed.

(** X15.  A click on the Run button of a row starts one worker for the task of
    that row and clears the stop request.  When the GUI thread has run
    the calls the worker queued, the row is idle again (button enabled,
    gauge at 0), Run All enabled and Stop disabled, provided the worker
    returned and scanning was enabled.  When scanning was disabled or
    the worker ended with an exception, nothing hands the task back: its
    button stays disabled, Run All disabled and Stop enabled. *)
Theorem row_is_idle_again_iff_worker_hands_back env tasks g pos btn w :
  aligned tasks g →
  taskBtns g !! pos = Some btn →
  let g1 := (on_launch_task pos g).2 in
  let r := run_task_logic env (btn_id btn) (frame g1) w in
  let g2 := run_calls (new_ui w r.2) (with_frame r.1.2 g1) in
  workers g1 = workers g ++ [S pos] ∧ stop_requested g1 = false ∧
  match r.1.1 with
  | Return _ =>
      if run_scan (frame g)
      then row_idle g2 pos ∧ btnRunAll g2 = true ∧ btnStop g2 = false
      else (∃ b, taskBtns g2 !! pos = Some b ∧ btn_enabled b = false) ∧
           btnRunAll g2 = false ∧ btnStop g2 = true
  | Raise _ =>
      (∃ b, taskBtns g2 !! pos = Some b ∧ btn_enabled b = false) ∧
      btnRunAll g2 = false ∧ btnStop g2 = true
  end.
Proof.
  intros Hal Hb.
  destruct (aligned_btn tasks g pos btn Hal Hb) as [Hid Hpos].
  pose proof (aligned_btns_length tasks g Hal) as Hlen.
  assert (Hgauges : length (taskGauges g) = length tasks) by (apply Hal).
  assert (Hstatus : length (taskStatus g) = length tasks) by (apply Hal).
  assert (Hok : ((1 <=? S pos) && (S pos <=? length tasks))%nat = true).
  { apply andb_true_iff. split; apply Nat.leb_le; lia. }
  destruct (at_row_in_range (λ _, Status_starting_task (S pos)) pos (taskStatus g))
    as (x & _ & Est); [lia |].
  assert (E1 : on_launch_task pos g
               = (Return tt,
                  with_taskStatus (<[pos := Status_starting_task (S pos)]> (taskStatus g))
                    (with_btnStop true (with_btnRunAll false
                       (with_taskBtns (<[pos := set_enabled false btn]> (taskBtns g))
                          (start_worker (S pos) (with_stop_requested false g))))))).
  { unfold on_launch_task. rewrite Hb, Hid, Hlen, Hok.
    cbn [taskStatus with_btnStop with_btnRunAll with_taskBtns start_worker
         with_stop_requested].
    rewrite Est. reflexivity. }
  cbv zeta. rewrite E1. cbn [snd]. set (g1 := with_taskStatus _ _).
  split; [reflexivity |]. split; [reflexivity |].
  change (frame g1) with (frame g).
  destruct (run_task_logic_queue env (btn_id btn) (frame g) w)
    as (pre & tail & Hui & Hpre & Htail).
  rewrite (new_ui_app _ _ _ Hui), run_calls_app.
  set (r := run_task_logic env (btn_id btn) (frame g) w) in *.
  destruct (run_calls_keep_buttons pre Hpre (with_frame r.1.2 g1)) as (K1 & K2 & K3 & K4).
  cbv zeta in K1, K2, K3, K4. cbn [taskBtns btnRunAll btnStop taskGauges with_frame] in K1, K2, K3, K4.
  assert (Hb1 : taskBtns (run_calls pre (with_frame r.1.2 g1)) !! pos
                = Some (set_enabled false btn)).
  { rewrite K1. subst g1. cbn. apply list_lookup_insert_eq. lia. }
  assert (Hstuck : tail = [] →
            (∃ b, taskBtns (run_calls tail (run_calls pre (with_frame r.1.2 g1))) !! pos
                  = Some b ∧ btn_enabled b = false) ∧
            btnRunAll (run_calls tail (run_calls pre (with_frame r.1.2 g1))) = false ∧
            btnStop (run_calls tail (run_calls pre (with_frame r.1.2 g1))) = true).
  { intros ->. cbn [run_calls fold_left]. fold (run_calls pre (with_frame r.1.2 g1)).
    split; [eexists; split; [exact Hb1 | reflexivity] |].
    rewrite K2, K3. split; reflexivity. }
  destruct (r.1.1) as [[] | e]; [| exact (Hstuck Htail)].
  destruct (run_scan (frame g)); [| exact (Hstuck Htail)].
  eapply hand_back_then_status; [exact Hid | exact Hb1 | | exact Htail].
  rewrite K4. subst g1. cbn. lia.
Qed.

Lemma row_is_idle_again_iff_worker_hands_back_witness :
  let g := init_window [demo_task] in
  let btn := mk_button 1 ("Run " ++ label demo_task) true in
  let g1 := (on_launch_task 0 g).2 in
  let r := run_task_logic demo_env (btn_id btn) (frame g1) empty_world in
  let g2 := run_calls (new_ui empty_world r.2) (with_frame r.1.2 g1) in
  workers g1 = workers g ++ [1%nat] ∧ stop_requested g1 = false ∧
  match r.1.1 with
  | Return _ =>
      if run_scan (frame g)
      then row_idle g2 0 ∧ btnRunAll g2 = true ∧ btnStop g2 = false
      else (∃ b, taskBtns g2 !! 0%nat = Some b ∧ btn_enabled b = false) ∧
           btnRunAll g2 = false ∧ btnStop g2 = true
  | Raise _ =>
      (∃ b, taskBtns g2 !! 0%nat = Some b ∧ btn_enabled b = false) ∧
      btnRunAll g2 = false ∧ btnStop g2 = true
  end.
Proof.
  apply (row_is_idle_again_iff_worker_hands_back demo_env [demo_task]
           (init_window [demo_task]) 0 (mk_button 1 ("Run " ++ label demo_task) true)
           empty_world).
  - exact (proj1 (proj2 (init_window_spec [demo_task]))).
  - reflexivity.
Defined.

(** ** Stage flags in the states the window can reach *)

Lemma launch_row_frame task_id g : frame (launch_row task_id g).2 = frame g.
Proof.
  unfold launch_row.
  destruct (at_row _ _ (taskBtns _)); [| reflexivity].
  cbn [taskLabels with_taskBtns start_worker].
  destruct (taskLabels g !! _); [| reflexivity].
  cbn [taskStatus with_taskBtns start_worker].
  destruct (at_row _ _ _); reflexivity.
Qed.

Lemma launch_rows_frame ids : ∀ g, frame (launch_rows ids g).2 = frame g.
Proof.
  induction ids as [| task_id ids IH]; intros g; [reflexivity |].
  cbn [launch_rows]. pose proof (launch_row_frame task_id g) as H.
  destruct (launch_row task_id g) as [[[] | e] g1]; cbn [snd] in *.
  - rewrite IH. exact H.
  - exact H.
Qed.

Lemma on_task_complete_frame task_id g : frame (on_task_complete task_id g).2 = frame g.
Proof.
  unfold on_task_complete. destruct (at_row _ _ (taskBtns g)); [| reflexivity].
  cbn [taskGauges with_btnStop with_btnRunAll with_taskBtns].
  destruct (at_row _ _ _); reflexivity.
Qed.

Lemma handle_frame e g :
  frame (handle e g)
  = match e with Click_checkbox cb => click cb (frame g) | _ => frame g end.
Proof.
  destruct e as [pos | | | cb | c]; cbn [handle].
  - destruct (taskBtns g !! pos) as [btn |] eqn:Eb; [| reflexivity].
    destruct (btn_enabled btn); [| reflexivity].
    unfold on_launch_task. rewrite Eb. destruct (_ && _); [| reflexivity].
    cbn [taskStatus with_btnStop with_btnRunAll with_taskBtns start_worker
         with_stop_requested].
    destruct (at_row _ _ _); reflexivity.
  - destruct (btnRunAll g); [| reflexivity].
    unfold on_launch_all_tasks.
    pose proof (launch_rows_frame (seq 1 (length (taskBtns (with_stop_requested false g))))
                  (with_stop_requested false g)) as H.
    destruct (launch_rows _ _) as [[[] | e] g1]; exact H.
  - destruct (btnStop g); reflexivity.
  - reflexivity.
  - destruct c; cbn [run_call snd]; try reflexivity; apply on_task_complete_frame.
Qed.

Lemma click_keeps_evict_implies_copy cb f :
  (run_evict f = true → run_copy f = true) →
  run_evict (click cb f) = true → run_copy (click cb f) = true.
Proof.
  destruct f as [cfgs files s c e ws wc we]. cbn.
  destruct cb, ws, wc, we, c, e; cbn; intuition congruence.
Qed.

(** X17.  In every state the window reaches from [__init__], whatever
    is clicked and queued, the three check boxes show the three stage
    flags and eviction is enabled only together with copying.  (Copying
    without scanning can be reached.) *)
Theorem evict_is_never_enabled_without_copy tasks events :
  let f := frame (handle_all events (init_window tasks)) in
  widgets_in_sync f ∧ (run_evict f = true → run_copy f = true).
Proof.
  cbv zeta.
  assert (H0 : widgets_in_sync (frame (init_window tasks)) ∧
               (run_evict (frame (init_window tasks)) = true →
                run_copy (frame (init_window tasks)) = true)).
  { rewrite (proj1 (init_window_spec tasks)). split; [repeat split | reflexivity]. }
  revert H0. generalize (init_window tasks).
  induction events as [| e events IH]; intros g Hg; [exact Hg |].
  cbn [handle_all fold_left]. apply IH. rewrite handle_frame.
  destruct e; try exact Hg.
  destruct Hg as [H1 H2]. split.
  - apply click_keeps_widgets_in_sync. exact H1.
  - apply click_keeps_evict_implies_copy. exact H2.
Qed.
